(** * voidArchs / svc: the snapshot engine of the command-line tool

    A shallow embedding of the versioning core of the `svc` CLI
    (commands/snapshot.js, commands/revert.js, commands/diff.js,
    commands/delete.js, utils/hash.js, utils/ignore.js, database/init.js)
    and the properties its specification states about it, followed by the
    rest of the code around it and the properties the code itself shows.

    Conventions of the embedding.
    - The disk is the tree below the project root, [process.cwd()].  A path
      is the list of its segments below the root; [path_text] is the text
      that [path.relative(projectDir, ...)] yields for it and that the
      [files.path] column stores (segments joined by "/"); [join_cwd] is
      [path.join(process.cwd(), text)].  Permissions are not modelled: a
      call on [fs] fails only for what the tree holds (no such entry, a
      directory where a file is expected, a file where a directory is).
      The content of a file is one string, for [readFileSync(p)] and for
      [readFileSync(p, 'utf-8')] alike.
    - The SQLite store is a record of tables, each a list of rows in rowid
      order, with the AUTOINCREMENT counters of [sqlite_sequence]; the
      store is apart from the disk, [None] when the database file is
      missing.  [CURRENT_TIMESTAMP] is one time per run, an input.
    - A statement's outcome is an input of the command wherever the source
      callback tests [err]; answers to inquirer prompts are inputs too.
    - Callbacks run in the order in which the statements were issued.
    - What a command prints, and the calls it makes on [fs], are collected
      in a log of events.  An exception that nothing catches ends the
      command with no state ([Thrown]).
    - [crypto]'s SHA-256 and the JavaScript [RegExp] engine are not part of
      the repository: the tracker is parametric in them.  [diffLines] of
      the [diff] package and the table it feeds are the event
      [DiffTable], with the two contents compared. *)

From Stdlib Require Import String Ascii List ZArith Lia Bool.
From stdpp Require Import gmap strings.
Import ListNotations.

Local Open Scope string_scope.
Local Open Scope Z_scope.
Local Open Scope list_scope.

(** ** The disk *)

Definition path := list string.

(** A directory entry is a regular file with its bytes, a directory with its
    entries in the order [readdirSync] lists them, or something else (a
    symbolic link, a socket: [isFile()] and [isDirectory()] both false). *)
Inductive node : Type :=
| File (bytes : string)
| Dir (es : entries)
| Other
with entries : Type :=
| ENil
| ECons (name : string) (n : node) (rest : entries).

Scheme node_mut := Induction for node Sort Prop
  with entries_mut := Induction for entries Sort Prop.

(** The text of a relative path: its segments joined by "/". *)
Fixpoint path_text (p : path) : string :=
  match p with
  | [] => ""
  | [s] => s
  | s :: rest => s ++ "/" ++ path_text rest
  end.

Fixpoint entry_get (name : string) (es : entries) : option node :=
  match es with
  | ENil => None
  | ECons nm n rest => if String.eqb nm name then Some n else entry_get name rest
  end.

(** [entry_set name n es]: replace the entry called [name], or add it. *)
Fixpoint entry_set (name : string) (n : node) (es : entries) : entries :=
  match es with
  | ENil => ECons name n ENil
  | ECons nm m rest =>
      if String.eqb nm name then ECons nm n rest else ECons nm m (entry_set name n rest)
  end.

(** The node a path denotes, from the directory [d]. *)
Fixpoint lookup_node (p : path) (d : node) : option node :=
  match p with
  | [] => Some d
  | s :: rest =>
      match d with
      | Dir es => match entry_get s es with
                  | Some c => lookup_node rest c
                  | None => None
                  end
      | _ => None
      end
  end.

(** [fs.existsSync] *)
Definition existsSync (p : path) (disk : node) : bool :=
  match lookup_node p disk with Some _ => true | None => false end.

(** [fs.readFileSync]: [None] when the call throws (no such file, or the
    path is a directory). *)
Definition readFileSync (p : path) (disk : node) : option string :=
  match lookup_node p disk with
  | Some (File bytes) => Some bytes
  | _ => None
  end.


(** [fs.mkdirSync(p, { recursive: true })]: creates the missing directories
    along [p]; throws ([None]) when a segment exists and is not a directory. *)
Fixpoint mkdirSync_recursive (p : path) (d : node) : option node :=
  match d with
  | Dir es =>
      match p with
      | [] => Some d
      | s :: rest =>
          match mkdirSync_recursive rest
                  (match entry_get s es with Some c => c | None => Dir ENil end) with
          | Some c' => Some (Dir (entry_set s c' es))
          | None => None
          end
      end
  | _ => None
  end.

(** [fs.writeFileSync(p, content)]: creates or replaces the regular file at
    [p]; throws when the parent is not an existing directory or when [p] is
    not a regular file (a directory, or another kind of entry). *)
Fixpoint writeFileSync (p : path) (content : string) (d : node) : option node :=
  match p, d with
  | [], _ => None
  | [s], Dir es =>
      match entry_get s es with
      | Some (Dir _) | Some Other => None
      | _ => Some (Dir (entry_set s (File content) es))
      end
  | s :: rest, Dir es =>
      match entry_get s es with
      | Some c => match writeFileSync rest content c with
                  | Some c' => Some (Dir (entry_set s c' es))
                  | None => None
                  end
      | None => None
      end
  | _, _ => None
  end.

(** [path.dirname] on a path below the root. *)
Definition dirname (p : path) : path := removelast p.

(** Every regular file of a tree, with its path and bytes. *)
Fixpoint node_files (at_ : path) (n : node) : list (path * string) :=
  match n with
  | File bytes => [(at_, bytes)]
  | Dir es => entries_files at_ es
  | Other => []
  end
with entries_files (dir : path) (es : entries) : list (path * string) :=
  match es with
  | ENil => []
  | ECons name n rest => node_files (dir ++ [name]) n ++ entries_files dir rest
  end.

(** ** The store (database/init.js) *)

Record ProjectRow := { p_id : Z; p_name : string; p_secret_key : option string }.

Record FileRow := {
  f_id : Z;
  f_project_id : Z;
  f_path : string;
  f_hash : string;
  f_modified_at : Z
}.

Record SnapshotRow := {
  s_id : Z;
  s_project_id : Z;
  s_description : string;
  s_created_at : Z
}.

(** [content] is a nullable TEXT column. *)
Record SnapshotFileRow := {
  sf_id : Z;
  sf_snapshot_id : Z;
  sf_file_id : Z;
  sf_content : option string
}.

Record Db := {
  projects : list ProjectRow;
  files : list FileRow;
  snapshots : list SnapshotRow;
  snapshot_files : list SnapshotFileRow;
  seq_files : Z;
  seq_snapshots : Z;
  seq_snapshot_files : Z
}.

(** [SELECT id FROM projects WHERE name = ?] *)
Definition select_project (name : string) (db : Db) : option ProjectRow :=
  List.find (fun p => String.eqb (p_name p) name) (projects db).

(** [SELECT * FROM files WHERE path = ?] *)
Definition select_file (p : string) (db : Db) : option FileRow :=
  List.find (fun r => String.eqb (f_path r) p) (files db).

(** [UPDATE files SET hash = ?, modified_at = CURRENT_TIMESTAMP WHERE path = ?] *)
Definition update_file (hash p : string) (now : Z) (db : Db) : Db :=
  {| projects := projects db;
     files := List.map (fun r => if String.eqb (f_path r) p
                            then {| f_id := f_id r; f_project_id := f_project_id r;
                                    f_path := f_path r; f_hash := hash;
                                    f_modified_at := now |}
                            else r) (files db);
     snapshots := snapshots db;
     snapshot_files := snapshot_files db;
     seq_files := seq_files db;
     seq_snapshots := seq_snapshots db;
     seq_snapshot_files := seq_snapshot_files db |}.

(** [INSERT INTO files (path, hash, project_id, modified_at)
     VALUES (?, ?, ?, CURRENT_TIMESTAMP)] *)
Definition insert_file (p hash : string) (projectId now : Z) (db : Db) : Db :=
  {| projects := projects db;
     files := files db ++ [{| f_id := seq_files db + 1; f_project_id := projectId;
                              f_path := p; f_hash := hash; f_modified_at := now |}];
     snapshots := snapshots db;
     snapshot_files := snapshot_files db;
     seq_files := seq_files db + 1;
     seq_snapshots := seq_snapshots db;
     seq_snapshot_files := seq_snapshot_files db |}.

(** ** What a command prints and calls *)

Inductive event :=
| NotInitialized                      (* 'Project not initialized. Run "svc init" first.' *)
| ProjectError                        (* 'Error retrieving project: ...' / 'Error finding project ...' *)
| NoProject                           (* 'No project found for ...' *)
| Ignored (entryPath : string)        (* 'Ignored: ${entryPath}' *)
| TrackingCompleted                   (* 'File tracking completed.' *)
| Readdir (dir : path)                (* fs.readdirSync(dir) *)
| ReadFile (p : path)                 (* fs.readFileSync(p) *)
| Mkdir (p : path)                    (* fs.mkdirSync(p, { recursive: true }) *)
| WriteFile (p : path) (content : string) (* fs.writeFileSync(p, content) *)
| SnapshotError                       (* 'Error creating snapshot: ...' *)
| FilesError                          (* 'Error retrieving files: ...' *)
| SnapshotCreated (id : Z)            (* 'Snapshot ${snapshotId} created successfully.' *)
| SnapshotsError                      (* 'Error retrieving snapshots: ...' *)
| NoSnapshots                         (* 'No snapshots ...' *)
| DeleteFilesError                    (* 'Error deleting snapshot files: ...' *)
| DeleteSnapshotError                 (* 'Error deleting snapshot: ...' *)
| SnapshotDeleted (id : Z)            (* 'Snapshot ${snapshotId} deleted successfully.' *)
| DeletionCanceled                    (* 'Snapshot deletion canceled.' *)
| NoFilesInSnapshot                   (* 'No files found in the selected snapshot.' *)
| Restored (p : string)               (* 'Restored: ${file.path}' *)
| RestoreFailed (p : string)          (* 'Failed to restore ${file.path}: ...' *)
| Reverted (id : Z)                   (* 'Reverted to snapshot ID: ${snapshotId}' *)
| SelectAtLeastOne                    (* 'You must select at least one file to proceed.' *)
| NoFilesSelected                     (* 'No files selected for restoration.' *)
| SelectiveCompleted                  (* 'Selective file restoration completed.' *)
| NotEnoughSnapshots                  (* 'Not enough snapshots to compare.' *)
| SelectExactlyTwo                    (* 'Please select exactly two snapshots.' *)
| NoMatchingFiles                     (* 'No matching files found based on the filter criteria.' *)
| DiffHeader (a b : Z)                (* 'Diff Between Snapshots ${snapshot1} and ${snapshot2}:' *)
| DiffTable (p : string) (content1 content2 : string) (* displaySideBySideDiff *)
| CaughtError.                        (* 'Error: ${error.message}' *)

(** The disk, the store and the log of a running command. *)
Record World := {
  w_disk : node;
  w_db : Db;
  w_log : list event
}.

Definition emit (e : event) (w : World) : World :=
  {| w_disk := w_disk w; w_db := w_db w; w_log := w_log w ++ [e] |}.

Definition with_db (db : Db) (w : World) : World :=
  {| w_disk := w_disk w; w_db := db; w_log := w_log w |}.

Definition with_disk (d : node) (w : World) : World :=
  {| w_disk := d; w_db := w_db w; w_log := w_log w |}.

(** The project directory a command starts in: its name, the disk below it
    and, when the database file exists, the store. *)
Record Project := {
  name : string;          (* getProjectName() *)
  disk : node;
  store : option Db
}.

Definition start (pr : Project) (db : Db) : World :=
  {| w_disk := disk pr; w_db := db; w_log := [] |}.

(** How a command ends: with the disk, the store and the log, or by an
    exception that nothing catches. *)
Inductive outcome :=
| Done (d : node) (s : option Db) (log : list event)
| Thrown.

Definition finish (w : World) : outcome := Done (w_disk w) (Some (w_db w)) (w_log w).

Definition not_initialized (pr : Project) : outcome :=
  Done (disk pr) None [NotInitialized].

(** ** utils/ignore.js and the tracker's matcher *)

(** [text.split(sep)] for a separator of one character. *)
Fixpoint split_on (sep : ascii) (text : string) : list string :=
  match text with
  | EmptyString => [EmptyString]
  | String c rest =>
      if Ascii.eqb c sep then EmptyString :: split_on sep rest
      else match split_on sep rest with
           | line :: lines => String c line :: lines
           | [] => [String c EmptyString]
           end
  end.

Definition split_lines (text : string) : list string := split_on "010" text.

(** [path.join(process.cwd(), file.path)], as a path below the root: the
    segments of the text, without the empty ones and the "." ones.  The
    tracker stores what [path.relative] returned, which has no ".."
    segment; ".." is not interpreted here. *)
Definition join_cwd (text : string) : path :=
  List.filter (fun seg => negb (String.eqb seg "") && negb (String.eqb seg "."))
    (split_on "/" text).

(** The white space [line.trim()] removes, among the 7-bit characters. *)
Definition is_space (c : ascii) : bool :=
  match c with
  | " "%char | "009"%char | "010"%char | "011"%char | "012"%char | "013"%char => true
  | _ => false
  end.

Fixpoint trim_left (s : string) : string :=
  match s with
  | String c rest => if is_space c then trim_left rest else s
  | EmptyString => EmptyString
  end.

Fixpoint trim_right (s : string) : string :=
  match s with
  | EmptyString => EmptyString
  | String c rest =>
      match trim_right rest with
      | EmptyString => if is_space c then EmptyString else String c EmptyString
      | r => String c r
      end
  end.

Definition trim (s : string) : string := trim_right (trim_left s).

Definition startsWith (pre s : string) : bool := String.prefix pre s.

Definition ignoreFilePath : path := [".svcignore"].

(** [loadIgnoreRules]: no rule when [.svcignore] is missing; otherwise its
    lines, trimmed, without the blank ones and those that start with "#" or
    "//".  [None] when [readFileSync] throws. *)
Definition loadIgnoreRules (d : node) : option (list string) :=
  if existsSync ignoreFilePath d then
    match readFileSync ignoreFilePath d with
    | Some text =>
        Some (List.filter (fun line => negb (String.eqb line "")
                                  && negb (startsWith "#" line)
                                  && negb (startsWith "//" line))
                (List.map trim (split_lines text)))
    | None => None
    end
  else Some [].

(** [pattern.replace(/\*/g, '.*')] *)
Fixpoint replace_star (pattern : string) : string :=
  match pattern with
  | EmptyString => EmptyString
  | String c rest =>
      if Ascii.eqb c "*"
      then String "." (String "*" (replace_star rest))
      else String c (replace_star rest)
  end.

(** The source text of [new RegExp(`^${pattern.replace(/\*/g, '.*')}$`)]. *)
Definition ignore_source (pattern : string) : string :=
  "^" ++ replace_star pattern ++ "$".

(** ** Queries shared by the commands *)

(** [content || ''] *)
Definition or_empty (content : option string) : string :=
  match content with
  | Some c => c
  | None => ""
  end.

(** [SELECT ... FROM snapshots WHERE project_id = ?] *)
Definition project_snapshots (projectId : Z) (db : Db) : list SnapshotRow :=
  List.filter (fun s => Z.eqb (s_project_id s) projectId) (snapshots db).

(** [ORDER BY created_at ASC]: rows with equal times keep their rowid order. *)
Fixpoint insert_by_time (s : SnapshotRow) (sorted : list SnapshotRow) : list SnapshotRow :=
  match sorted with
  | [] => [s]
  | t :: rest =>
      if Z.leb (s_created_at s) (s_created_at t) then s :: sorted
      else t :: insert_by_time s rest
  end.

Definition order_by_created_at (rows : list SnapshotRow) : list SnapshotRow :=
  fold_right insert_by_time [] rows.

(** [SELECT f.path, sf.content FROM snapshot_files sf
     INNER JOIN files f ON sf.file_id = f.id WHERE sf.snapshot_id = ?] *)
Definition snapshot_contents (snapshotId : Z) (db : Db) : list (string * option string) :=
  flat_map
    (fun sf => List.map (fun f => (f_path f, sf_content sf))
                 (List.filter (fun f => Z.eqb (f_id f) (sf_file_id sf)) (files db)))
    (List.filter (fun sf => Z.eqb (sf_snapshot_id sf) snapshotId) (snapshot_files db)).


(** The SnapshotFile rows of one snapshot. *)
Definition files_of_snapshot (snapshotId : Z) (db : Db) : list SnapshotFileRow :=
  List.filter (fun sf => Z.eqb (sf_snapshot_id sf) snapshotId) (snapshot_files db).

(** An inquirer prompt of type 'list' over a list that is not empty: the
    answer is the position of the cursor, which starts on the first choice. *)
Definition prompt_list {A : Type} (answer : nat) (first : A) (others : list A) : A :=
  nth answer (first :: others) first.

(** An inquirer prompt of type 'checkbox': the answer is the choices that
    are checked, in the order of the choices; a choice without a box in
    [checked] is not checked. *)
Fixpoint prompt_checkbox {A : Type} (checked : list bool) (choices : list A) : list A :=
  match checked, choices with
  | true :: cs, x :: xs => x :: prompt_checkbox cs xs
  | false :: cs, _ :: xs => prompt_checkbox cs xs
  | _, _ => []
  end.

(** [INSERT INTO snapshots (project_id, description) VALUES (?, ?)] *)
Definition insert_snapshot (projectId : Z) (description : string) (now : Z) (db : Db) : Db :=
  {| projects := projects db;
     files := files db;
     snapshots := snapshots db ++ [{| s_id := seq_snapshots db + 1; s_project_id := projectId;
                                      s_description := description; s_created_at := now |}];
     snapshot_files := snapshot_files db;
     seq_files := seq_files db;
     seq_snapshots := seq_snapshots db + 1;
     seq_snapshot_files := seq_snapshot_files db |}.

(** [INSERT INTO snapshot_files (snapshot_id, file_id, content) VALUES (?, ?, ?)] *)
Definition insert_snapshot_file (snapshotId fileId : Z) (content : string) (db : Db) : Db :=
  {| projects := projects db;
     files := files db;
     snapshots := snapshots db;
     snapshot_files := snapshot_files db
                       ++ [{| sf_id := seq_snapshot_files db + 1; sf_snapshot_id := snapshotId;
                              sf_file_id := fileId; sf_content := Some content |}];
     seq_files := seq_files db;
     seq_snapshots := seq_snapshots db;
     seq_snapshot_files := seq_snapshot_files db + 1 |}.

(** [DELETE FROM snapshot_files WHERE snapshot_id = ?] *)
Definition delete_snapshot_files (snapshotId : Z) (db : Db) : Db :=
  {| projects := projects db;
     files := files db;
     snapshots := snapshots db;
     snapshot_files := List.filter (fun sf => negb (Z.eqb (sf_snapshot_id sf) snapshotId))
                         (snapshot_files db);
     seq_files := seq_files db;
     seq_snapshots := seq_snapshots db;
     seq_snapshot_files := seq_snapshot_files db |}.

(** [DELETE FROM snapshots WHERE id = ?] *)
Definition delete_snapshot_row (snapshotId : Z) (db : Db) : Db :=
  {| projects := projects db;
     files := files db;
     snapshots := List.filter (fun s => negb (Z.eqb (s_id s) snapshotId)) (snapshots db);
     snapshot_files := snapshot_files db;
     seq_files := seq_files db;
     seq_snapshots := seq_snapshots db;
     seq_snapshot_files := seq_snapshot_files db |}.

(** ** commands/snapshot.js *)

Module Snapshot.

Section Engine.

(** [sha256_hex bytes]: the hexadecimal SHA-256 digest of [crypto]. *)
Variable sha256_hex : string -> string.

(** [RegExp_test source s]: [new RegExp(source).test(s)]; [None] when the
    constructor throws a SyntaxError. *)
Variable RegExp_test : string -> string -> option bool.

(** [calculateFileHash] (utils/hash.js), on the bytes [readFileSync] returned. *)
Definition calculateFileHash (bytes : string) : string := sha256_hex bytes.

(** [ignorePatterns.some((pattern) => new RegExp(...).test(entryPath))]: stops
    at the first rule that matches; a rule that is not a regular expression
    throws when it is reached. *)
Fixpoint some_ignores (ignorePatterns : list string) (entryPath : string)
  : option bool :=
  match ignorePatterns with
  | [] => Some false
  | pattern :: rest =>
      match RegExp_test (ignore_source pattern) entryPath with
      | None => None
      | Some true => Some true
      | Some false => some_ignores rest entryPath
      end
  end.

(** The callback of [db.get(`SELECT * FROM files WHERE path = ?`)]: update the
    row when there is one, insert one otherwise. *)
Definition upsert_file (entryPath hash : string) (projectId now : Z) (db : Db) : Db :=
  match select_file entryPath db with
  | Some _ => update_file hash entryPath now db
  | None => insert_file entryPath hash projectId now db
  end.

(** [traverseDirectory]: [each_entry] is [entries.forEach] over the entries
    of [dir] and [visit_entry] one call of its callback.  The entry at hand
    is the file that [path.join(projectDir, entryPath)] names.  [None]: an
    exception left the traversal. *)
Fixpoint visit_entry (ignorePatterns : list string) (dir : path) (name : string)
    (n : node) (projectId now : Z) (w : World) {struct n} : option World :=
  let entry := dir ++ [name] in
  let entryPath := path_text entry in
  match some_ignores ignorePatterns entryPath with
  | None => None
  | Some true => Some (emit (Ignored entryPath) w)
  | Some false =>
      match n with
      | File bytes =>
          let w := emit (ReadFile entry) w in
          let hash := calculateFileHash bytes in
          Some (with_db (upsert_file entryPath hash projectId now (w_db w)) w)
      | Dir es =>
          each_entry ignorePatterns entry es projectId now (emit (Readdir entry) w)
      | Other => Some w
      end
  end
with each_entry (ignorePatterns : list string) (dir : path) (es : entries)
    (projectId now : Z) (w : World) {struct es} : option World :=
  match es with
  | ENil => Some w
  | ECons name n rest =>
      match visit_entry ignorePatterns dir name n projectId now w with
      | Some w' => each_entry ignorePatterns dir rest projectId now w'
      | None => None
      end
  end.

Definition traverseDirectory (ignorePatterns : list string) (dir : path)
    (projectId now : Z) (w : World) : option World :=
  match lookup_node dir (w_disk w) with
  | Some (Dir es) => each_entry ignorePatterns dir es projectId now (emit (Readdir dir) w)
  | _ => None
  end.

(** [trackFiles].  [project_err]: the lookup of the project fails. *)
Definition trackFiles (project_err : bool) (now : Z) (pr : Project) : outcome :=
  match store pr with
  | None => not_initialized pr
  | Some db =>
      match loadIgnoreRules (disk pr) with
      | None => Thrown
      | Some ignorePatterns =>
          if project_err then Done (disk pr) (Some db) [ProjectError]
          else match select_project (name pr) db with
               | Some project =>
                   match traverseDirectory ignorePatterns [] (p_id project) now
                           (start pr db) with
                   | Some w => finish (emit TrackingCompleted w)
                   | None => Thrown
                   end
               | None => Done (disk pr) (Some db) [NoProject]
               end
      end
  end.

(** The statements of [createSnapshot] whose callback tests [err]. *)
Record create_errors := {
  track_project_err : bool;     (* trackFiles: SELECT id FROM projects *)
  create_project_err : bool;    (* SELECT id FROM projects *)
  insert_snapshot_err : bool;   (* INSERT INTO snapshots *)
  select_files_err : bool       (* SELECT id, path FROM files *)
}.

(** [SELECT id, path FROM files WHERE project_id = ?] *)
Definition project_files (projectId : Z) (db : Db) : list FileRow :=
  List.filter (fun f => Z.eqb (f_project_id f) projectId) (files db).

(** [files.forEach]: one SnapshotFile per File row, with the content of the
    file on disk, or '' when the file is missing.  [None]: [readFileSync]
    throws. *)
Fixpoint capture_files (snapshotId : Z) (rows : list FileRow) (w : World)
  : option World :=
  match rows with
  | [] => Some w
  | file :: rest =>
      let filePath := join_cwd (f_path file) in
      if existsSync filePath (w_disk w) then
        match readFileSync filePath (w_disk w) with
        | Some content =>
            capture_files snapshotId rest
              (with_db (insert_snapshot_file snapshotId (f_id file) content (w_db w))
                 (emit (ReadFile filePath) w))
        | None => None
        end
      else
        capture_files snapshotId rest
          (with_db (insert_snapshot_file snapshotId (f_id file) "" (w_db w)) w)
  end.

(** [createSnapshot].  [description] is the answer to the prompt. *)
Definition createSnapshot (errs : create_errors) (description : string) (now : Z)
    (pr : Project) : outcome :=
  match store pr with
  | None => not_initialized pr
  | Some _ =>
      match trackFiles (track_project_err errs) now pr with
      | Thrown => Thrown
      | Done d None log => Done d None log
      | Done d (Some db) log =>
          let w := {| w_disk := d; w_db := db; w_log := log |} in
          if create_project_err errs then finish (emit ProjectError w)
          else match select_project (name pr) db with
               | None => finish (emit NoProject w)
               | Some project =>
                   if insert_snapshot_err errs then finish (emit SnapshotError w)
                   else
                     let snapshotId := seq_snapshots db + 1 in
                     let w := with_db (insert_snapshot (p_id project) description now db) w in
                     let w := emit (SnapshotCreated snapshotId) w in
                     if select_files_err errs then finish (emit FilesError w)
                     else match capture_files snapshotId
                                  (project_files (p_id project) (w_db w)) w with
                          | Some w' => finish w'
                          | None => Thrown
                          end
               end
      end
  end.

End Engine.

(** The statements of [deleteSnapshot] whose callback tests [err]. *)
Record delete_errors := {
  project_err : bool;           (* SELECT id FROM projects *)
  snapshots_err : bool;         (* SELECT ... FROM snapshots *)
  delete_files_err : bool;      (* DELETE FROM snapshot_files *)
  delete_snapshot_err : bool    (* DELETE FROM snapshots *)
}.

(** The two DELETE statements, the second issued by the callback of the
    first (the same in commands/delete.js). *)
Definition delete_cascade (errs : delete_errors) (snapshotId : Z) (w : World) : World :=
  if delete_files_err errs then emit DeleteFilesError w
  else
    let w := with_db (delete_snapshot_files snapshotId (w_db w)) w in
    if delete_snapshot_err errs then emit DeleteSnapshotError w
    else emit (SnapshotDeleted snapshotId)
           (with_db (delete_snapshot_row snapshotId (w_db w)) w).

(** [deleteSnapshot].  [answer] is the answer to 'Select snapshot to delete:'. *)
Definition deleteSnapshot (errs : delete_errors) (answer : nat) (pr : Project) : outcome :=
  match store pr with
  | None => not_initialized pr
  | Some db =>
      let w := start pr db in
      if project_err errs then finish (emit ProjectError w)
      else match select_project (name pr) db with
           | None => finish (emit NoProject w)
           | Some project =>
               if snapshots_err errs then finish (emit SnapshotsError w)
               else match project_snapshots (p_id project) db with
                    | [] => finish (emit NoSnapshots w)
                    | first :: others =>
                        let snapshotId := s_id (prompt_list answer first others) in
                        finish (delete_cascade errs snapshotId w)
                    end
           end
  end.

End Snapshot.

(** ** commands/delete.js *)

Module Delete.

(** [deleteSnapshot].  [answer] and [confirm] are the answers to 'Select a
    snapshot to delete:' and to 'Are you sure ...?'. *)
Definition deleteSnapshot (errs : Snapshot.delete_errors) (answer : nat) (confirm : bool)
    (pr : Project) : outcome :=
  match store pr with
  | None => not_initialized pr
  | Some db =>
      let w := start pr db in
      if Snapshot.project_err errs then finish (emit ProjectError w)
      else match select_project (name pr) db with
           | None => finish (emit ProjectError w)
           | Some project =>
               if Snapshot.snapshots_err errs then finish (emit NoSnapshots w)
               else match order_by_created_at (project_snapshots (p_id project) db) with
                    | [] => finish (emit NoSnapshots w)
                    | first :: others =>
                        let snapshotId := s_id (prompt_list answer first others) in
                        if confirm then finish (Snapshot.delete_cascade errs snapshotId w)
                        else finish (emit DeletionCanceled w)
                    end
           end
  end.

End Delete.

(** ** commands/revert.js *)

Module Revert.

(** [restoreFile]: the directories first, then the file; an exception of
    either call is caught and reported as a failure. *)
Definition restoreFile (filePath : path) (content : option string) (w : World)
  : World * bool :=
  let w := emit (Mkdir (dirname filePath)) w in
  match mkdirSync_recursive (dirname filePath) (w_disk w) with
  | None => (w, false)
  | Some made =>
      let w := emit (WriteFile filePath (or_empty content)) (with_disk made w) in
      match writeFileSync filePath (or_empty content) made with
      | None => (w, false)
      | Some written => (with_disk written w, true)
      end
  end.

(** The body of [files.forEach] and of [selectedFiles.forEach]. *)
Definition restore_one (file : string * option string) (w : World) : World :=
  let filePath := join_cwd (fst file) in
  let (w', success) := restoreFile filePath (snd file) w in
  if success then emit (Restored (fst file)) w'
  else emit (RestoreFailed (fst file)) w'.

Definition restore_each (rows : list (string * option string)) (w : World) : World :=
  fold_left (fun w file => restore_one file w) rows w.

(** The statements of both commands whose callback tests [err]. *)
Record revert_errors := {
  project_err : bool;           (* SELECT id FROM projects *)
  snapshots_err : bool;         (* SELECT ... FROM snapshots *)
  files_err : bool              (* SELECT f.path, sf.content ... *)
}.

(** [revertToSnapshot].  [answer] is the answer to 'Select a snapshot to
    revert to:'. *)
Definition revertToSnapshot (errs : revert_errors) (answer : nat) (pr : Project)
  : outcome :=
  match store pr with
  | None => not_initialized pr
  | Some db =>
      let w := start pr db in
      if project_err errs then finish (emit ProjectError w)
      else match select_project (name pr) db with
           | None => finish (emit ProjectError w)
           | Some project =>
               if snapshots_err errs then finish (emit NoSnapshots w)
               else match order_by_created_at (project_snapshots (p_id project) db) with
                    | [] => finish (emit NoSnapshots w)
                    | first :: others =>
                        let snapshotId := s_id (prompt_list answer first others) in
                        if files_err errs then finish (emit NoFilesInSnapshot w)
                        else match snapshot_contents snapshotId db with
                             | [] => finish (emit NoFilesInSnapshot w)
                             | rows =>
                                 finish (emit (Reverted snapshotId) (restore_each rows w))
                             end
                    end
           end
  end.

(** [selectiveRestore].  [answer] is the answer to 'Select a snapshot to
    restore from:' and [checked] the boxes of 'Select files to restore:'.
    While [validate] rejects the selection the prompt shows its message and
    does not return. *)
Definition selectiveRestore (errs : revert_errors) (answer : nat) (checked : list bool)
    (pr : Project) : outcome :=
  match store pr with
  | None => not_initialized pr
  | Some db =>
      let w := start pr db in
      if project_err errs then finish (emit ProjectError w)
      else match select_project (name pr) db with
           | None => finish (emit ProjectError w)
           | Some project =>
               if snapshots_err errs then finish (emit NoSnapshots w)
               else match order_by_created_at (project_snapshots (p_id project) db) with
                    | [] => finish (emit NoSnapshots w)
                    | first :: others =>
                        let snapshotId := s_id (prompt_list answer first others) in
                        if files_err errs then finish (emit NoFilesInSnapshot w)
                        else match snapshot_contents snapshotId db with
                             | [] => finish (emit NoFilesInSnapshot w)
                             | rows =>
                                 let selectedFiles := prompt_checkbox checked rows in
                                 if negb (Nat.ltb 0 (List.length selectedFiles))
                                 then finish (emit SelectAtLeastOne w)
                                 else if Nat.eqb (List.length selectedFiles) 0
                                 then finish (emit NoFilesSelected w)
                                 else finish (emit SelectiveCompleted
                                                (restore_each selectedFiles w))
                             end
                    end
           end
  end.

End Revert.

(** ** commands/diff.js *)

Module Diff.

(** [s.endsWith(suffix)] *)
Definition endsWith (suffix s : string) : bool :=
  let n := String.length s in
  let m := String.length suffix in
  Nat.leb m n && String.eqb (String.substring (n - m) m s) suffix.

Record compared := {
  c_path : string;
  content1 : string;
  content2 : string
}.

(** The answers to the two filter prompts; '' is no filter. *)
Record filter_options := {
  fileType : string;
  directory : string
}.

(** [filterFiles]; the filter is always an object here. *)
Definition filterFiles (rows : list compared) (filter : filter_options) : list compared :=
  List.filter
    (fun file =>
       let matchesType :=
         if String.eqb (fileType filter) "" then true
         else endsWith (fileType filter) (c_path file) in
       let matchesDir :=
         if String.eqb (directory filter) "" then true
         else startsWith (directory filter) (c_path file) in
       matchesType && matchesDir)
    rows.

(** [SELECT sf.snapshot_id, f.path, sf.content FROM snapshot_files sf
     INNER JOIN files f ON sf.file_id = f.id WHERE sf.snapshot_id IN (?, ?)] *)
Definition select_both (snapshot1 snapshot2 : Z) (db : Db)
  : list (Z * string * option string) :=
  flat_map
    (fun sf => List.map (fun f => (sf_snapshot_id sf, f_path f, sf_content sf))
                 (List.filter (fun f => Z.eqb (f_id f) (sf_file_id sf)) (files db)))
    (List.filter (fun sf => Z.eqb (sf_snapshot_id sf) snapshot1
                            || Z.eqb (sf_snapshot_id sf) snapshot2)
       (snapshot_files db)).

(** The [reduce] that builds [filesBySnapshot]: an object per snapshot id,
    from path to [content || '']. *)
Definition group_step (acc : gmap Z (gmap string string))
    (file : Z * string * option string) : gmap Z (gmap string string) :=
  let '(snapshot_id, p, content) := file in
  <[snapshot_id := <[p := or_empty content]> (default ∅ (acc !! snapshot_id))]> acc.

Definition filesBySnapshot (rows : list (Z * string * option string))
  : gmap Z (gmap string string) :=
  fold_left group_step rows ∅.

(** [Object.keys({ ...files1, ...files2 }).map(...)]: one entry per key of
    either object; [files[path] || ''] for each side.  The order of the keys
    is not modelled. *)
Definition compare_all (files1 files2 : gmap string string) : list compared :=
  List.map (fun p => {| c_path := p;
                        content1 := default "" (files1 !! p);
                        content2 := default "" (files2 !! p) |})
    (elements (dom files2 ∪ dom files1)).

Definition display_each (rows : list compared) (w : World) : World :=
  fold_left (fun w file => emit (DiffTable (c_path file) (content1 file) (content2 file)) w)
    rows w.

(** The statements of [diffSnapshots]; an error rejects the promise and is
    caught at the end. *)
Record diff_errors := {
  project_err : bool;
  snapshots_err : bool;
  files_err : bool
}.

(** [diffSnapshots].  [checked] are the boxes of 'Select two snapshots to
    compare:'; while [validate] rejects the selection the prompt shows its
    message and does not return. *)
Definition diffSnapshots (errs : diff_errors) (checked : list bool)
    (filterOptions : filter_options) (pr : Project) : outcome :=
  match store pr with
  | None => not_initialized pr
  | Some db =>
      let w := start pr db in
      if project_err errs then finish (emit CaughtError w)
      else match select_project (name pr) db with
           | None => finish (emit ProjectError w)
           | Some project =>
               if snapshots_err errs then finish (emit CaughtError w)
               else
                 let snapshots := order_by_created_at (project_snapshots (p_id project) db) in
                 if Nat.ltb (List.length snapshots) 2 then finish (emit NotEnoughSnapshots w)
                 else match prompt_checkbox checked (List.map s_id snapshots) with
                      | [snapshot1; snapshot2] =>
                          if files_err errs then finish (emit CaughtError w)
                          else
                            let by_snapshot := filesBySnapshot (select_both snapshot1 snapshot2 db) in
                            let files1 := default ∅ (by_snapshot !! snapshot1) in
                            let files2 := default ∅ (by_snapshot !! snapshot2) in
                            let filteredFiles :=
                              filterFiles (compare_all files1 files2) filterOptions in
                            match filteredFiles with
                            | [] => finish (emit NoMatchingFiles w)
                            | _ => finish (display_each filteredFiles
                                             (emit (DiffHeader snapshot1 snapshot2) w))
                            end
                      | _ => finish (emit SelectExactlyTwo w)
                      end
           end
  end.

End Diff.

(** ** Notions used in the statements *)

(** The File rows of one path. *)
Definition rows_at (p : string) (db : Db) : list FileRow :=
  List.filter (fun r => String.eqb (f_path r) p) (files db).

(** The regular files the tracker reaches, in the order of the traversal:
    those with no matching rule on the way from the root, themselves
    included.  [ignores] is the test of one path text. *)
Fixpoint node_tracked (ignores : string -> option bool) (at_ : path) (n : node)
  : list (path * string) :=
  match ignores (path_text at_) with
  | Some false =>
      match n with
      | File bytes => [(at_, bytes)]
      | Dir es => entries_tracked ignores at_ es
      | Other => []
      end
  | _ => []
  end
with entries_tracked (ignores : string -> option bool) (dir : path) (es : entries)
  : list (path * string) :=
  match es with
  | ENil => []
  | ECons name n rest =>
      node_tracked ignores (dir ++ [name]) n ++ entries_tracked ignores dir rest
  end.

(** The rule has a "*". *)
Fixpoint has_star (pattern : string) : bool :=
  match pattern with
  | EmptyString => false
  | String c rest => Ascii.eqb c "*" || has_star rest
  end.

(** Some rule matches the text. *)
Definition matches_rule (test : string -> string -> option bool)
    (rules : list string) (text : string) : bool :=
  existsb (fun pattern => match test (ignore_source pattern) text with
                          | Some true => true
                          | _ => false
                          end) rules.

(** The paths from the root down to [p]: its prefixes that are not empty. *)
Fixpoint prefixes (p : path) : list path :=
  match p with
  | [] => []
  | s :: rest => [s] :: List.map (cons s) (prefixes rest)
  end.

(** A path is excluded when a rule matches it or a directory above it. *)
Definition excluded (test : string -> string -> option bool)
    (rules : list string) (p : path) : bool :=
  existsb (fun above => matches_rule test rules (path_text above)) (prefixes p).

(** [p] lies below [dir] and no rule matches on the way down from [dir] to
    [p], [p] included. *)
Definition reached (ignores : string -> option bool) (dir p : path) : Prop :=
  exists s, p = dir ++ s /\ s <> [] /\
            forall s1 s2, s = s1 ++ s2 -> s1 <> [] ->
                          ignores (path_text (dir ++ s1)) = Some false.



(** The snapshot the answer to the 'list' prompt of revert.js selects. *)
Definition chosen_snapshot (answer : nat) (pr : Project) (db : Db) : option Z :=
  match select_project (name pr) db with
  | Some project =>
      match order_by_created_at (project_snapshots (p_id project) db) with
      | first :: others => Some (s_id (prompt_list answer first others))
      | [] => None
      end
  | None => None
  end.

(** The snapshots offered by the 'checkbox' prompt of diff.js, and the ids
    that are checked. *)
Definition offered_snapshots (pr : Project) (db : Db) : list SnapshotRow :=
  match select_project (name pr) db with
  | Some project => order_by_created_at (project_snapshots (p_id project) db)
  | None => []
  end.

Definition checked_ids (checked : list bool) (pr : Project) (db : Db) : list Z :=
  prompt_checkbox checked (List.map s_id (offered_snapshots pr db)).

(** The path-to-content object [diffSnapshots] builds for one of the two
    snapshots it compares. *)
Definition content_map (snapshot1 snapshot2 side : Z) (db : Db) : gmap string string :=
  default ∅ (Diff.filesBySnapshot (Diff.select_both snapshot1 snapshot2 db) !! side).

(** The statements the traversal issues, over the files it reaches. *)
Definition track_step (sha256_hex : string -> string) (pid now : Z) (db : Db)
    (f : path * string) : Db :=
  Snapshot.upsert_file (path_text (fst f)) (sha256_hex (snd f)) pid now db.

Definition track_all (sha256_hex : string -> string) (pid now : Z)
    (fs : list (path * string)) (db : Db) : Db :=
  fold_left (track_step sha256_hex pid now) fs db.

(** The content [capture_files] stores for a File row. *)
Definition captured (d : node) (f : FileRow) : option string :=
  Some (default "" (readFileSync (join_cwd (f_path f)) d)).

(** The events of a run of [trackFiles]. *)
Definition tracker_event (e : event) : bool :=
  match e with
  | NotInitialized | ProjectError | NoProject | Ignored _ | Readdir _ | ReadFile _
  | TrackingCompleted => true
  | _ => false
  end.

(** The events of [restoreFile] and of the loops over it. *)
Definition restore_event (e : event) : bool :=
  match e with
  | Mkdir _ | WriteFile _ _ | Restored _ | RestoreFailed _ => true
  | _ => false
  end.

(** The rows [diffSnapshots] shows for the snapshots a and b, and the table
    of one row. *)
Definition diff_rows (a b : Z) (filter : Diff.filter_options) (db : Db)
  : list Diff.compared :=
  Diff.filterFiles (Diff.compare_all (content_map a b a db) (content_map a b b db)) filter.

Definition diff_table (c : Diff.compared) : event :=
  DiffTable (Diff.c_path c) (Diff.content1 c) (Diff.content2 c).

(** The path of a call on [fs] that reads. *)
Definition read_path (e : event) : option path :=
  match e with
  | Readdir p | ReadFile p => Some p
  | _ => None
  end.

(** The files a command writes, in order. *)
Fixpoint writes (log : list event) : list (path * string) :=
  match log with
  | [] => []
  | WriteFile p content :: rest => (p, content) :: writes rest
  | _ :: rest => writes rest
  end.

Combined Scheme node_entries_ind from node_mut, entries_mut.

(** ** A reference engine, and the project of the scenarios *)

Module Scenario.

(** The characters [new RegExp] gives a meaning to. *)
Definition is_meta (c : ascii) : bool :=
  existsb (Ascii.eqb c)
    ["\"; "^"; "$"; "."; "*"; "+"; "?"; "("; ")"; "["; "]"; "{"; "}"; "|"]%char.

(** "." matches one character that is not a line terminator. *)
Definition dot (c : ascii) : bool :=
  negb (Ascii.eqb c "010" || Ascii.eqb c "013").

Inductive atom :=
| Lit (c : ascii)
| AnyChar
| AnyStar.

(** The body of an expression: ordinary characters, "." and ".*". *)
Fixpoint parse_body (body : string) : option (list atom) :=
  match body with
  | EmptyString => Some []
  | String c rest =>
      if Ascii.eqb c "." then
        match rest with
        | String d rest' =>
            if Ascii.eqb d "*" then option_map (cons AnyStar) (parse_body rest')
            else option_map (cons AnyChar) (parse_body rest)
        | EmptyString => Some [AnyChar]
        end
      else if is_meta c then None
      else option_map (cons (Lit c)) (parse_body rest)
  end.

Fixpoint match_atoms (atoms : list atom) : string -> bool :=
  match atoms with
  | [] => fun s => String.eqb s ""
  | Lit c :: rest =>
      fun s => match s with
               | String d s' => Ascii.eqb c d && match_atoms rest s'
               | EmptyString => false
               end
  | AnyChar :: rest =>
      fun s => match s with
               | String d s' => dot d && match_atoms rest s'
               | EmptyString => false
               end
  | AnyStar :: rest =>
      fix star (s : string) : bool :=
        match_atoms rest s
        || match s with
           | String d s' => dot d && star s'
           | EmptyString => false
           end
  end.

(** The text between "^" and "$". *)
Fixpoint before_dollar (s : string) : option string :=
  match s with
  | EmptyString => None
  | String c rest =>
      match rest with
      | EmptyString => if Ascii.eqb c "$" then Some EmptyString else None
      | _ => option_map (String c) (before_dollar rest)
      end
  end.

(** [new RegExp(source).test(s)] for the expressions the tracker builds from
    rules of ordinary characters, "." and "*".  [None] for every other
    source: the scenarios use none. *)
Definition RegExp_test (source s : string) : option bool :=
  match source with
  | String c rest =>
      if Ascii.eqb c "^" then
        match before_dollar rest with
        | Some body => option_map (fun atoms => match_atoms atoms s) (parse_body body)
        | None => None
        end
      else None
  | EmptyString => None
  end.

(** The atoms of a rule made of "*" and of characters without a meaning of
    their own in an expression. *)
Fixpoint atoms_of (rule : string) : list atom :=
  match rule with
  | EmptyString => []
  | String c rest => (if Ascii.eqb c "*" then AnyStar else Lit c) :: atoms_of rest
  end.

Fixpoint plain (rule : string) : bool :=
  match rule with
  | EmptyString => true
  | String c rest => (Ascii.eqb c "*" || negb (is_meta c)) && plain rest
  end.

Fixpoint one_line (text : string) : bool :=
  match text with
  | EmptyString => true
  | String c rest => dot c && one_line rest
  end.

(** Written from the words of the specification, to compare with the
    engine: the rule against the full path, "*" standing for zero or more
    characters, every other character for itself. *)
Inductive glob_matches : string -> string -> Prop :=
| glob_end : glob_matches "" ""
| glob_char (c : ascii) (rule text : string) :
    c <> "*"%char -> glob_matches rule text ->
    glob_matches (String c rule) (String c text)
| glob_star (rule gap text : string) :
    glob_matches rule text -> glob_matches (String "*" rule) (gap ++ text).

(** A stand-in for the digest. *)
Definition digest (bytes : string) : string := "sha256:" ++ bytes.

Definition newline : string := String "010" EmptyString.

(** The rules [initProject] writes, followed by "build". *)
Definition svcignore : string :=
  "node_modules/" ++ newline ++ ".git/" ++ newline ++ "*.log" ++ newline
  ++ "*.tmp" ++ newline ++ "*.db" ++ newline ++ "build".

Definition tree : node :=
  Dir (ECons ".svcignore" (File svcignore)
      (ECons "a.txt" (File "1")
      (ECons "debug.log" (File "trace")
      (ECons "build" (Dir (ECons "out.js" (File "o") ENil))
      (ECons "node_modules" (Dir (ECons "dep.js" (File "d") ENil))
      (ECons "src" (Dir (ECons "b.txt" (File "2") ENil))
       ENil)))))).

Definition empty_db : Db :=
  {| projects := [{| p_id := 1; p_name := "demo"; p_secret_key := None |}];
     files := []; snapshots := []; snapshot_files := [];
     seq_files := 0; seq_snapshots := 0; seq_snapshot_files := 0 |}.

(** A store that already knows a.txt, with an older digest. *)
Definition known_db : Db :=
  {| projects := [{| p_id := 1; p_name := "demo"; p_secret_key := None |}];
     files := [{| f_id := 1; f_project_id := 1; f_path := "a.txt";
                  f_hash := digest "0"; f_modified_at := 5 |}];
     snapshots := []; snapshot_files := [];
     seq_files := 1; seq_snapshots := 0; seq_snapshot_files := 0 |}.

Definition project (db : Db) : Project :=
  {| name := "demo"; disk := tree; store := Some db |}.

Definition rules : list string :=
  ["node_modules/"; ".git/"; "*.log"; "*.tmp"; "*.db"; "build"].

(** [trackFiles] at time 10 on the store that knows a.txt. *)
Definition tracked : outcome :=
  Eval vm_compute in Snapshot.trackFiles digest RegExp_test false 10 (project known_db).

(** The same tree after a.txt was edited. *)
Definition tree_edited : node :=
  match tree with
  | Dir es => Dir (entry_set "a.txt" (File "3") es)
  | other => other
  end.

Definition store_of (o : outcome) : Db :=
  match o with
  | Done _ (Some db) _ => db
  | _ => empty_db
  end.

Definition log_of (o : outcome) : list event :=
  match o with
  | Done _ _ log => log
  | Thrown => []
  end.

Definition disk_of (o : outcome) : node :=
  match o with
  | Done d _ _ => d
  | Thrown => Other
  end.

Definition no_create_error : Snapshot.create_errors :=
  {| Snapshot.track_project_err := false; Snapshot.create_project_err := false;
     Snapshot.insert_snapshot_err := false; Snapshot.select_files_err := false |}.


(** S1 at time 10, then a.txt edited and S2 at time 20. *)
Definition after_S1 : outcome :=
  Eval vm_compute in
    Snapshot.createSnapshot digest RegExp_test no_create_error "S1" 10 (project known_db).


Definition edited (db : Db) : Project :=
  {| name := "demo"; disk := tree_edited; store := Some db |}.

Definition after_S2 : outcome :=
  Eval vm_compute in
    Snapshot.createSnapshot digest RegExp_test no_create_error "S2" 20
      (edited (store_of after_S1)).

Definition two_snapshots : Db := store_of after_S2.



(** A project that tracks no file, and its snapshot. *)
Definition bare : Project :=
  {| name := "demo"; disk := Dir ENil; store := Some empty_db |}.

Definition after_bare : outcome :=
  Eval vm_compute in
    Snapshot.createSnapshot digest RegExp_test no_create_error "empty" 10 bare.

Definition bare_with_snapshot : Project :=
  {| name := "demo"; disk := Dir ENil; store := Some (store_of after_bare) |}.

Definition no_revert_error : Revert.revert_errors :=
  {| Revert.project_err := false; Revert.snapshots_err := false;
     Revert.files_err := false |}.




(** Only a.txt of S1 selected, the first of its four rows. *)
Definition selective : outcome :=
  Eval vm_compute in
    Revert.selectiveRestore no_revert_error 0 [true; false; false; false]
      (edited two_snapshots).

(** The edited tree with a new file, c.txt, and S3 at time 30. *)
Definition tree_added : node :=
  match tree_edited with
  | Dir es => Dir (entry_set "c.txt" (File "new") es)
  | other => other
  end.

Definition added (db : Db) : Project :=
  {| name := "demo"; disk := tree_added; store := Some db |}.

Definition after_S3 : outcome :=
  Eval vm_compute in
    Snapshot.createSnapshot digest RegExp_test no_create_error "S3" 30
      (added two_snapshots).

Definition three_snapshots : Db := store_of after_S3.

Definition no_diff_error : Diff.diff_errors :=
  {| Diff.project_err := false; Diff.snapshots_err := false; Diff.files_err := false |}.

Definition no_filter : Diff.filter_options :=
  {| Diff.fileType := ""; Diff.directory := "" |}.

(** S1 against S2, and S2 against S3. *)
Definition diff_S1_S2 : outcome :=
  Eval vm_compute in
    Diff.diffSnapshots no_diff_error [true; true; false] no_filter (added three_snapshots).


(** Only S1 checked. *)
Definition diff_S1_alone : outcome :=
  Eval vm_compute in
    Diff.diffSnapshots no_diff_error [true; false; false] no_filter (added three_snapshots).

Definition no_delete_error : Snapshot.delete_errors :=
  {| Snapshot.project_err := false; Snapshot.snapshots_err := false;
     Snapshot.delete_files_err := false; Snapshot.delete_snapshot_err := false |}.


End Scenario.

(** * The rest of the code

    The editor of the ignore rules (utils/ignore.js), the monitor
    (utils/monitor.js), [initProject] and [getProjectId]
    (commands/snapshot.js, database/init.js), commands/history.js and
    commands/collaboration.js, with the same conventions.  Each of these
    modules has the messages it prints as a type of its own.
    [glob.hasMagic] and the validity of a pattern for [new RegExp] are
    parameters of the editor; the key [crypto.randomBytes] yields is an
    input of the commands that generate one.  The watcher of the monitor
    is the sequence of the calls it makes to [processFileChange]. *)

(** ** Strings *)

Definition LF : string := String "010" EmptyString.

Fixpoint has_char (c : ascii) (s : string) : bool :=
  match s with
  | EmptyString => false
  | String d rest => Ascii.eqb d c || has_char c rest
  end.

(** The first character is not white space. *)
Definition starts_clean (s : string) : bool :=
  match s with
  | EmptyString => true
  | String c _ => negb (is_space c)
  end.

(** ** utils/ignore.js: saving and editing the rules *)

Module Ignore.

Inductive message :=
| RulesSaved                          (* 'Changes saved to `.svcignore`.' *)
| SaveError                           (* 'Error saving ignore rules: ...' *)
| InvalidPattern (pattern : string)   (* 'Invalid pattern: "${pattern}"' *)
| RuleAdded (newRule : string)        (* 'Rule "${newRule}" added.' *)
| NoRulesToRemove                     (* 'No rules to remove.' *)
| RuleRemoved (rule : string)         (* 'Rule "${rules[ruleIndex]}" removed.' *)
| Previewed                           (* previewIgnoredFiles() *)
| ReturningToMenu.                    (* 'Returning to main menu...' *)

(** [saveIgnoreRules]: [rules.join('\n') + '\n'] written to [.svcignore]; an
    exception of [writeFileSync] is caught and reported. *)
Definition saveIgnoreRules (rules : list string) (d : node) : node * message :=
  match writeFileSync ignoreFilePath (String.concat LF rules ++ LF) d with
  | Some d' => (d', RulesSaved)
  | None => (d, SaveError)
  end.

(** The answers to 'What would you like to do?', with the answer to the
    prompt that follows. *)
Inductive action :=
| Add (newRule : string)
| Remove (answer : nat)
| Preview
| Back
| Save.

(** [rules.splice(ruleIndex, 1)] *)
Definition splice1 (ruleIndex : nat) (rules : list string) : list string :=
  firstn ruleIndex rules ++ skipn (S ruleIndex) rules.

Section Patterns.

(** [glob.hasMagic(pattern)], and whether [new RegExp(pattern)] returns. *)
Variable hasMagic : string -> bool.
Variable RegExp_valid : string -> bool.

(** [validatePattern] *)
Definition validatePattern (pattern : string) : bool :=
  if hasMagic pattern then true else RegExp_valid pattern.

(** The [while (!exit)] loop of [editIgnoreRules], over the answers given.
    The prompt of 'remove' returns the index of a rule.  With no answer left
    the menu is still waiting. *)
Fixpoint edit_loop (actions : list action) (rules : list string) (d : node)
    (log : list message) : node * list string * list message :=
  match actions with
  | [] => (d, rules, log)
  | Add newRule :: rest =>
      if validatePattern newRule
      then edit_loop rest (rules ++ [trim newRule]) d (log ++ [RuleAdded newRule])
      else edit_loop rest rules d (log ++ [InvalidPattern newRule])
  | Remove answer :: rest =>
      match rules with
      | [] => edit_loop rest rules d (log ++ [NoRulesToRemove])
      | _ :: others =>
          let ruleIndex := prompt_list answer 0%nat (List.seq 1 (List.length others)) in
          edit_loop rest (splice1 ruleIndex rules) d
            (log ++ [RuleRemoved (nth ruleIndex rules "")])
      end
  | Preview :: rest => edit_loop rest rules d (log ++ [Previewed])
  | Back :: _ => (d, rules, log ++ [ReturningToMenu])
  | Save :: _ =>
      let (d', m) := saveIgnoreRules rules d in (d', rules, log ++ [m])
  end.

(** [editIgnoreRules]; [None] when [loadIgnoreRules] throws. *)
Definition editIgnoreRules (actions : list action) (d : node)
  : option (node * list string * list message) :=
  match loadIgnoreRules d with
  | Some rules => Some (edit_loop actions rules d [])
  | None => None
  end.

End Patterns.

End Ignore.

(** A rule that [saveIgnoreRules] and [loadIgnoreRules] carry unchanged: not
    empty, trimmed, on one line. *)
Definition storable (rule : string) : bool :=
  negb (String.eqb rule "") && String.eqb (trim rule) rule
  && negb (has_char "010" rule).

(** A line that [loadIgnoreRules] skips as a comment. *)
Definition is_comment (line : string) : bool :=
  startsWith "#" line || startsWith "//" line.

(** The inputs of 'add' are what its prompt returns: one line, which the
    [validate] of the prompt has not refused as blank. *)
Fixpoint prompt_inputs (actions : list Ignore.action) : bool :=
  match actions with
  | [] => true
  | Ignore.Add newRule :: rest =>
      negb (String.eqb (trim newRule) "") && negb (has_char "010" newRule)
      && prompt_inputs rest
  | _ :: rest => prompt_inputs rest
  end.

(** ** utils/monitor.js *)

(** [fs.appendFileSync]: the file is created when it is missing; throws when
    the path is not a regular file or its parent is not a directory. *)
Definition appendFileSync (p : path) (data : string) (d : node) : option node :=
  if existsSync p d then
    match readFileSync p d with
    | Some bytes => writeFileSync p (bytes ++ data) d
    | None => None
    end
  else writeFileSync p data d.

Module Monitor.

(** [monitoredChanges] *)
Record Changes := {
  added : list string;
  modified : list string;
  deleted : list string
}.

Definition no_changes : Changes := {| added := []; modified := []; deleted := [] |}.

(** The event types of the watcher; [unknown] is any other string. *)
Inductive eventType := add | change | unlink | unknown.

(** [list.includes(x)] *)
Definition includes (x : string) (l : list string) : bool :=
  existsb (String.eqb x) l.

(** [if (!list.includes(relativePath)) list.push(relativePath)] *)
Definition push_new (relativePath : string) (l : list string) : list string :=
  if includes relativePath l then l else l ++ [relativePath].

(** [processFileChange], on [path.relative(baseDir, filePath)]. *)
Definition processFileChange (type : eventType) (relativePath : string)
    (m : Changes) : Changes :=
  match type with
  | add => {| added := push_new relativePath (added m);
              modified := modified m; deleted := deleted m |}
  | change => {| added := added m;
                 modified := push_new relativePath (modified m);
                 deleted := deleted m |}
  | unlink => {| added := added m; modified := modified m;
                 deleted := push_new relativePath (deleted m) |}
  | unknown => m
  end.

(** The calls of [processFileChange] the watcher makes, in their order. *)
Definition process_all (evs : list (eventType * string)) (m : Changes) : Changes :=
  fold_left (fun m ev => processFileChange (fst ev) (snd ev) m) evs m.

Inductive choice := track | ignore | skip.

Inductive message :=
| Tracking (file : string)        (* 'Tracking ${file}...' *)
| Ignoring (file : string)        (* 'Ignoring ${file}...' *)
| AddedToIgnore (file : string)   (* 'Added ${file} to .svcignore' *)
| Skipping (file : string).       (* 'Skipping ${file}.' *)

(** The prompt 'Detected ... What would you like to do?' *)
Definition prompt_action (answer : nat) : choice :=
  prompt_list answer track [ignore; skip].

(** [for (const file of monitoredChanges[type])]: [answers k] is the answer
    to the prompt number [k] of the session.  [None]: [appendFileSync]
    throws. *)
Fixpoint prompt_each (answers : nat -> nat) (k : nat) (files : list string)
    (d : node) (log : list message) : option (node * list message) :=
  match files with
  | [] => Some (d, log)
  | file :: rest =>
      match prompt_action (answers k) with
      | track => prompt_each answers (S k) rest d (log ++ [Tracking file])
      | ignore =>
          match appendFileSync ignoreFilePath (file ++ LF) d with
          | Some d' =>
              prompt_each answers (S k) rest d'
                (log ++ [Ignoring file; AddedToIgnore file])
          | None => None
          end
      | skip => prompt_each answers (S k) rest d (log ++ [Skipping file])
      end
  end.

(** [handleInteractivePrompts]: the three lists in turn, then cleared.  No
    event of the watcher arrives while the prompts are open. *)
Definition handleInteractivePrompts (answers : nat -> nat) (m : Changes) (d : node)
  : option (node * Changes * list message) :=
  match prompt_each answers 0 (added m) d [] with
  | None => None
  | Some (d1, log1) =>
      match prompt_each answers (List.length (added m)) (modified m) d1 log1 with
      | None => None
      | Some (d2, log2) =>
          match prompt_each answers (List.length (added m) + List.length (modified m))
                  (deleted m) d2 log2 with
          | None => None
          | Some (d3, log3) => Some (d3, no_changes, log3)
          end
      end
  end.

End Monitor.

(** The files answered 'Ignore Permanently', from prompt number [k] on. *)
Fixpoint ignored_from (answers : nat -> nat) (k : nat) (files : list string)
  : list string :=
  match files with
  | [] => []
  | file :: rest =>
      match Monitor.prompt_action (answers k) with
      | Monitor.ignore => file :: ignored_from answers (S k) rest
      | _ => ignored_from answers (S k) rest
      end
  end.

(** The files of a session, in the order of the prompts. *)
Definition prompted (m : Monitor.Changes) : list string :=
  Monitor.added m ++ Monitor.modified m ++ Monitor.deleted m.

(** The lines [handleInteractivePrompts] appends for these files. *)
Definition ignore_lines (files : list string) : string :=
  String.concat "" (List.map (fun file => (file ++ LF)%string) files).

(** The text is empty or its last character is a line feed. *)
Fixpoint ends_line (text : string) : bool :=
  match text with
  | EmptyString => true
  | String c EmptyString => Ascii.eqb c "010"
  | String _ rest => ends_line rest
  end.

(** ** commands/snapshot.js: initProject and getProjectId *)

Module Init.

Inductive message :=
| AlreadyInitialized      (* 'Project "..." is already initialized.' *)
| IgnoreFileCreated       (* '.svcignore file created with default ignore patterns.' *)
| InsertError             (* 'Error inserting project name: ...' *)
| Initialized.            (* 'Project "..." initialized successfully.' *)

Definition defaultRules : list string :=
  ["node_modules/"; ".git/"; "*.log"; "*.tmp"; "*.db"].

(** [initDatabase] on a file that does not exist yet: the four tables,
    empty (the CREATE TABLE statements succeed).  What it prints on the way
    is not collected. *)
Definition initDatabase : Db :=
  {| projects := []; files := []; snapshots := []; snapshot_files := [];
     seq_files := 0; seq_snapshots := 0; seq_snapshot_files := 0 |}.

(** [INSERT INTO projects (name) VALUES (?)] into the empty table. *)
Definition insert_project (name : string) (db : Db) : Db :=
  {| projects := projects db ++ [{| p_id := 1; p_name := name; p_secret_key := None |}];
     files := files db; snapshots := snapshots db;
     snapshot_files := snapshot_files db;
     seq_files := seq_files db; seq_snapshots := seq_snapshots db;
     seq_snapshot_files := seq_snapshot_files db |}.

(** [initProject].  [insert_err]: the INSERT fails.  The write of
    [.svcignore] is made before the callbacks of the database run; [None]
    when it throws. *)
Definition initProject (insert_err : bool) (pr : Project)
  : option (Project * list message) :=
  match store pr with
  | Some _ => Some (pr, [AlreadyInitialized])
  | None =>
      let written :=
        if existsSync ignoreFilePath (disk pr) then Some (disk pr, [])
        else match writeFileSync ignoreFilePath (String.concat LF defaultRules)
                     (disk pr) with
             | Some d => Some (d, [IgnoreFileCreated])
             | None => None
             end in
      match written with
      | None => None
      | Some (d, log) =>
          if insert_err
          then Some ({| name := name pr; disk := d; store := Some initDatabase |},
                     log ++ [InsertError])
          else Some ({| name := name pr; disk := d;
                        store := Some (insert_project (name pr) initDatabase) |},
                     log ++ [Initialized])
      end
  end.

(** What [getProjectId] settles with. *)
Inductive project_id :=
| NotInitialized          (* null, after 'Project not initialized. ...' *)
| Rejected                (* reject(err) *)
| Resolved (id : option Z).

(** [getProjectId].  [err]: the SELECT fails. *)
Definition getProjectId (err : bool) (pr : Project) : project_id :=
  match store pr with
  | None => NotInitialized
  | Some db =>
      if err then Rejected
      else Resolved (match select_project (name pr) db with
                     | Some project => Some (p_id project)
                     | None => None
                     end)
  end.

End Init.

(** ** commands/history.js *)

Module History.

Inductive message :=
| NotInitialized          (* 'Project not initialized. Run "svc init" first.' *)
| FindError               (* 'Error finding project "...". Ensure it is initialized.' *)
| NoSnapshotsFound        (* 'No snapshots found.' *)
| HistoryHeader (name : string)   (* 'Snapshot History for "...":' *)
| ListHeader                      (* 'Available Snapshots:' *)
| Entry (id : Z) (description : string) (created_at : Z).

Record errors := {
  project_err : bool;     (* SELECT id FROM projects *)
  snapshots_err : bool    (* SELECT ... FROM snapshots *)
}.

Definition entry (snap : SnapshotRow) : message :=
  Entry (s_id snap) (s_description snap) (s_created_at snap).

(** The body shared by [showHistory] and [listSnapshots], which differ in
    the header and in the layout of a line. *)
Definition show (header : message) (errs : errors) (pr : Project) : list message :=
  match store pr with
  | None => [NotInitialized]
  | Some db =>
      if project_err errs then [FindError]
      else match select_project (name pr) db with
           | None => [FindError]
           | Some project =>
               if snapshots_err errs then [NoSnapshotsFound]
               else match order_by_created_at (project_snapshots (p_id project) db) with
                    | [] => [NoSnapshotsFound]
                    | snapshots => header :: List.map entry snapshots
                    end
           end
  end.

Definition showHistory (errs : errors) (pr : Project) : list message :=
  show (HistoryHeader (name pr)) errs pr.

Definition listSnapshots (errs : errors) (pr : Project) : list message :=
  show ListHeader errs pr.

End History.

(** ** commands/collaboration.js *)

Module Collaboration.

Inductive result :=
| Resolved (key : string)
| Rejected.

Record errors := {
  column_err : bool;      (* ensureSecretKeyColumn rejects *)
  select_err : bool;      (* SELECT secret_key FROM projects *)
  update_err : bool       (* UPDATE projects SET secret_key *)
}.

(** [SELECT secret_key FROM projects WHERE id = ?] *)
Definition select_key (projectId : Z) (db : Db) : option ProjectRow :=
  List.find (fun p => Z.eqb (p_id p) projectId) (projects db).

(** [UPDATE projects SET secret_key = ? WHERE id = ?] *)
Definition update_key (newKey : string) (projectId : Z) (db : Db) : Db :=
  {| projects := List.map (fun p => if Z.eqb (p_id p) projectId
                                    then {| p_id := p_id p; p_name := p_name p;
                                            p_secret_key := Some newKey |}
                                    else p) (projects db);
     files := files db; snapshots := snapshots db;
     snapshot_files := snapshot_files db;
     seq_files := seq_files db; seq_snapshots := seq_snapshots db;
     seq_snapshot_files := seq_snapshot_files db |}.

(** [row && row.secret_key]: the key of the row when it is neither NULL nor
    the empty string. *)
Definition stored_key (row : option ProjectRow) : option string :=
  match row with
  | Some p => match p_secret_key p with
              | Some key => if String.eqb key "" then None else Some key
              | None => None
              end
  | None => None
  end.

(** [getSecretKey]; [newKey] is what [generateSecretKey()] returns, the 32
    hexadecimal digits of 16 random bytes. *)
Definition getSecretKey (errs : errors) (newKey : string) (projectId : Z) (db : Db)
  : Db * result :=
  if column_err errs then (db, Rejected)
  else if select_err errs then (db, Rejected)
  else match stored_key (select_key projectId db) with
       | Some key => (db, Resolved key)
       | None =>
           if update_err errs then (db, Rejected)
           else (update_key newKey projectId db, Resolved newKey)
       end.

(** [regenerateSecretKey] *)
Definition regenerateSecretKey (errs : errors) (newKey : string) (projectId : Z)
    (db : Db) : Db * result :=
  if column_err errs then (db, Rejected)
  else if update_err errs then (db, Rejected)
  else (update_key newKey projectId db, Resolved newKey).

End Collaboration.

(** The rules [loadIgnoreRules] reads in a text. *)
Definition rules_of (text : string) : list string :=
  List.filter (fun line => negb (String.eqb line "")
                           && negb (startsWith "#" line)
                           && negb (startsWith "//" line))
    (List.map trim (split_lines text)).

(** What the schema declares of the tables and the commands rely on: the
    UNIQUE paths, the AUTOINCREMENT ids below their counters, and the
    foreign keys of [snapshot_files], which SQLite does not enforce unless
    asked to. *)
Record intact (db : Db) : Prop := {
  paths_unique : List.NoDup (List.map f_path (files db));
  file_ids_unique : List.NoDup (List.map f_id (files db));
  file_ids_bound : forall f, In f (files db) -> f_id f <= seq_files db;
  snapshot_ids_unique : List.NoDup (List.map s_id (snapshots db));
  snapshot_ids_bound : forall s, In s (snapshots db) -> s_id s <= seq_snapshots db;
  snapshot_of_row : forall sf, In sf (snapshot_files db) ->
                               exists s, In s (snapshots db) /\ s_id s = sf_snapshot_id sf;
  file_of_row : forall sf, In sf (snapshot_files db) ->
                           exists f, In f (files db) /\ f_id f = sf_file_id sf
}.

(** What identifies a File row: the tracker changes the rest. *)
Definition file_key (f : FileRow) : Z * Z * string :=
  (f_id f, f_project_id f, f_path f).

(** The join of [snapshot_contents] for one SnapshotFile row, over the keys
    of the File rows. *)
Definition pick (fileId : Z) (content : option string) (keys : list (Z * Z * string))
  : list (string * option string) :=
  List.map (fun k => (snd k, content))
    (List.filter (fun k => Z.eqb (fst (fst k)) fileId) keys).

(** No row comes before a row that was created earlier. *)
Fixpoint by_time (rows : list SnapshotRow) : Prop :=
  match rows with
  | [] => True
  | s :: rest => (forall t, In t rest -> s_created_at s <= s_created_at t) /\ by_time rest
  end.

Definition no_history_error : History.errors :=
  {| History.project_err := false; History.snapshots_err := false |}.

(** The project as a command left it. *)
Definition project_after (pr : Project) (d : node) (db : Db) : Project :=
  {| name := name pr; disk := d; store := Some db |}.

(** [intact], as a test. *)
Fixpoint distinctb {A : Type} (eqb : A -> A -> bool) (l : list A) : bool :=
  match l with
  | [] => true
  | x :: rest => negb (existsb (eqb x) rest) && distinctb eqb rest
  end.

Definition intactb (db : Db) : bool :=
  distinctb String.eqb (List.map f_path (files db))
  && distinctb Z.eqb (List.map f_id (files db))
  && forallb (fun f => Z.leb (f_id f) (seq_files db)) (files db)
  && distinctb Z.eqb (List.map s_id (snapshots db))
  && forallb (fun s => Z.leb (s_id s) (seq_snapshots db)) (snapshots db)
  && forallb (fun sf => existsb (fun s => Z.eqb (s_id s) (sf_snapshot_id sf)) (snapshots db)
                        && existsb (fun f => Z.eqb (f_id f) (sf_file_id sf)) (files db))
       (snapshot_files db).

(** ** The sessions of the scenarios *)

Module Session.

(** A [.svcignore] with a comment, a rule with blanks around it, a blank
    line and a rule. *)
Definition text : string :=
  "# build" ++ LF ++ "  dist " ++ LF ++ LF ++ "*.log" ++ LF.

Definition tree : node :=
  Dir (ECons ".svcignore" (File text) (ECons "a.txt" (File "1") ENil)).

(** Stand-ins for [glob.hasMagic] and for [new RegExp(pattern)]. *)
Definition hasMagic (pattern : string) : bool := has_star pattern.

Definition RegExp_valid (pattern : string) : bool := negb (has_char "(" pattern).

Definition result_disk (o : option (node * list string * list Ignore.message)) : node :=
  match o with
  | Some (d, _, _) => d
  | None => Other
  end.

Definition result_rules (o : option (node * list string * list Ignore.message))
  : list string :=
  match o with
  | Some (_, rules, _) => rules
  | None => []
  end.

Definition result_log (o : option (node * list string * list Ignore.message))
  : list Ignore.message :=
  match o with
  | Some (_, _, log) => log
  | None => []
  end.

(** A rule added, the first rule removed, and the editor left by 'Back',
    or by 'Save'. *)
Definition edit_back : option (node * list string * list Ignore.message) :=
  Eval vm_compute in
    Ignore.editIgnoreRules hasMagic RegExp_valid
      [Ignore.Add " out "; Ignore.Remove 0; Ignore.Back] tree.

Definition edit_save : option (node * list string * list Ignore.message) :=
  Eval vm_compute in
    Ignore.editIgnoreRules hasMagic RegExp_valid
      [Ignore.Add " out "; Ignore.Remove 0; Ignore.Save] tree.

(** Three rules saved in an empty directory, one of them read back as a
    comment. *)
Definition three_rules : list string := ["dist"; "#x"; "*.log"].

Definition saved : node :=
  Eval vm_compute in fst (Ignore.saveIgnoreRules three_rules (Dir ENil)).

(** The events of a session of the monitor, and the answers to its
    prompts: 'ignore' for new.txt, 'skip' for a.txt, 'ignore' for old.txt. *)
Definition events : list (Monitor.eventType * string) :=
  [(Monitor.add, "new.txt"); (Monitor.change, "a.txt"); (Monitor.add, "new.txt");
   (Monitor.unlink, "old.txt")].

Definition changes : Monitor.Changes :=
  Eval vm_compute in Monitor.process_all events Monitor.no_changes.

Definition answers (k : nat) : nat :=
  match k with
  | 1%nat => 2%nat
  | _ => 1%nat
  end.

Definition handled_disk (o : option (node * Monitor.Changes * list Monitor.message))
  : node :=
  match o with
  | Some (d, _, _) => d
  | None => Other
  end.

Definition handled_log (o : option (node * Monitor.Changes * list Monitor.message))
  : list Monitor.message :=
  match o with
  | Some (_, _, log) => log
  | None => []
  end.

Definition handled : option (node * Monitor.Changes * list Monitor.message) :=
  Eval vm_compute in Monitor.handleInteractivePrompts answers changes tree.

(** A directory that was never initialized, [initProject] there, and the
    same session of the monitor afterwards. *)
Definition fresh : Project :=
  {| name := "demo"; disk := Dir (ECons "a.txt" (File "1") ENil); store := None |}.

Definition init_project (o : option (Project * list Init.message)) : Project :=
  match o with
  | Some (pr, _) => pr
  | None => fresh
  end.

Definition init_log (o : option (Project * list Init.message)) : list Init.message :=
  match o with
  | Some (_, log) => log
  | None => []
  end.

Definition inited : option (Project * list Init.message) :=
  Eval vm_compute in Init.initProject false fresh.

Definition handled_after_init
  : option (node * Monitor.Changes * list Monitor.message) :=
  Eval vm_compute in
    Monitor.handleInteractivePrompts answers changes (disk (init_project inited)).

(** [trackFiles] again, at time 20, after the run of [Scenario.tracked]. *)
Definition retracked : outcome :=
  Eval vm_compute in
    Snapshot.trackFiles Scenario.digest Scenario.RegExp_test false 20
      {| name := "demo"; disk := Scenario.tree;
         store := Some (Scenario.store_of Scenario.tracked) |}.

(** S1 deleted through commands/delete.js. *)
Definition deleted : outcome :=
  Eval vm_compute in
    Delete.deleteSnapshot Scenario.no_delete_error 0 true
      (Scenario.edited Scenario.two_snapshots).

(** S1 against S2 for the ".txt" files below "src". *)
Definition txt_below_src : Diff.filter_options :=
  {| Diff.fileType := ".txt"; Diff.directory := "src" |}.

Definition diff_filtered : outcome :=
  Eval vm_compute in
    Diff.diffSnapshots Scenario.no_diff_error [true; true; false] txt_below_src
      (Scenario.added Scenario.three_snapshots).

(** A project of one file, its snapshot, and a revert when a directory
    stands where the file was. *)
Definition one_file : Project :=
  {| name := "demo"; disk := Dir (ECons "a.txt" (File "1") ENil);
     store := Some Scenario.empty_db |}.

Definition one_snapshot : outcome :=
  Eval vm_compute in
    Snapshot.createSnapshot Scenario.digest Scenario.RegExp_test
      Scenario.no_create_error "one" 10 one_file.

Definition one_blocked : Project :=
  {| name := "demo"; disk := Dir (ECons "a.txt" (Dir ENil) ENil);
     store := Some (Scenario.store_of one_snapshot) |}.

Definition reverted_one_blocked : outcome :=
  Eval vm_compute in Revert.revertToSnapshot Scenario.no_revert_error 0 one_blocked.

(** Keys as [generateSecretKey] returns them. *)
Definition key1 : string := "00112233445566778899aabbccddeeff".
Definition key2 : string := "ffeeddccbbaa99887766554433221100".

Definition no_key_error : Collaboration.errors :=
  {| Collaboration.column_err := false; Collaboration.select_err := false;
     Collaboration.update_err := false |}.

Definition with_key : Db :=
  Eval vm_compute in fst (Collaboration.getSecretKey no_key_error key1 1 Scenario.empty_db).

Definition with_new_key : Db :=
  Eval vm_compute in fst (Collaboration.regenerateSecretKey no_key_error key2 1 with_key).




End Session.

(** * Properties *)

(** ** The store under the tracker's statements *)


Lemma rows_at_update_other (t p hash : string) (now : Z) (db : Db) :
  t <> p -> rows_at t (update_file hash p now db) = rows_at t db.
Proof.
  intros Hne. unfold rows_at, update_file. simpl.
  induction (files db) as [|r rows IH]; simpl; [reflexivity|].
  destruct (String.eqb (f_path r) p) eqn:Ep; simpl.
  - apply String.eqb_eq in Ep.
    destruct (String.eqb (f_path r) t) eqn:Et.
    + apply String.eqb_eq in Et. congruence.
    + exact IH.
  - destruct (String.eqb (f_path r) t); [f_equal|]; exact IH.
Qed.

Lemma rows_at_insert_other (t p hash : string) (pid now : Z) (db : Db) :
  t <> p -> rows_at t (insert_file p hash pid now db) = rows_at t db.
Proof.
  intros Hne. unfold rows_at, insert_file. simpl.
  rewrite List.filter_app. simpl.
  destruct (String.eqb p t) eqn:E.
  - apply String.eqb_eq in E. congruence.
  - apply app_nil_r.
Qed.


Section Tracker.

Variable sha256_hex : string -> string.
Variable RegExp_test : string -> string -> option bool.

Local Abbreviation some_ignores := (Snapshot.some_ignores RegExp_test).
Local Abbreviation upsert_file := Snapshot.upsert_file.

Lemma upsert_other (t p hash : string) (pid now : Z) (db : Db) :
  t <> p -> rows_at t (upsert_file p hash pid now db) = rows_at t db.
Proof.
  intros Hne. unfold Snapshot.upsert_file.
  destruct (select_file p db).
  - now apply rows_at_update_other.
  - now apply rows_at_insert_other.
Qed.



Lemma track_all_other (pid now : Z) (fs : list (path * string)) (db : Db) (t : string) :
  ~ In t (List.map (fun f => path_text (fst f)) fs) ->
  rows_at t (track_all sha256_hex pid now fs db) = rows_at t db.
Proof.
  revert db. induction fs as [|f fs IH]; intros db Hnot; [reflexivity|].
  simpl in *. unfold track_all in *. simpl. rewrite IH by tauto.
  unfold track_step. apply upsert_other. intros Heq. apply Hnot. left. now symmetry.
Qed.



Lemma track_all_app (pid now : Z) (fs gs : list (path * string)) (db : Db) :
  track_all sha256_hex pid now (fs ++ gs) db = track_all sha256_hex pid now gs (track_all sha256_hex pid now fs db).
Proof. unfold track_all. apply fold_left_app. Qed.

Lemma track_all_tables (pid now : Z) (fs : list (path * string)) (db : Db) :
  projects (track_all sha256_hex pid now fs db) = projects db
  /\ snapshots (track_all sha256_hex pid now fs db) = snapshots db
  /\ snapshot_files (track_all sha256_hex pid now fs db) = snapshot_files db
  /\ seq_snapshots (track_all sha256_hex pid now fs db) = seq_snapshots db
  /\ seq_snapshot_files (track_all sha256_hex pid now fs db) = seq_snapshot_files db.
Proof.
  revert db. induction fs as [|f fs IH]; intros db; [repeat split|].
  unfold track_all in *. simpl.
  destruct (IH (track_step sha256_hex pid now db f)) as (H1 & H2 & H3 & H4 & H5).
  rewrite H1, H2, H3, H4, H5.
  unfold track_step, Snapshot.upsert_file.
  destruct (select_file _ db); repeat split.
Qed.

(** *** What the traversal reaches *)

Lemma reached_self (ignores : string -> option bool) (dir : path) (name : string) :
  ignores (path_text (dir ++ [name])) = Some false ->
  reached ignores dir (dir ++ [name]).
Proof.
  intros H. exists [name]. split; [reflexivity|]. split; [discriminate|].
  intros s1 s2 Heq Hne. destruct s1 as [|x s1]; [contradiction|].
  simpl in Heq. inversion Heq as [[Hx Hrest]].
  symmetry in Hrest. apply app_eq_nil in Hrest. destruct Hrest; subst. exact H.
Qed.

Lemma reached_step (ignores : string -> option bool) (dir : path) (name : string)
    (p : path) :
  ignores (path_text (dir ++ [name])) = Some false ->
  reached ignores (dir ++ [name]) p ->
  reached ignores dir p.
Proof.
  intros H (s & Hp & Hs & Hall). exists (name :: s).
  split; [rewrite Hp, <- app_assoc; reflexivity|]. split; [discriminate|].
  intros s1 s2 Heq Hne. destruct s1 as [|x s1]; [contradiction|].
  simpl in Heq. inversion Heq as [[Hx Hrest]]. subst x.
  destruct s1 as [|y s1]; [exact H|].
  replace (dir ++ name :: y :: s1) with ((dir ++ [name]) ++ (y :: s1))
    by (rewrite <- app_assoc; reflexivity).
  apply (Hall (y :: s1) s2); [exact Hrest|discriminate].
Qed.

Lemma node_files_below :
  (forall n at_ rel bytes, In (rel, bytes) (node_files at_ n) -> exists s, rel = at_ ++ s)
  /\ (forall es dir rel bytes, In (rel, bytes) (entries_files dir es) ->
                               exists s, rel = dir ++ s).
Proof.
  apply node_entries_ind; simpl.
  - intros bytes at_ rel b [H|[]]. inversion H; subst. exists []. now rewrite app_nil_r.
  - intros es IH at_ rel b H. eauto.
  - intros at_ rel b [].
  - intros dir rel b [].
  - intros name n IHn rest IHrest dir rel b H. apply in_app_or in H.
    destruct H as [H|H].
    + destruct (IHn _ _ _ H) as [s Hs]. exists (name :: s).
      rewrite Hs, <- app_assoc. reflexivity.
    + eauto.
Qed.

Lemma tracked_reached (ignores : string -> option bool) :
  (forall n dir name rel bytes,
      In (rel, bytes) (node_tracked ignores (dir ++ [name]) n) ->
      reached ignores dir rel)
  /\ (forall es dir rel bytes,
         In (rel, bytes) (entries_tracked ignores dir es) ->
         reached ignores dir rel).
Proof.
  apply node_entries_ind; simpl.
  - intros bytes dir name rel b H.
    destruct (ignores (path_text (dir ++ [name]))) as [[|]|] eqn:E; try contradiction.
    destruct H as [H|[]]. inversion H; subst. now apply reached_self.
  - intros es IH dir name rel b H.
    destruct (ignores (path_text (dir ++ [name]))) as [[|]|] eqn:E; try contradiction.
    apply reached_step with (name := name); eauto.
  - intros dir name rel b H.
    destruct (ignores (path_text (dir ++ [name]))) as [[|]|]; contradiction.
  - intros dir rel b [].
  - intros name n IHn rest IHrest dir rel b H. apply in_app_or in H.
    destruct H as [H|H]; eauto.
Qed.

Lemma tracked_sublist (ignores : string -> option bool) :
  (forall n at_, sublist (node_tracked ignores at_ n) (node_files at_ n))
  /\ (forall es dir, sublist (entries_tracked ignores dir es) (entries_files dir es)).
Proof.
  apply node_entries_ind; simpl.
  - intros bytes at_. destruct (ignores (path_text at_)) as [[|]|];
      [apply sublist_nil_l|reflexivity|apply sublist_nil_l].
  - intros es IH at_. destruct (ignores (path_text at_)) as [[|]|];
      [apply sublist_nil_l|apply IH|apply sublist_nil_l].
  - intros at_. destruct (ignores (path_text at_)) as [[|]|]; constructor.
  - intros dir. constructor.
  - intros name n IHn rest IHrest dir. apply sublist_app; auto.
Qed.


Lemma tracked_In_files (ignores : string -> option bool) (es : entries) (dir : path)
    (f : path * string) :
  In f (entries_tracked ignores dir es) -> In f (entries_files dir es).
Proof.
  intros H. apply list_elem_of_In. apply list_elem_of_In in H.
  eapply sublist_subseteq; [|exact H]. apply tracked_sublist.
Qed.

(** *** The traversal *)

Local Abbreviation visit_entry := (Snapshot.visit_entry sha256_hex RegExp_test).
Local Abbreviation each_entry := (Snapshot.each_entry sha256_hex RegExp_test).

(** The store after a traversal: the statements for the files reached. *)
Lemma traversal_store (rules : list string) (pid now : Z) :
  (forall n dir name w w',
      visit_entry rules dir name n pid now w = Some w' ->
      w_disk w' = w_disk w
      /\ w_db w' = track_all sha256_hex pid now
                     (node_tracked (some_ignores rules) (dir ++ [name]) n) (w_db w))
  /\ (forall es dir w w',
         each_entry rules dir es pid now w = Some w' ->
         w_disk w' = w_disk w
         /\ w_db w' = track_all sha256_hex pid now
                        (entries_tracked (some_ignores rules) dir es) (w_db w)).
Proof.
  apply node_entries_ind.
  - intros bytes dir name w w' H. simpl in *.
    destruct (some_ignores rules (path_text (dir ++ [name]))) as [[|]|];
      inversion H; subst; simpl; auto.
  - intros es IH dir name w w' H. simpl in *.
    destruct (some_ignores rules (path_text (dir ++ [name]))) as [[|]|];
      [inversion H; subst; simpl; auto| |discriminate].
    destruct (IH _ _ _ H) as [Hd Hdb]. auto.
  - intros dir name w w' H. simpl in *.
    destruct (some_ignores rules (path_text (dir ++ [name]))) as [[|]|];
      inversion H; subst; simpl; auto.
  - intros dir w w' H. simpl in H. inversion H; subst. auto.
  - intros name n IHn rest IHrest dir w w' H. simpl in H.
    destruct (visit_entry rules dir name n pid now w) as [w1|] eqn:E1; [|discriminate].
    destruct (IHn _ _ _ _ E1) as [Hd1 Hdb1].
    destruct (IHrest _ _ _ H) as [Hd2 Hdb2].
    split; [congruence|].
    simpl. rewrite track_all_app, <- Hdb1. exact Hdb2.
Qed.

(** The log after a traversal: every path read is one the traversal reached. *)
Lemma traversal_log (rules : list string) (pid now : Z) :
  (forall n dir name w w',
      visit_entry rules dir name n pid now w = Some w' ->
      exists evs, w_log w' = w_log w ++ evs
                  /\ forall e p, In e evs -> read_path e = Some p ->
                                 reached (some_ignores rules) dir p)
  /\ (forall es dir w w',
         each_entry rules dir es pid now w = Some w' ->
         exists evs, w_log w' = w_log w ++ evs
                     /\ forall e p, In e evs -> read_path e = Some p ->
                                    reached (some_ignores rules) dir p).
Proof.
  apply node_entries_ind.
  - intros bytes dir name w w' H. simpl in *.
    destruct (some_ignores rules (path_text (dir ++ [name]))) as [[|]|] eqn:E;
      inversion H; subst; simpl.
    + eexists. split; [reflexivity|]. intros e p [He|[]] Hp. subst e. discriminate.
    + eexists. split; [reflexivity|]. intros e p [He|[]] Hp. subst e.
      inversion Hp; subst. now apply reached_self.
  - intros es IH dir name w w' H. simpl in *.
    destruct (some_ignores rules (path_text (dir ++ [name]))) as [[|]|] eqn:E;
      [inversion H; subst; simpl| |discriminate].
    + eexists. split; [reflexivity|]. intros e p [He|[]] Hp. subst e. discriminate.
    + destruct (IH _ _ _ H) as (evs & Hlog & Hevs). simpl in Hlog.
      exists (Readdir (dir ++ [name]) :: evs). split.
      * rewrite Hlog, <- app_assoc. reflexivity.
      * intros e p [He|Hin] Hp.
        -- subst e. inversion Hp; subst. now apply reached_self.
        -- apply reached_step with (name := name); eauto.
  - intros dir name w w' H. simpl in *.
    destruct (some_ignores rules (path_text (dir ++ [name]))) as [[|]|] eqn:E;
      inversion H; subst; simpl.
    + eexists. split; [reflexivity|]. intros e p [He|[]] Hp. subst e. discriminate.
    + exists []. split; [now rewrite app_nil_r|]. intros e p [].
  - intros dir w w' H. simpl in H. inversion H; subst.
    exists []. split; [now rewrite app_nil_r|]. intros e p [].
  - intros name n IHn rest IHrest dir w w' H. simpl in H.
    destruct (visit_entry rules dir name n pid now w) as [w1|] eqn:E1; [|discriminate].
    destruct (IHn _ _ _ _ E1) as (evs1 & Hlog1 & Hevs1).
    destruct (IHrest _ _ _ H) as (evs2 & Hlog2 & Hevs2).
    exists (evs1 ++ evs2). split.
    + rewrite Hlog2, Hlog1, <- app_assoc. reflexivity.
    + intros e p Hin Hp. apply in_app_or in Hin. destruct Hin; eauto.
Qed.

(** A traversal that returns has reached every file that no rule excludes. *)
Lemma traversal_complete (rules : list string) (pid now : Z) :
  (forall n dir name w w',
      visit_entry rules dir name n pid now w = Some w' ->
      forall rel bytes,
        In (rel, bytes) (node_files (dir ++ [name]) n) ->
        (forall above below, rel = above ++ below -> above <> [] ->
                             some_ignores rules (path_text above) <> Some true) ->
        In (rel, bytes) (node_tracked (some_ignores rules) (dir ++ [name]) n))
  /\ (forall es dir w w',
         each_entry rules dir es pid now w = Some w' ->
         forall rel bytes,
           In (rel, bytes) (entries_files dir es) ->
           (forall above below, rel = above ++ below -> above <> [] ->
                                some_ignores rules (path_text above) <> Some true) ->
           In (rel, bytes) (entries_tracked (some_ignores rules) dir es)).
Proof.
  apply node_entries_ind.
  - intros bytes dir name w w' H rel b Hin Hfree. simpl in *.
    destruct Hin as [Hin|[]]. inversion Hin; subst.
    destruct (some_ignores rules (path_text (dir ++ [name]))) as [[|]|] eqn:E;
      [|now left|discriminate].
    exfalso. apply (Hfree (dir ++ [name]) []); [now rewrite app_nil_r| |exact E].
    intros Hnil. apply app_eq_nil in Hnil. destruct Hnil; discriminate.
  - intros es IH dir name w w' H rel b Hin Hfree. simpl in *.
    destruct (proj2 node_files_below _ _ _ _ Hin) as [s Hs].
    destruct (some_ignores rules (path_text (dir ++ [name]))) as [[|]|] eqn:E;
      [|eauto|discriminate].
    exfalso. apply (Hfree (dir ++ [name]) s); [exact Hs| |exact E].
    intros Hnil. apply app_eq_nil in Hnil. destruct Hnil; discriminate.
  - intros dir name w w' H rel b [].
  - intros dir w w' H rel b [].
  - intros name n IHn rest IHrest dir w w' H rel b Hin Hfree. simpl in H.
    destruct (visit_entry rules dir name n pid now w) as [w1|] eqn:E1; [|discriminate].
    simpl in *. apply in_app_or in Hin. apply in_or_app. destruct Hin; eauto.
Qed.

Lemma some_ignores_matches (rules : list string) (text : string) :
  some_ignores rules text = Some true -> matches_rule RegExp_test rules text = true.
Proof.
  unfold matches_rule.
  induction rules as [|pattern rules IH]; simpl; [discriminate|].
  destruct (RegExp_test (ignore_source pattern) text) as [[|]|] eqn:E; intros H.
  - reflexivity.
  - now apply IH.
  - discriminate.
Qed.

Lemma matches_not_free (rules : list string) (text : string) :
  matches_rule RegExp_test rules text = true -> some_ignores rules text <> Some false.
Proof.
  unfold matches_rule.
  induction rules as [|q rules IH]; simpl; [discriminate|].
  destruct (RegExp_test (ignore_source q) text) as [[|]|]; simpl;
    try discriminate; auto.
Qed.

Lemma prefixes_In (above below : path) :
  above <> [] -> In above (prefixes (above ++ below)).
Proof.
  revert below. induction above as [|s above IH]; intros below Hne; [contradiction|].
  simpl. destruct above as [|t above]; [now left|].
  right. apply in_map. apply IH. discriminate.
Qed.

(** A path with a matching rule on the way down is excluded. *)
Lemma excluded_above (rules : list string) (above below : path) :
  above <> [] ->
  matches_rule RegExp_test rules (path_text above) = true ->
  excluded RegExp_test rules (above ++ below) = true.
Proof.
  intros Hne Hm. unfold excluded. apply existsb_exists.
  exists above. split; [now apply prefixes_In|exact Hm].
Qed.

(** *** trackFiles *)

Local Abbreviation trackFiles := (Snapshot.trackFiles sha256_hex RegExp_test).

Lemma NoDup_map_eq {A B : Type} (f : A -> B) (l : list A) (x y : A) :
  List.NoDup (List.map f l) -> In x l -> In y l -> f x = f y -> x = y.
Proof.
  induction l as [|a l IH]; simpl; [contradiction|].
  intros Hnd Hx Hy Heq. inversion Hnd as [|? ? Hfresh Hnd']; subst.
  destruct Hx as [Hx|Hx], Hy as [Hy|Hy]; subst.
  - reflexivity.
  - exfalso. apply Hfresh. rewrite Heq. now apply in_map.
  - exfalso. apply Hfresh. rewrite <- Heq. now apply in_map.
  - now apply IH.
Qed.

(** What a run of [trackFiles] that ends with a store has done. *)
Lemma trackFiles_Done (project_err : bool) (now : Z) (pr : Project)
    (d' : node) (db' : Db) (log : list event) :
  trackFiles project_err now pr = Done d' (Some db') log ->
  exists db rules,
    store pr = Some db /\ loadIgnoreRules (disk pr) = Some rules /\ d' = disk pr
    /\ ((db' = db /\ ~ In TrackingCompleted log
         /\ forall e, In e log -> read_path e = None)
        \/ exists project es evs,
             select_project (name pr) db = Some project
             /\ disk pr = Dir es
             /\ db' = track_all sha256_hex (p_id project) now
                        (entries_tracked (some_ignores rules) [] es) db
             /\ log = Readdir [] :: evs ++ [TrackingCompleted]
             /\ (forall e p, In e evs -> read_path e = Some p ->
                             reached (some_ignores rules) [] p)
             /\ forall rel bytes,
                  In (rel, bytes) (entries_files [] es) ->
                  excluded RegExp_test rules rel = false ->
                  In (rel, bytes) (entries_tracked (some_ignores rules) [] es)).
Proof.
  unfold Snapshot.trackFiles, not_initialized. intros H.
  destruct (store pr) as [db|]; [|discriminate].
  destruct (loadIgnoreRules (disk pr)) as [rules|]; [|discriminate].
  exists db, rules. split; [reflexivity|]. split; [reflexivity|].
  destruct project_err.
  { inversion H; subst. split; [reflexivity|]. left. split; [reflexivity|].
    split; [intros [E|[]]; discriminate|intros e [E|[]]; subst; reflexivity]. }
  destruct (select_project (name pr) db) as [project|] eqn:Hp.
  2:{ inversion H; subst. split; [reflexivity|]. left. split; [reflexivity|].
      split; [intros [E|[]]; discriminate|intros e [E|[]]; subst; reflexivity]. }
  unfold Snapshot.traverseDirectory in H. simpl in H.
  destruct (disk pr) as [bytes|es|] eqn:Hdisk; try discriminate.
  destruct (each_entry rules [] es (p_id project) now
              (emit (Readdir []) (start pr db))) as [w|] eqn:Hrun; [|discriminate].
  unfold finish in H. simpl in H. inversion H; subst. clear H.
  destruct (proj2 (traversal_store rules (p_id project) now) _ _ _ _ Hrun) as [Hd Hdb].
  destruct (proj2 (traversal_log rules (p_id project) now) _ _ _ _ Hrun)
    as (evs & Hlog & Hevs).
  simpl in Hd, Hdb, Hlog. split; [rewrite Hd, Hdisk; reflexivity|].
  right. exists project, es, evs. repeat split; try assumption.
  - rewrite Hlog. reflexivity.
  - intros rel bytes Hin Hfree.
    apply (proj2 (traversal_complete rules (p_id project) now) _ _ _ _ Hrun);
      [exact Hin|].
    intros above below Heq Hne Hm. apply some_ignores_matches in Hm.
    rewrite Heq, (excluded_above rules above below Hne Hm) in Hfree. discriminate.
Qed.


(** C4.  A path whose relative text matches a loaded ignore rule has the
    same File rows after [trackFiles] as before: none is created, none is
    updated. *)
Theorem ignored_path_untouched (project_err : bool) (now : Z) (pr : Project)
    (d' : node) (db db' : Db) (log : list event) (rules : list string)
    (text : string) :
  trackFiles project_err now pr = Done d' (Some db') log ->
  store pr = Some db ->
  loadIgnoreRules (disk pr) = Some rules ->
  matches_rule RegExp_test rules text = true ->
  rows_at text db' = rows_at text db.
Proof.
  intros Hrun Hstore Hrules Hm.
  destruct (trackFiles_Done _ _ _ _ _ _ Hrun) as (db0 & rules0 & Hs & Hr & Hd & Hcases).
  rewrite Hstore in Hs. rewrite Hrules in Hr.
  inversion Hs; inversion Hr; subst db0 rules0. clear Hs Hr.
  destruct Hcases as [(Heq & _)|(project & es & evs & Hp & Hdisk & Hdb & _)];
    [subst; reflexivity|].
  subst db'. apply track_all_other. intros Hin.
  apply in_map_iff in Hin. destruct Hin as ([q b] & Htext & Hin). simpl in Htext.
  apply (proj2 (tracked_reached (some_ignores rules))) in Hin.
  destruct Hin as (s & Hq & Hs & Hfree). simpl in Hq. subst s.
  apply (matches_not_free _ _ Hm). rewrite <- Htext.
  apply (Hfree q []); [now rewrite app_nil_r|exact Hs].
Qed.

(** *** The expression a rule becomes *)

Lemma replace_star_app (a b : string) :
  replace_star (a ++ b) = (replace_star a ++ replace_star b)%string.
Proof.
  induction a as [|c a IH]; simpl; [reflexivity|].
  destruct (Ascii.eqb c "*"); simpl; now rewrite IH.
Qed.

Lemma replace_star_plain (a : string) :
  has_star a = false -> replace_star a = a.
Proof.
  induction a as [|c a IH]; simpl; [reflexivity|].
  destruct (Ascii.eqb c "*"); simpl; [discriminate|].
  intros H. now rewrite IH.
Qed.

Lemma string_app_assoc (a b c : string) :
  ((a ++ b) ++ c = a ++ (b ++ c))%string.
Proof.
  induction a as [|x a IH]; [reflexivity|].
  change (String x ((a ++ b) ++ c) = String x (a ++ (b ++ c)))%string.
  now rewrite IH.
Qed.

(** C8.  The expression tested is the rule between "^" and "$", each "*"
    of the rule turned into ".*" and nothing else changed.  When the
    relative path of an entry matches a rule, [trackFiles] reads nothing at
    or below that entry (it does not list the directory, it hashes no file
    of the subtree) and the File rows of every file of the subtree, or of
    the file itself, are what they were. *)
Theorem ignored_directory_not_entered (project_err : bool) (now : Z) (pr : Project)
    (d' : node) (db db' : Db) (log : list event) (rules : list string)
    (dir : path) :
  trackFiles project_err now pr = Done d' (Some db') log ->
  store pr = Some db ->
  loadIgnoreRules (disk pr) = Some rules ->
  List.NoDup (List.map (fun f => path_text (fst f)) (node_files [] (disk pr))) ->
  dir <> [] ->
  matches_rule RegExp_test rules (path_text dir) = true ->
  (forall a b, ignore_source (a ++ "*" ++ b)
               = ("^" ++ replace_star a ++ ".*" ++ replace_star b ++ "$")%string)
  /\ (forall a, has_star a = false -> ignore_source a = ("^" ++ a ++ "$")%string)
  /\ (forall below, ~ In (Readdir (dir ++ below)) log
                    /\ ~ In (ReadFile (dir ++ below)) log)
  /\ (forall below bytes,
         In (dir ++ below, bytes) (node_files [] (disk pr)) ->
         rows_at (path_text (dir ++ below)) db'
         = rows_at (path_text (dir ++ below)) db).
Proof.
  intros Hrun Hstore Hrules Hnd Hdir Hm.
  split.
  { intros a b. unfold ignore_source. rewrite replace_star_app.
    rewrite string_app_assoc. reflexivity. }
  split.
  { intros a Ha. unfold ignore_source. now rewrite replace_star_plain. }
  destruct (trackFiles_Done _ _ _ _ _ _ Hrun) as (db0 & rules0 & Hs & Hr & Hd & Hcases).
  rewrite Hstore in Hs. rewrite Hrules in Hr.
  inversion Hs; inversion Hr; subst db0 rules0. clear Hs Hr.
  assert (Hclosed : forall below, ~ reached (some_ignores rules) [] (dir ++ below)).
  { intros below (s & Hq & Hs & Hfree). simpl in Hq. subst s.
    apply (matches_not_free _ _ Hm). apply (Hfree dir below); [reflexivity|exact Hdir]. }
  destruct Hcases as [(Heq & _ & Hlog)|(project & es & evs & Hp & Hdisk & Hdb & Hlog & Hevs & _)].
  { subst db'. split; [|reflexivity].
    intros below. split; intros Hin; apply Hlog in Hin; discriminate. }
  split.
  - assert (Hnone : forall e below, read_path e = Some (dir ++ below) -> ~ In e log).
    { intros e below He Hin. rewrite Hlog in Hin. destruct Hin as [Hin|Hin].
      - subst e. simpl in He. inversion He as [Hnil].
        symmetry in Hnil. apply app_eq_nil in Hnil. destruct Hnil. contradiction.
      - apply in_app_or in Hin. destruct Hin as [Hin|[Hin|[]]].
        + apply (Hclosed below). eapply Hevs; eauto.
        + subst e. discriminate. }
    intros below. split; apply (Hnone _ below); reflexivity.
  - intros below bytes Hin. subst db'. apply track_all_other. intros Hmap.
    apply in_map_iff in Hmap. destruct Hmap as ([q b] & Htext & Hq). simpl in Htext.
    rewrite Hdisk in Hnd, Hin. simpl in Hnd, Hin.
    assert (Heq : (q, b) = (dir ++ below, bytes)).
    { apply (NoDup_map_eq (fun f : path * string => path_text (fst f))
               (entries_files [] es)); try assumption.
      now apply tracked_In_files in Hq. }
    inversion Heq; subst q b.
    apply (Hclosed below).
    apply (proj2 (tracked_reached (some_ignores rules)) _ _ _ _ Hq).
Qed.

End Tracker.

(** ** The scenarios of the tracker *)

Ltac list_member := vm_compute; repeat (first [left; reflexivity | right]).

Lemma scenario_tracked :
  Snapshot.trackFiles Scenario.digest Scenario.RegExp_test false 10
    (Scenario.project Scenario.known_db)
  = Done Scenario.tree (Some (Scenario.store_of Scenario.tracked))
      (Scenario.log_of Scenario.tracked).
Proof. vm_compute. reflexivity. Defined.

Lemma scenario_distinct_paths :
  List.NoDup (List.map (fun f => path_text (fst f)) (node_files [] Scenario.tree)).
Proof.
  apply NoDup_ListNoDup. apply (bool_decide_unpack _). vm_compute. exact I.
Defined.


(** debug.log matches "*.log": no row for it before, none after. *)
Lemma ignored_path_untouched_witness :
  rows_at "debug.log" (Scenario.store_of Scenario.tracked)
  = rows_at "debug.log" Scenario.known_db.
Proof.
  apply (ignored_path_untouched Scenario.digest Scenario.RegExp_test false 10
           (Scenario.project Scenario.known_db) Scenario.tree Scenario.known_db
           (Scenario.store_of Scenario.tracked) (Scenario.log_of Scenario.tracked)
           Scenario.rules "debug.log").
  - exact scenario_tracked.
  - reflexivity.
  - vm_compute. reflexivity.
  - vm_compute. reflexivity.
Defined.

(** build matches the rule "build": nothing below it is read or recorded. *)
Lemma ignored_directory_not_entered_witness :
  (forall below, ~ In (Readdir (["build"]%string ++ below)) (Scenario.log_of Scenario.tracked)
                 /\ ~ In (ReadFile (["build"]%string ++ below)) (Scenario.log_of Scenario.tracked))
  /\ (forall below bytes,
         In (["build"]%string ++ below, bytes) (node_files [] Scenario.tree) ->
         rows_at (path_text (["build"]%string ++ below)) (Scenario.store_of Scenario.tracked)
         = rows_at (path_text (["build"]%string ++ below)) Scenario.known_db).
Proof.
  apply (ignored_directory_not_entered Scenario.digest Scenario.RegExp_test false 10
           (Scenario.project Scenario.known_db) Scenario.tree Scenario.known_db
           (Scenario.store_of Scenario.tracked) (Scenario.log_of Scenario.tracked)
           Scenario.rules ["build"]%string).
  - exact scenario_tracked.
  - reflexivity.
  - vm_compute. reflexivity.
  - exact scenario_distinct_paths.
  - discriminate.
  - vm_compute. reflexivity.
Defined.

(** The rule "node_modules/" that [initProject] writes matches neither the
    directory nor what is below it: the tracker records node_modules/dep.js. *)
Example trailing_slash_rule_matches_nothing :
  Scenario.RegExp_test (ignore_source "node_modules/") "node_modules" = Some false
  /\ Scenario.RegExp_test (ignore_source "node_modules/") "node_modules/dep.js" = Some false
  /\ rows_at "node_modules/dep.js" (Scenario.store_of Scenario.tracked)
     = [{| f_id := 3; f_project_id := 1; f_path := "node_modules/dep.js";
           f_hash := Scenario.digest "d"; f_modified_at := 10 |}].
Proof. vm_compute. repeat split. Qed.

(** "*.log" with debug.log on disk: no File row for debug.log after the run;
    a.txt, known before, keeps its id and has the new digest. *)
Example scenario_log_rule :
  rows_at "debug.log" (Scenario.store_of Scenario.tracked) = []
  /\ rows_at "a.txt" (Scenario.store_of Scenario.tracked)
     = [{| f_id := 1; f_project_id := 1; f_path := "a.txt";
           f_hash := Scenario.digest "1"; f_modified_at := 10 |}].
Proof. vm_compute. split; reflexivity. Qed.

(** ** deleteSnapshot *)





(** What the two DELETE statements leave, by the message of the run. *)
Lemma delete_cascade_spec (errs : Snapshot.delete_errors) (sid : Z) (pr : Project)
    (db : Db) :
  let w' := Snapshot.delete_cascade errs sid (start pr db) in
  w_disk w' = disk pr
  /\ ((w_log w' = [DeleteFilesError] /\ w_db w' = db)
      \/ (w_log w' = [DeleteSnapshotError]
          /\ w_db w' = delete_snapshot_files sid db)
      \/ (w_log w' = [SnapshotDeleted sid]
          /\ w_db w' = delete_snapshot_row sid (delete_snapshot_files sid db))).
Proof.
  unfold Snapshot.delete_cascade, start. simpl.
  destruct (Snapshot.delete_files_err errs); simpl; [auto|].
  destruct (Snapshot.delete_snapshot_err errs); simpl; auto.
Qed.

(** The runs of [deleteSnapshot] of commands/snapshot.js. *)
Lemma snapshot_delete_runs (errs : Snapshot.delete_errors) (answer : nat)
    (pr : Project) (d' : node) (db db' : Db) (log : list event) :
  Snapshot.deleteSnapshot errs answer pr = Done d' (Some db') log ->
  store pr = Some db ->
  (db' = db /\ forall e, In e log ->
                         e <> DeleteSnapshotError /\ forall sid, e <> SnapshotDeleted sid)
  \/ exists sid,
       (log = [DeleteSnapshotError] /\ db' = delete_snapshot_files sid db)
       \/ (log = [SnapshotDeleted sid]
           /\ db' = delete_snapshot_row sid (delete_snapshot_files sid db)).
Proof.
  unfold Snapshot.deleteSnapshot, not_initialized, finish. intros H Hs. rewrite Hs in H.
  destruct (Snapshot.project_err errs);
    [inversion H; subst; left; split; [reflexivity|];
     intros e [E|[]]; subst; split; [|intros sid]; discriminate|].
  destruct (select_project (name pr) db) as [project|];
    [|inversion H; subst; left; split; [reflexivity|];
      intros e [E|[]]; subst; split; [|intros sid]; discriminate].
  destruct (Snapshot.snapshots_err errs);
    [inversion H; subst; left; split; [reflexivity|];
     intros e [E|[]]; subst; split; [|intros sid]; discriminate|].
  destruct (project_snapshots (p_id project) db) as [|first others];
    [inversion H; subst; left; split; [reflexivity|];
     intros e [E|[]]; subst; split; [|intros sid]; discriminate|].
  set (sid := s_id (prompt_list answer first others)) in *.
  destruct (delete_cascade_spec errs sid pr db) as [_ Hc]. simpl in Hc.
  inversion H; subst. clear H.
  destruct Hc as [[Hl Hd]|[[Hl Hd]|[Hl Hd]]]; rewrite Hl, Hd.
  - left. split; [reflexivity|].
    intros e [E|[]]; subst; split; [|intros x]; discriminate.
  - right. exists sid. left. auto.
  - right. exists sid. right. auto.
Qed.

(** The runs of [deleteSnapshot] of commands/delete.js. *)
Lemma delete_delete_runs (errs : Snapshot.delete_errors) (answer : nat)
    (confirm : bool) (pr : Project) (d' : node) (db db' : Db) (log : list event) :
  Delete.deleteSnapshot errs answer confirm pr = Done d' (Some db') log ->
  store pr = Some db ->
  (db' = db /\ forall e, In e log ->
                         e <> DeleteSnapshotError /\ forall sid, e <> SnapshotDeleted sid)
  \/ exists sid,
       (log = [DeleteSnapshotError] /\ db' = delete_snapshot_files sid db)
       \/ (log = [SnapshotDeleted sid]
           /\ db' = delete_snapshot_row sid (delete_snapshot_files sid db)).
Proof.
  unfold Delete.deleteSnapshot, not_initialized, finish. intros H Hs. rewrite Hs in H.
  destruct (Snapshot.project_err errs);
    [inversion H; subst; left; split; [reflexivity|];
     intros e [E|[]]; subst; split; [|intros sid]; discriminate|].
  destruct (select_project (name pr) db) as [project|];
    [|inversion H; subst; left; split; [reflexivity|];
      intros e [E|[]]; subst; split; [|intros sid]; discriminate].
  destruct (Snapshot.snapshots_err errs);
    [inversion H; subst; left; split; [reflexivity|];
     intros e [E|[]]; subst; split; [|intros sid]; discriminate|].
  destruct (order_by_created_at (project_snapshots (p_id project) db)) as [|first others];
    [inversion H; subst; left; split; [reflexivity|];
     intros e [E|[]]; subst; split; [|intros sid]; discriminate|].
  set (sid := s_id (prompt_list answer first others)) in *.
  destruct confirm;
    [|inversion H; subst; left; split; [reflexivity|];
      intros e [E|[]]; subst; split; [|intros x]; discriminate].
  destruct (delete_cascade_spec errs sid pr db) as [_ Hc]. simpl in Hc.
  inversion H; subst. clear H.
  destruct Hc as [[Hl Hd]|[[Hl Hd]|[Hl Hd]]]; rewrite Hl, Hd.
  - left. split; [reflexivity|].
    intros e [E|[]]; subst; split; [|intros x]; discriminate.
  - right. exists sid. left. auto.
  - right. exists sid. right. auto.
Qed.




(** Deleting S1 while S2 exists: the rows of S2 are what they were. *)
Example scenario_delete_S1 :
  files_of_snapshot 2
    (Scenario.store_of (Snapshot.deleteSnapshot Scenario.no_delete_error 0
                          (Scenario.edited Scenario.two_snapshots)))
  = files_of_snapshot 2 Scenario.two_snapshots
  /\ snapshot_contents 2
       (Scenario.store_of (Snapshot.deleteSnapshot Scenario.no_delete_error 0
                             (Scenario.edited Scenario.two_snapshots)))
     = [("a.txt", Some "3"); (".svcignore", Some Scenario.svcignore);
        ("node_modules/dep.js", Some "d"); ("src/b.txt", Some "2")].
Proof. vm_compute. split; reflexivity. Qed.

(** ** createSnapshot *)

Lemma capture_files_spec (sid : Z) (rows : list FileRow) (w w' : World) :
  Snapshot.capture_files sid rows w = Some w' ->
  w_disk w' = w_disk w
  /\ projects (w_db w') = projects (w_db w)
  /\ files (w_db w') = files (w_db w)
  /\ snapshots (w_db w') = snapshots (w_db w)
  /\ (exists evs, w_log w' = w_log w ++ evs
                   /\ forall e, In e evs -> exists p, e = ReadFile p)
  /\ exists added,
       snapshot_files (w_db w') = snapshot_files (w_db w) ++ added
       /\ List.map sf_file_id added = List.map f_id rows
       /\ List.map sf_content added = List.map (captured (w_disk w)) rows
       /\ forall sf, In sf added -> sf_snapshot_id sf = sid.
Proof.
  revert w. induction rows as [|f rows IH]; intros w H; simpl in H.
  - inversion H; subst. repeat split; auto.
    + exists []. rewrite app_nil_r. split; [reflexivity|intros e []].
    + exists []. rewrite app_nil_r. repeat split. intros sf [].
  - unfold existsSync, readFileSync in H.
    assert (Hstep : exists content,
               captured (w_disk w) f = Some content
               /\ exists evs1,
                    (forall e, In e evs1 -> exists p, e = ReadFile p)
                    /\ Snapshot.capture_files sid rows
                         {| w_disk := w_disk w;
                            w_db := insert_snapshot_file sid (f_id f) content (w_db w);
                            w_log := w_log w ++ evs1 |} = Some w').
    { unfold captured, readFileSync.
      destruct (lookup_node (join_cwd (f_path f)) (w_disk w)) as [[bytes|es|]|];
        try discriminate.
      - exists bytes. split; [reflexivity|].
        exists [ReadFile (join_cwd (f_path f))]. split; [|exact H].
        intros e [He|[]]. eauto.
      - exists "". split; [reflexivity|]. exists []. split; [intros e []|].
        rewrite app_nil_r. destruct w. exact H. }
    destruct Hstep as (content & Hc & evs1 & Hevs1 & Hrest).
    destruct (IH _ Hrest)
      as (Hd & Hp & Hf & Hsn & (evs & Hlog & Hevs) & added & Hadd & Hids & Hcs & Hsid).
    simpl in *. repeat split; auto.
    + exists (evs1 ++ evs). rewrite Hlog, <- app_assoc. split; [reflexivity|].
      intros e He. apply in_app_or in He. destruct He; auto.
    + exists ({| sf_id := seq_snapshot_files (w_db w) + 1; sf_snapshot_id := sid;
                 sf_file_id := f_id f; sf_content := Some content |} :: added).
      rewrite Hadd, <- app_assoc. simpl. repeat split.
      * now rewrite Hids.
      * now rewrite Hcs, Hc.
      * intros sf [Hsf|Hsf]; [subst sf; reflexivity|auto].
Qed.

Section TrackerEvents.

Variable sha256_hex : string -> string.
Variable RegExp_test : string -> string -> option bool.

Lemma traversal_events (rules : list string) (pid now : Z) :
  (forall n dir name w w',
      Snapshot.visit_entry sha256_hex RegExp_test rules dir name n pid now w = Some w' ->
      forallb tracker_event (w_log w) = true -> forallb tracker_event (w_log w') = true)
  /\ (forall es dir w w',
         Snapshot.each_entry sha256_hex RegExp_test rules dir es pid now w = Some w' ->
         forallb tracker_event (w_log w) = true -> forallb tracker_event (w_log w') = true).
Proof.
  apply node_entries_ind.
  - intros bytes dir name w w' H Hlog. simpl in *.
    destruct (Snapshot.some_ignores RegExp_test rules (path_text (dir ++ [name]))) as [[|]|];
      inversion H; subst; simpl; rewrite forallb_app, Hlog; reflexivity.
  - intros es IH dir name w w' H Hlog. simpl in *.
    destruct (Snapshot.some_ignores RegExp_test rules (path_text (dir ++ [name]))) as [[|]|];
      [inversion H; subst; simpl; rewrite forallb_app, Hlog; reflexivity| |discriminate].
    apply (IH _ _ _ H). simpl. rewrite forallb_app, Hlog. reflexivity.
  - intros dir name w w' H Hlog. simpl in *.
    destruct (Snapshot.some_ignores RegExp_test rules (path_text (dir ++ [name]))) as [[|]|];
      inversion H; subst; simpl; [rewrite forallb_app, Hlog; reflexivity|exact Hlog].
  - intros dir w w' H Hlog. simpl in H. inversion H; subst. exact Hlog.
  - intros name n IHn rest IHrest dir w w' H Hlog. simpl in H.
    destruct (Snapshot.visit_entry sha256_hex RegExp_test rules dir name n pid now w)
      as [w1|] eqn:E1; [|discriminate].
    eauto.
Qed.

(** [trackFiles] leaves the snapshots alone, and says nothing about them. *)
Lemma trackFiles_frame (project_err : bool) (now : Z) (pr : Project)
    (d1 : node) (db db1 : Db) (log1 : list event) :
  Snapshot.trackFiles sha256_hex RegExp_test project_err now pr = Done d1 (Some db1) log1 ->
  store pr = Some db ->
  d1 = disk pr
  /\ projects db1 = projects db
  /\ snapshots db1 = snapshots db
  /\ snapshot_files db1 = snapshot_files db
  /\ seq_snapshots db1 = seq_snapshots db
  /\ forallb tracker_event log1 = true.
Proof.
  intros Hrun Hs.
  destruct (trackFiles_Done _ _ _ _ _ _ _ _ Hrun) as (db0 & rules & Hs0 & _ & Hd & Hcases).
  rewrite Hs in Hs0. inversion Hs0; subst db0. clear Hs0.
  split; [exact Hd|].
  assert (Hlog : forallb tracker_event log1 = true).
  { revert Hrun. unfold Snapshot.trackFiles, not_initialized, finish. rewrite Hs.
    destruct (loadIgnoreRules (disk pr)) as [rs|]; [|discriminate].
    destruct project_err; [intros H; inversion H; reflexivity|].
    destruct (select_project (name pr) db) as [project|];
      [|intros H; inversion H; reflexivity].
    unfold Snapshot.traverseDirectory. simpl.
    destruct (disk pr) as [bytes|es|]; try discriminate.
    destruct (Snapshot.each_entry sha256_hex RegExp_test rs [] es (p_id project) now
                (emit (Readdir []) (start pr db))) as [w|] eqn:E; [|discriminate].
    intros H. inversion H; subst. rewrite forallb_app. simpl.
    rewrite (proj2 (traversal_events rs (p_id project) now) _ _ _ _ E); reflexivity. }
  destruct Hcases as [(Heq & _)|(project & es & evs & _ & _ & Hdb & _)].
  - subst db1. auto 10.
  - subst db1.
    destruct (track_all_tables sha256_hex (p_id project) now
                (entries_tracked (Snapshot.some_ignores RegExp_test rules) [] es) db)
      as (H1 & H2 & H3 & H4 & H5).
    auto 10.
Qed.

End TrackerEvents.

Lemma tracker_event_In (log : list event) (e : event) :
  forallb tracker_event log = true -> In e log -> tracker_event e = true.
Proof. intros H Hin. rewrite forallb_forall in H. auto. Qed.

Section Create.

Variable sha256_hex : string -> string.
Variable RegExp_test : string -> string -> option bool.



End Create.



(** The scenario of the specification: S1 captures a.txt = "1" and
    src/b.txt = "2"; after the edit, S2 captures a.txt = "3". *)
Example scenario_two_snapshots :
  snapshot_contents 1 Scenario.two_snapshots
  = [("a.txt", Some "1"); (".svcignore", Some Scenario.svcignore);
     ("node_modules/dep.js", Some "d"); ("src/b.txt", Some "2")]
  /\ snapshot_contents 2 Scenario.two_snapshots
     = [("a.txt", Some "3"); (".svcignore", Some Scenario.svcignore);
        ("node_modules/dep.js", Some "d"); ("src/b.txt", Some "2")].
Proof. vm_compute. split; reflexivity. Qed.

(** ** The disk under [restoreFile] *)

Lemma entry_get_set_eq (s : string) (n : node) (es : entries) :
  entry_get s (entry_set s n es) = Some n.
Proof.
  induction es as [|nm m rest IH]; simpl.
  - now rewrite String.eqb_refl.
  - destruct (String.eqb nm s) eqn:E; simpl; rewrite E; [reflexivity|exact IH].
Qed.

Lemma entry_get_set_ne (s t : string) (n : node) (es : entries) :
  s <> t -> entry_get t (entry_set s n es) = entry_get t es.
Proof.
  intros Hne. induction es as [|nm m rest IH]; simpl.
  - apply String.eqb_neq in Hne. now rewrite Hne.
  - destruct (String.eqb nm s) eqn:E; simpl.
    + apply String.eqb_eq in E. subst nm.
      apply String.eqb_neq in Hne. now rewrite Hne.
    + destruct (String.eqb nm t); [reflexivity|exact IH].
Qed.

Lemma read_cons (s : string) (q : path) (es : entries) :
  readFileSync (s :: q) (Dir es)
  = match entry_get s es with Some c => readFileSync q c | None => None end.
Proof. unfold readFileSync. simpl. destruct (entry_get s es); reflexivity. Qed.

Lemma read_empty_dir (q : path) : readFileSync q (Dir ENil) = None.
Proof. destruct q; reflexivity. Qed.


(** Making directories changes the content of no file. *)
Lemma mkdir_reads (p : path) :
  forall d d' q, mkdirSync_recursive p d = Some d' -> readFileSync q d' = readFileSync q d.
Proof.
  induction p as [|s rest IH]; intros d d' q H.
  - destruct d; simpl in H; inversion H; reflexivity.
  - destruct d as [bytes|es|]; simpl in H; try discriminate.
    destruct (mkdirSync_recursive rest
                match entry_get s es with Some c => c | None => Dir ENil end)
      as [c'|] eqn:E; [|discriminate].
    inversion H; subst d'. clear H.
    destruct q as [|t q]; [reflexivity|].
    rewrite !read_cons.
    destruct (String.eqb s t) eqn:Est.
    + apply String.eqb_eq in Est. subst t. rewrite entry_get_set_eq.
      rewrite (IH _ _ q E). destruct (entry_get s es); [reflexivity|apply read_empty_dir].
    + apply String.eqb_neq in Est. now rewrite entry_get_set_ne.
Qed.



(** Writing a file gives it its content and changes no other file. *)
Lemma write_reads_self (p : path) :
  forall content d d', writeFileSync p content d = Some d' ->
                       readFileSync p d' = Some content.
Proof.
  induction p as [|s rest IH]; intros content d d' H; [discriminate|].
  destruct d as [bytes|es|]; try (destruct rest; discriminate).
  destruct rest as [|t rest].
  - simpl in H. destruct (entry_get s es) as [[b|es'|]|]; inversion H; subst;
      rewrite read_cons, entry_get_set_eq; reflexivity.
  - change (writeFileSync (s :: t :: rest) content (Dir es))
      with (match entry_get s es with
            | Some c => match writeFileSync (t :: rest) content c with
                        | Some c' => Some (Dir (entry_set s c' es))
                        | None => None
                        end
            | None => None
            end) in H.
    destruct (entry_get s es) as [c|]; [|discriminate].
    destruct (writeFileSync (t :: rest) content c) as [c'|] eqn:E; [|discriminate].
    inversion H; subst. rewrite read_cons, entry_get_set_eq. apply (IH _ _ _ E).
Qed.

Lemma write_reads_other (p : path) :
  forall content d d' q, writeFileSync p content d = Some d' -> q <> p ->
                         readFileSync q d' = readFileSync q d.
Proof.
  induction p as [|s rest IH]; intros content d d' q H Hq; [discriminate|].
  destruct d as [bytes|es|]; try (destruct rest; discriminate).
  destruct q as [|t q]; [destruct rest; simpl in H;
                         repeat match type of H with
                                | match ?x with _ => _ end = _ => destruct x
                                end; inversion H; reflexivity|].
  destruct rest as [|u rest].
  - simpl in H.
    destruct (entry_get s es) as [[b|es'|]|] eqn:Eg; inversion H; subst; clear H;
      rewrite !read_cons;
      (destruct (String.eqb s t) eqn:Est;
       [apply String.eqb_eq in Est; subst t; rewrite entry_get_set_eq, Eg;
        destruct q as [|x q]; [congruence|reflexivity]
       |apply String.eqb_neq in Est; now rewrite entry_get_set_ne]).
  - change (writeFileSync (s :: u :: rest) content (Dir es))
      with (match entry_get s es with
            | Some c => match writeFileSync (u :: rest) content c with
                        | Some c' => Some (Dir (entry_set s c' es))
                        | None => None
                        end
            | None => None
            end) in H.
    destruct (entry_get s es) as [c|] eqn:Eg; [|discriminate].
    destruct (writeFileSync (u :: rest) content c) as [c'|] eqn:E; [|discriminate].
    inversion H; subst. rewrite !read_cons.
    destruct (String.eqb s t) eqn:Est.
    + apply String.eqb_eq in Est. subst t. rewrite entry_get_set_eq, Eg.
      apply (IH _ _ _ _ E). congruence.
    + apply String.eqb_neq in Est. now rewrite entry_get_set_ne.
Qed.


(** ** restoreFile and the loop over the rows *)






(** ** revertToSnapshot and selectiveRestore *)

Lemma no_files_no_contents (sid : Z) (db : Db) :
  files_of_snapshot sid db = [] -> snapshot_contents sid db = [].
Proof.
  unfold files_of_snapshot, snapshot_contents. intros H. rewrite H. reflexivity.
Qed.

(** The runs of [revertToSnapshot] that select a snapshot. *)
Lemma revert_runs (errs : Revert.revert_errors) (answer : nat) (pr : Project)
    (db : Db) (sid : Z) :
  store pr = Some db ->
  chosen_snapshot answer pr db = Some sid ->
  Revert.revertToSnapshot errs answer pr
  = if Revert.project_err errs then Done (disk pr) (Some db) [ProjectError]
    else if Revert.snapshots_err errs then Done (disk pr) (Some db) [NoSnapshots]
    else if Revert.files_err errs then Done (disk pr) (Some db) [NoFilesInSnapshot]
    else match snapshot_contents sid db with
         | [] => Done (disk pr) (Some db) [NoFilesInSnapshot]
         | rows => finish (emit (Reverted sid) (Revert.restore_each rows (start pr db)))
         end.
Proof.
  unfold Revert.revertToSnapshot, chosen_snapshot, finish. intros Hs Hc. rewrite Hs.
  destruct (Revert.project_err errs); [reflexivity|].
  destruct (select_project (name pr) db) as [project|]; [|discriminate].
  destruct (Revert.snapshots_err errs); [reflexivity|].
  destruct (order_by_created_at (project_snapshots (p_id project) db))
    as [|first others]; [discriminate|].
  inversion Hc; subst sid.
  destruct (Revert.files_err errs); [reflexivity|].
  destruct (snapshot_contents (s_id (prompt_list answer first others)) db); reflexivity.
Qed.


(** C10.  On a snapshot that has no SnapshotFile row, [revertToSnapshot]
    ends without a call on the disk and without the message of a revert;
    when the lookups before it succeed, what it says is 'No files found in
    the selected snapshot.' *)
Theorem revert_empty_snapshot (errs : Revert.revert_errors) (answer : nat)
    (pr : Project) (db : Db) (sid : Z) :
  store pr = Some db ->
  chosen_snapshot answer pr db = Some sid ->
  files_of_snapshot sid db = [] ->
  exists log,
    Revert.revertToSnapshot errs answer pr = Done (disk pr) (Some db) log
    /\ writes log = []
    /\ (forall e, In e log -> restore_event e = false)
    /\ (forall x, ~ In (Reverted x) log)
    /\ (Revert.project_err errs = false -> Revert.snapshots_err errs = false ->
        log = [NoFilesInSnapshot]).
Proof.
  intros Hs Hc Hempty. rewrite (revert_runs errs answer pr db sid Hs Hc).
  rewrite (no_files_no_contents sid db Hempty).
  destruct (Revert.project_err errs);
    [eexists; split; [reflexivity|]; repeat split;
     [intros e [E|[]]; subst; reflexivity|intros x [E|[]]; discriminate|discriminate]|].
  destruct (Revert.snapshots_err errs);
    [eexists; split; [reflexivity|]; repeat split;
     [intros e [E|[]]; subst; reflexivity|intros x [E|[]]; discriminate|discriminate]|].
  destruct (Revert.files_err errs);
    eexists; (split; [reflexivity|]); repeat split;
      try (intros e [E|[]]; subst; reflexivity); intros x [E|[]]; discriminate.
Qed.

(** The runs of [selectiveRestore] that select a snapshot. *)
Lemma selective_runs (errs : Revert.revert_errors) (answer : nat) (checked : list bool)
    (pr : Project) (db : Db) (sid : Z) :
  store pr = Some db ->
  chosen_snapshot answer pr db = Some sid ->
  Revert.selectiveRestore errs answer checked pr
  = if Revert.project_err errs then Done (disk pr) (Some db) [ProjectError]
    else if Revert.snapshots_err errs then Done (disk pr) (Some db) [NoSnapshots]
    else if Revert.files_err errs then Done (disk pr) (Some db) [NoFilesInSnapshot]
    else match snapshot_contents sid db with
         | [] => Done (disk pr) (Some db) [NoFilesInSnapshot]
         | rows =>
             match prompt_checkbox checked rows with
             | [] => Done (disk pr) (Some db) [SelectAtLeastOne]
             | selected =>
                 finish (emit SelectiveCompleted
                           (Revert.restore_each selected (start pr db)))
             end
         end.
Proof.
  unfold Revert.selectiveRestore, chosen_snapshot, finish. intros Hs Hc. rewrite Hs.
  destruct (Revert.project_err errs); [reflexivity|].
  destruct (select_project (name pr) db) as [project|]; [|discriminate].
  destruct (Revert.snapshots_err errs); [reflexivity|].
  destruct (order_by_created_at (project_snapshots (p_id project) db))
    as [|first others]; [discriminate|].
  inversion Hc; subst sid.
  destruct (Revert.files_err errs); [reflexivity|].
  destruct (snapshot_contents (s_id (prompt_list answer first others)) db)
    as [|row rows]; [reflexivity|].
  destruct (prompt_checkbox checked (row :: rows)); reflexivity.
Qed.


(** ** The scenarios of revert.js *)




(** The snapshot of a project that tracks no file has no row to restore. *)
Lemma revert_empty_snapshot_witness :
  exists log,
    Revert.revertToSnapshot Scenario.no_revert_error 0 Scenario.bare_with_snapshot
    = Done (Dir ENil) (Some (Scenario.store_of Scenario.after_bare)) log
    /\ writes log = []
    /\ (forall e, In e log -> restore_event e = false)
    /\ (forall x, ~ In (Reverted x) log)
    /\ (Revert.project_err Scenario.no_revert_error = false ->
        Revert.snapshots_err Scenario.no_revert_error = false ->
        log = [NoFilesInSnapshot]).
Proof.
  apply (revert_empty_snapshot Scenario.no_revert_error 0 Scenario.bare_with_snapshot
           (Scenario.store_of Scenario.after_bare) 1).
  - reflexivity.
  - vm_compute. reflexivity.
  - vm_compute. reflexivity.
Defined.


(** Only a.txt selected: a.txt is written, nothing else. *)
Example scenario_selective :
  writes (Scenario.log_of Scenario.selective) = [(["a.txt"]%string, "1")]
  /\ readFileSync ["a.txt"]%string (Scenario.disk_of Scenario.selective) = Some "1"
  /\ readFileSync ["src"; "b.txt"]%string (Scenario.disk_of Scenario.selective) = Some "2"
  /\ In SelectiveCompleted (Scenario.log_of Scenario.selective).
Proof. vm_compute. repeat split. right. right. right. left. reflexivity. Qed.

(** ** diffSnapshots *)

Lemma insert_by_time_perm (s : SnapshotRow) (l : list SnapshotRow) :
  Permutation (insert_by_time s l) (s :: l).
Proof.
  induction l as [|t l IH]; simpl; [reflexivity|].
  destruct (Z.leb (s_created_at s) (s_created_at t)); [reflexivity|].
  rewrite IH. apply perm_swap.
Qed.

Lemma order_by_created_at_perm (l : list SnapshotRow) :
  Permutation (order_by_created_at l) l.
Proof.
  induction l as [|s l IH]; simpl; [reflexivity|].
  rewrite insert_by_time_perm. now constructor.
Qed.

Lemma NoDup_map_filter {A B : Type} (f : A -> B) (g : A -> bool) (l : list A) :
  List.NoDup (List.map f l) -> List.NoDup (List.map f (List.filter g l)).
Proof.
  induction l as [|a l IH]; simpl; [auto|].
  intros H. inversion H as [|? ? Hfresh Hrest]; subst.
  destruct (g a); simpl; [|auto].
  constructor; [|auto].
  intros Hin. apply Hfresh. apply in_map_iff in Hin. destruct Hin as (x & Hx & Hin).
  apply filter_In in Hin. apply in_map_iff. exists x. tauto.
Qed.

Lemma prompt_checkbox_sublist {A : Type} (checked : list bool) (choices : list A) :
  sublist (prompt_checkbox checked choices) choices.
Proof.
  revert checked. induction choices as [|x xs IH]; intros [|[|] cs]; simpl;
    try apply sublist_nil_l.
  - apply sublist_skip, IH.
  - apply sublist_cons, IH.
Qed.

(** The ids offered are those of the snapshots of the project, each once when
    ids are unique in the table. *)
Lemma offered_ids (pr : Project) (db : Db) (a : Z) :
  In a (List.map s_id (offered_snapshots pr db)) ->
  exists project sa,
    select_project (name pr) db = Some project
    /\ In sa (snapshots db) /\ s_id sa = a /\ s_project_id sa = p_id project.
Proof.
  unfold offered_snapshots. destruct (select_project (name pr) db) as [project|];
    [|contradiction].
  intros Hin. apply in_map_iff in Hin. destruct Hin as (sa & Hid & Hin).
  apply (Permutation_in _ (order_by_created_at_perm _)) in Hin.
  unfold project_snapshots in Hin. apply filter_In in Hin. destruct Hin as [Hin Hp].
  apply Z.eqb_eq in Hp. exists project, sa. auto.
Qed.

Lemma offered_ids_NoDup (pr : Project) (db : Db) :
  List.NoDup (List.map s_id (snapshots db)) ->
  List.NoDup (List.map s_id (offered_snapshots pr db)).
Proof.
  intros H. unfold offered_snapshots.
  destruct (select_project (name pr) db) as [project|]; [|constructor].
  apply (Permutation_NoDup
           (l := List.map s_id (project_snapshots (p_id project) db))).
  - apply Permutation_map. symmetry. apply order_by_created_at_perm.
  - now apply NoDup_map_filter.
Qed.

Lemma checked_ids_NoDup (checked : list bool) (pr : Project) (db : Db) :
  List.NoDup (List.map s_id (snapshots db)) -> List.NoDup (checked_ids checked pr db).
Proof.
  intros H. apply offered_ids_NoDup with (pr := pr) in H.
  apply NoDup_ListNoDup. apply NoDup_ListNoDup in H.
  eapply sublist_NoDup; [exact H|]. apply prompt_checkbox_sublist.
Qed.

Lemma checked_ids_offered (checked : list bool) (pr : Project) (db : Db) (a : Z) :
  In a (checked_ids checked pr db) -> In a (List.map s_id (offered_snapshots pr db)).
Proof.
  intros H. apply list_elem_of_In. apply list_elem_of_In in H.
  eapply sublist_subseteq; [|exact H]. apply prompt_checkbox_sublist.
Qed.








Lemma display_each_log (rows : list Diff.compared) (w : World) :
  w_log (Diff.display_each rows w)
  = w_log w ++ List.map (fun c => DiffTable (Diff.c_path c) (Diff.content1 c)
                                    (Diff.content2 c)) rows.
Proof.
  revert w. induction rows as [|c rows IH]; intros w; simpl.
  - now rewrite app_nil_r.
  - unfold Diff.display_each in *. simpl. rewrite IH. simpl. now rewrite <- app_assoc.
Qed.

Lemma display_each_state (rows : list Diff.compared) (w : World) :
  w_disk (Diff.display_each rows w) = w_disk w /\ w_db (Diff.display_each rows w) = w_db w.
Proof.
  revert w. induction rows as [|c rows IH]; intros w; simpl; [auto|].
  unfold Diff.display_each in *. simpl. destruct (IH (emit (DiffTable (Diff.c_path c)
    (Diff.content1 c) (Diff.content2 c)) w)) as [H1 H2]. auto.
Qed.



(** The runs of [diffSnapshots]. *)
Lemma diff_runs (errs : Diff.diff_errors) (checked : list bool)
    (filter : Diff.filter_options) (pr : Project) (db : Db) :
  store pr = Some db ->
  Diff.diffSnapshots errs checked filter pr
  = Done (disk pr) (Some db)
      (if Diff.project_err errs then [CaughtError]
       else match select_project (name pr) db with
            | None => [ProjectError]
            | Some _ =>
                if Diff.snapshots_err errs then [CaughtError]
                else if Nat.ltb (List.length (offered_snapshots pr db)) 2
                then [NotEnoughSnapshots]
                else match checked_ids checked pr db with
                     | [a; b] =>
                         if Diff.files_err errs then [CaughtError]
                         else match diff_rows a b filter db with
                              | [] => [NoMatchingFiles]
                              | rows => DiffHeader a b :: List.map diff_table rows
                              end
                     | _ => [SelectExactlyTwo]
                     end
            end).
Proof.
  intros Hs. unfold Diff.diffSnapshots, checked_ids, offered_snapshots, finish. rewrite Hs.
  destruct (Diff.project_err errs); [reflexivity|].
  destruct (select_project (name pr) db) as [project|]; [|reflexivity].
  destruct (Diff.snapshots_err errs); [reflexivity|].
  destruct (Nat.ltb _ 2); [reflexivity|].
  destruct (prompt_checkbox checked _) as [|a [|b [|c ids]]]; try reflexivity.
  destruct (Diff.files_err errs); [reflexivity|].
  fold (content_map a b a db). fold (content_map a b b db).
  fold (diff_rows a b filter db).
  destruct (diff_rows a b filter db) as [|row rows]; [reflexivity|].
  destruct (display_each_state (row :: rows) (emit (DiffHeader a b) (start pr db)))
    as [Hd Hdb].
  rewrite Hd, Hdb, display_each_log. reflexivity.
Qed.

(** C6.  [diffSnapshots] shows a diff only for two snapshots that are
    checked in the prompt: two different ids (ids are unique in the table),
    both of snapshots of the current project.  A selection that holds no
    other id than a, for any a, shows no diff: when the prompt is reached it
    is rejected with 'Please select exactly two snapshots.' *)
Theorem diff_needs_two_snapshots (errs : Diff.diff_errors) (checked : list bool)
    (filter : Diff.filter_options) (pr : Project) (d' : node) (s' : option Db)
    (db : Db) (log : list event) :
  Diff.diffSnapshots errs checked filter pr = Done d' s' log ->
  store pr = Some db ->
  List.NoDup (List.map s_id (snapshots db)) ->
  (forall a b, In (DiffHeader a b) log ->
     a <> b
     /\ exists project sa sb,
          select_project (name pr) db = Some project
          /\ In sa (snapshots db) /\ s_id sa = a /\ s_project_id sa = p_id project
          /\ In sb (snapshots db) /\ s_id sb = b /\ s_project_id sb = p_id project)
  /\ (forall p c1 c2, In (DiffTable p c1 c2) log -> exists a b, In (DiffHeader a b) log)
  /\ (forall a, (forall x, In x (checked_ids checked pr db) -> x = a) ->
        (forall x y, ~ In (DiffHeader x y) log)
        /\ (forall p c1 c2, ~ In (DiffTable p c1 c2) log)
        /\ (Diff.project_err errs = false -> Diff.snapshots_err errs = false ->
            select_project (name pr) db <> None ->
            (2 <= List.length (offered_snapshots pr db))%nat ->
            log = [SelectExactlyTwo])).
Proof.
  intros Hrun Hs Hnd. rewrite (diff_runs errs checked filter pr db Hs) in Hrun.
  injection Hrun as _ _ Hlog.
  pose proof (checked_ids_NoDup checked pr db Hnd) as Hids.
  assert (Hsingle : forall e, (forall x y, e <> DiffHeader x y) ->
                              (forall p c1 c2, e <> DiffTable p c1 c2) ->
            (forall a b, In (DiffHeader a b) [e] ->
               a <> b
               /\ exists project sa sb,
                    select_project (name pr) db = Some project
                    /\ In sa (snapshots db) /\ s_id sa = a /\ s_project_id sa = p_id project
                    /\ In sb (snapshots db) /\ s_id sb = b /\ s_project_id sb = p_id project)
            /\ (forall p c1 c2, In (DiffTable p c1 c2) [e] ->
                  exists a b, In (DiffHeader a b) [e])
            /\ (forall x y, ~ In (DiffHeader x y) [e])
            /\ (forall p c1 c2, ~ In (DiffTable p c1 c2) [e])).
  { intros e H1 H2. split; [|split; [|split]].
    - intros a b [H|[]]. now apply H1 in H.
    - intros p c1 c2 [H|[]]. now apply H2 in H.
    - intros x y [H|[]]. now apply H1 in H.
    - intros p c1 c2 [H|[]]. now apply H2 in H. }
  assert (Hquiet : forall e, (forall x y, e <> DiffHeader x y) ->
                             (forall p c1 c2, e <> DiffTable p c1 c2) ->
                             log = [e] ->
                             (e = SelectExactlyTwo
                              \/ Diff.project_err errs = true
                              \/ Diff.snapshots_err errs = true
                              \/ select_project (name pr) db = None
                              \/ ~ (2 <= List.length (offered_snapshots pr db))%nat) ->
            (forall a b, In (DiffHeader a b) log ->
               a <> b
               /\ exists project sa sb,
                    select_project (name pr) db = Some project
                    /\ In sa (snapshots db) /\ s_id sa = a /\ s_project_id sa = p_id project
                    /\ In sb (snapshots db) /\ s_id sb = b /\ s_project_id sb = p_id project)
            /\ (forall p c1 c2, In (DiffTable p c1 c2) log ->
                  exists a b, In (DiffHeader a b) log)
            /\ (forall a, (forall x, In x (checked_ids checked pr db) -> x = a) ->
                  (forall x y, ~ In (DiffHeader x y) log)
                  /\ (forall p c1 c2, ~ In (DiffTable p c1 c2) log)
                  /\ (Diff.project_err errs = false -> Diff.snapshots_err errs = false ->
                      select_project (name pr) db <> None ->
                      (2 <= List.length (offered_snapshots pr db))%nat ->
                      log = [SelectExactlyTwo]))).
  { intros e H1 H2 Heq Hwhy. rewrite Heq.
    destruct (Hsingle e H1 H2) as (Ha & Hb & Hc & Hdd).
    split; [exact Ha|]. split; [exact Hb|].
    intros a _. split; [exact Hc|]. split; [exact Hdd|].
    intros E1 E2 E3 E4.
    destruct Hwhy as [->|[W|[W|[W|W]]]]; [reflexivity|congruence|congruence|congruence|].
    contradiction. }
  destruct (Diff.project_err errs) eqn:E1;
    [apply (Hquiet CaughtError); try discriminate; auto|].
  destruct (select_project (name pr) db) as [project|] eqn:Hp;
    [|apply (Hquiet ProjectError); try discriminate; auto 6].
  destruct (Diff.snapshots_err errs) eqn:E2;
    [apply (Hquiet CaughtError); try discriminate; auto|].
  destruct (Nat.ltb (List.length (offered_snapshots pr db)) 2) eqn:E3.
  { apply (Hquiet NotEnoughSnapshots); try discriminate; auto.
    apply Nat.ltb_lt in E3. right. right. right. right. lia. }
  destruct (checked_ids checked pr db) as [|a [|b [|c ids]]] eqn:Hsel;
    try (apply (Hquiet SelectExactlyTwo); try discriminate; auto; fail).
  assert (Hab : a <> b).
  { inversion Hids as [|? ? Hfresh _]; subst. intros ->. apply Hfresh. now left. }
  assert (Hpair : forall x, (forall y, In y [a; b] -> y = x) -> False).
  { intros x Hx. apply Hab. rewrite (Hx a), (Hx b); simpl; auto. }
  destruct (Diff.files_err errs).
  { rewrite <- Hlog. destruct (Hsingle CaughtError) as (Ha & Hb & Hc & Hdd);
      try discriminate.
    split; [exact Ha|]. split; [exact Hb|].
    intros x Hx. destruct (Hpair x Hx). }
  destruct (diff_rows a b filter db) as [|row rows] eqn:Hrows.
  { rewrite <- Hlog. destruct (Hsingle NoMatchingFiles) as (Ha & Hb & Hc & Hdd);
      try discriminate.
    split; [exact Ha|]. split; [exact Hb|].
    intros x Hx. destruct (Hpair x Hx). }
  rewrite <- Hlog. split; [|split].
  - intros x y [Hin|Hin].
    + inversion Hin; subst x y. split; [exact Hab|].
      assert (Ha : In a (checked_ids checked pr db)) by (rewrite Hsel; simpl; auto).
      assert (Hb : In b (checked_ids checked pr db)) by (rewrite Hsel; simpl; auto).
      apply checked_ids_offered, offered_ids in Ha.
      apply checked_ids_offered, offered_ids in Hb.
      destruct Ha as (pa & sa & Hpa & Hsa). destruct Hb as (pb & sb & Hpb & Hsb).
      rewrite Hp in Hpa, Hpb. inversion Hpa; inversion Hpb; subst pa pb.
      exists project, sa, sb. tauto.
    + destruct Hin as [Hin|Hin]; [discriminate|].
      apply in_map_iff in Hin. destruct Hin as (c & Hc & _). discriminate.
  - intros p c1 c2 _. exists a, b. now left.
  - intros x Hx. destruct (Hpair x Hx).
Qed.



(** ** The scenarios of diff.js *)

Lemma scenario_unique_ids :
  List.NoDup (List.map s_id (snapshots Scenario.three_snapshots)).
Proof.
  apply NoDup_ListNoDup. apply (bool_decide_unpack _). vm_compute. exact I.
Defined.

(** S1 against S2: two different snapshots of the project. *)
Lemma diff_needs_two_snapshots_witness :
  1 <> 2
  /\ exists project sa sb,
       select_project "demo" Scenario.three_snapshots = Some project
       /\ In sa (snapshots Scenario.three_snapshots) /\ s_id sa = 1
       /\ s_project_id sa = p_id project
       /\ In sb (snapshots Scenario.three_snapshots) /\ s_id sb = 2
       /\ s_project_id sb = p_id project.
Proof.
  apply (proj1 (diff_needs_two_snapshots Scenario.no_diff_error [true; true; false]
                  Scenario.no_filter (Scenario.added Scenario.three_snapshots)
                  Scenario.tree_added (Some Scenario.three_snapshots)
                  Scenario.three_snapshots (Scenario.log_of Scenario.diff_S1_S2)
                  ltac:(vm_compute; reflexivity) eq_refl scenario_unique_ids)).
  list_member.
Defined.


(** The scenario of the specification: between S1 and S2, a.txt goes from
    "1" to "3" and src/b.txt is "2" on both sides. *)
Example scenario_diff_S1_S2 :
  In (DiffHeader 1 2) (Scenario.log_of Scenario.diff_S1_S2)
  /\ In (DiffTable "a.txt" "1" "3") (Scenario.log_of Scenario.diff_S1_S2)
  /\ In (DiffTable "src/b.txt" "2" "2") (Scenario.log_of Scenario.diff_S1_S2).
Proof. split; [list_member|split; list_member]. Qed.

(** A single snapshot checked: rejected, nothing shown. *)
Example scenario_diff_alone :
  Scenario.log_of Scenario.diff_S1_alone = [SelectExactlyTwo].
Proof. reflexivity. Qed.

(** ** The reference engine and the words of the specification *)

Lemma before_dollar_app (body : string) :
  Scenario.before_dollar (body ++ "$") = Some body.
Proof.
  induction body as [|c body IH]; [reflexivity|].
  change (String c body ++ "$")%string with (String c (body ++ "$")).
  cbn [Scenario.before_dollar]. rewrite IH.
  destruct body; reflexivity.
Qed.

Lemma plain_not_dot (c : ascii) : Scenario.is_meta c = false -> Ascii.eqb c "." = false.
Proof.
  unfold Scenario.is_meta. cbn [existsb]. intros H.
  repeat (apply orb_false_elim in H; destruct H as [? H]). assumption.
Qed.

Lemma parse_plain (rule : string) :
  Scenario.plain rule = true ->
  Scenario.parse_body (replace_star rule) = Some (Scenario.atoms_of rule).
Proof.
  induction rule as [|c rule IH]; [reflexivity|].
  cbn [Scenario.plain replace_star Scenario.atoms_of]. intros H.
  apply andb_true_iff in H. destruct H as [Hc Hrest].
  destruct (Ascii.eqb c "*") eqn:Estar.
  - cbn [Scenario.parse_body]. change (Ascii.eqb "." ".") with true.
    change (Ascii.eqb "*" "*") with true. cbn iota. now rewrite (IH Hrest).
  - cbn [Scenario.parse_body]. simpl in Hc. apply negb_true_iff in Hc.
    rewrite (plain_not_dot c Hc), Hc. now rewrite (IH Hrest).
Qed.

Lemma match_star (rest : list Scenario.atom) (text : string) :
  Scenario.match_atoms (Scenario.AnyStar :: rest) text
  = Scenario.match_atoms rest text
    || match text with
       | String d text' => Scenario.dot d
                           && Scenario.match_atoms (Scenario.AnyStar :: rest) text'
       | EmptyString => false
       end.
Proof. destruct text; reflexivity. Qed.

Lemma glob_star_inv (rule text : string) :
  Scenario.glob_matches (String "*" rule) text ->
  exists gap rest, text = (gap ++ rest)%string /\ Scenario.glob_matches rule rest.
Proof.
  intros H. inversion H; subst; [congruence|eauto].
Qed.

Lemma one_line_app (gap rest : string) :
  Scenario.one_line (gap ++ rest) = true ->
  Scenario.one_line gap = true /\ Scenario.one_line rest = true.
Proof.
  induction gap as [|c gap IH]; [auto|].
  change (String c gap ++ rest)%string with (String c (gap ++ rest)).
  cbn [Scenario.one_line]. intros H. apply andb_true_iff in H. destruct H as [Hc H].
  destruct (IH H) as [H1 H2]. rewrite Hc, H1. auto.
Qed.

(** On a path of one line, the engine accepts the atoms of a rule exactly
    when the rule, read as the specification words it, matches the path. *)
Lemma match_atoms_glob (rule : string) :
  forall text, Scenario.one_line text = true ->
               (Scenario.match_atoms (Scenario.atoms_of rule) text = true
                <-> Scenario.glob_matches rule text).
Proof.
  induction rule as [|c rule IH]; intros text Hline.
  - cbn [Scenario.atoms_of Scenario.match_atoms]. rewrite String.eqb_eq. split.
    + intros ->. constructor.
    + intros H. now inversion H.
  - cbn [Scenario.atoms_of]. destruct (Ascii.eqb c "*") eqn:Estar.
    + apply Ascii.eqb_eq in Estar. subst c. split.
      * revert Hline. induction text as [|d text IHt]; intros Hline H;
          rewrite match_star in H; apply orb_true_iff in H.
        -- destruct H as [H|H]; [|discriminate].
           apply (Scenario.glob_star rule "" ""). now apply IH.
        -- cbn [Scenario.one_line] in Hline. apply andb_true_iff in Hline.
           destruct Hline as [Hd Hline]. destruct H as [H|H].
           ++ apply (Scenario.glob_star rule "" (String d text)). apply IH; [|exact H].
              cbn [Scenario.one_line]. now rewrite Hd, Hline.
           ++ apply andb_true_iff in H. destruct H as [_ H].
              destruct (glob_star_inv _ _ (IHt Hline H)) as (gap & rest & Heq & Hg).
              subst text. apply (Scenario.glob_star rule (String d gap) rest Hg).
      * intros H. destruct (glob_star_inv _ _ H) as (gap & rest & Heq & Hg).
        subst text. clear H. induction gap as [|d gap IHg].
        -- rewrite match_star. apply orb_true_iff. left. now apply IH.
        -- change (String d gap ++ rest)%string with (String d (gap ++ rest)) in *.
           cbn [Scenario.one_line] in Hline. apply andb_true_iff in Hline.
           destruct Hline as [Hd Hline].
           rewrite match_star. apply orb_true_iff. right. rewrite Hd. now apply IHg.
    + apply Ascii.eqb_neq in Estar. cbn [Scenario.match_atoms]. split.
      * destruct text as [|d text]; [discriminate|]. intros H.
        apply andb_true_iff in H. destruct H as [Hc H]. apply Ascii.eqb_eq in Hc. subst d.
        cbn [Scenario.one_line] in Hline. apply andb_true_iff in Hline.
        constructor; [exact Estar|]. apply IH; tauto.
      * intros H. inversion H; subst; [|congruence].
        cbn [Scenario.one_line] in Hline. apply andb_true_iff in Hline.
        rewrite Ascii.eqb_refl. apply IH; tauto.
Qed.

(** The tracker's test of a rule of ordinary characters and "*", by the
    reference engine, on a path of one line: the rule against the full path
    with "*" for zero or more characters. *)
Lemma reference_engine_glob (rule text : string) :
  Scenario.plain rule = true ->
  Scenario.one_line text = true ->
  (Scenario.RegExp_test (ignore_source rule) text = Some true
   <-> Scenario.glob_matches rule text).
Proof.
  intros Hplain Hline. unfold Scenario.RegExp_test, ignore_source.
  change ("^" ++ replace_star rule ++ "$")%string
    with (String "^" (replace_star rule ++ "$")).
  change (Ascii.eqb "^" "^") with true. cbn iota.
  rewrite before_dollar_app, (parse_plain rule Hplain). cbn [option_map].
  rewrite <- (match_atoms_glob rule text Hline).
  split; [now intros [= ->]|now intros ->].
Qed.

(** "build" is the directory and nothing else; "*.log" crosses "/"; "src/*"
    is everything below src, not src itself. *)
Example reference_engine_examples :
  Scenario.RegExp_test (ignore_source "build") "build" = Some true
  /\ Scenario.RegExp_test (ignore_source "build") "build/out.js" = Some false
  /\ Scenario.RegExp_test (ignore_source "build") "rebuild" = Some false
  /\ Scenario.RegExp_test (ignore_source "*.log") "logs/debug.log" = Some true
  /\ Scenario.RegExp_test (ignore_source "src/*") "src/a/b.txt" = Some true
  /\ Scenario.RegExp_test (ignore_source "src/*") "src" = Some false.
Proof. vm_compute. repeat split. Qed.

(** * Properties of the rest of the code *)

(** ** Strings: lines and trimming *)

Lemma append_cons (c : ascii) (a b : string) :
  (String c a ++ b)%string = String c (a ++ b).
Proof. reflexivity. Qed.

Lemma append_nil_r (a : string) : (a ++ "")%string = a.
Proof. induction a as [|c a IH]; [reflexivity|]. now rewrite append_cons, IH. Qed.

Lemma split_on_cons (sep : ascii) (text : string) :
  exists line lines, split_on sep text = line :: lines.
Proof.
  induction text as [|c text IH]; simpl; [eauto|].
  destruct (Ascii.eqb c sep); [eauto|].
  destruct IH as (l & ls & ->). eauto.
Qed.

Lemma split_on_plain (sep : ascii) (text : string) :
  has_char sep text = false -> split_on sep text = [text].
Proof.
  induction text as [|c text IH]; simpl; [reflexivity|].
  intros H. apply orb_false_elim in H. destruct H as [Hc H].
  rewrite Hc, (IH H). reflexivity.
Qed.

(** Splitting at a separator splits both sides. *)
Lemma split_on_sep (sep : ascii) (a b : string) :
  split_on sep (a ++ String sep b) = split_on sep a ++ split_on sep b.
Proof.
  induction a as [|c a IH].
  - simpl. now rewrite Ascii.eqb_refl.
  - rewrite append_cons. simpl. destruct (Ascii.eqb c sep); [now rewrite IH|].
    rewrite IH. destruct (split_on_cons sep a) as (l & ls & ->). reflexivity.
Qed.

(** Text added after the last separator goes to the last piece. *)
Lemma split_on_glue (sep : ascii) (a f : string) :
  has_char sep f = false ->
  split_on sep (a ++ f)
  = removelast (split_on sep a) ++ [(List.last (split_on sep a) "" ++ f)%string].
Proof.
  intros Hf. induction a as [|c a IH].
  - simpl. now apply split_on_plain.
  - rewrite append_cons. simpl. destruct (Ascii.eqb c sep).
    + rewrite IH. destruct (split_on_cons sep a) as (l & ls & Hs). rewrite Hs.
      reflexivity.
    + rewrite IH. destruct (split_on_cons sep a) as (l & ls & Hs). rewrite Hs.
      destruct ls as [|l' ls]; reflexivity.
Qed.

Lemma split_on_pieces (sep : ascii) (text piece : string) :
  In piece (split_on sep text) -> has_char sep piece = false.
Proof.
  revert piece. induction text as [|c text IH]; intros piece; simpl.
  - intros [<-|[]]. reflexivity.
  - destruct (Ascii.eqb c sep) eqn:E.
    + intros [<-|H]; [reflexivity|auto].
    + destruct (split_on_cons sep text) as (l & ls & Hs). rewrite Hs in *.
      intros [<-|H].
      * simpl. rewrite E. apply IH. now left.
      * apply IH. now right.
Qed.

(** [rules.join('\n')], split again. *)
Lemma split_concat (rules : list string) :
  forallb (fun r => negb (has_char "010" r)) rules = true ->
  split_lines (String.concat LF rules)
  = match rules with [] => [""] | _ => rules end.
Proof.
  unfold split_lines. induction rules as [|r rules IH]; [reflexivity|].
  intros H. simpl in H. apply andb_true_iff in H. destruct H as [Hr H].
  apply negb_true_iff in Hr. destruct rules as [|r' rules].
  - simpl. now apply split_on_plain.
  - change (String.concat LF (r :: r' :: rules))
      with (r ++ String "010" (String.concat LF (r' :: rules)))%string.
    rewrite split_on_sep, (split_on_plain _ _ Hr), (IH H). reflexivity.
Qed.

Lemma trim_left_clean (s : string) : starts_clean (trim_left s) = true.
Proof.
  induction s as [|c s IH]; simpl; [reflexivity|].
  destruct (is_space c) eqn:E; [exact IH|]. simpl. now rewrite E.
Qed.

Lemma trim_left_id (s : string) : starts_clean s = true -> trim_left s = s.
Proof.
  destruct s as [|c s]; simpl; [reflexivity|]. intros H.
  apply negb_true_iff in H. now rewrite H.
Qed.

Lemma trim_right_clean (s : string) :
  starts_clean s = true -> starts_clean (trim_right s) = true.
Proof.
  destruct s as [|c s]; simpl; [reflexivity|]. intros H.
  destruct (trim_right s); [|exact H].
  apply negb_true_iff in H. rewrite H. simpl. now rewrite H.
Qed.

Lemma trim_right_idem (s : string) : trim_right (trim_right s) = trim_right s.
Proof.
  induction s as [|c s IH]; simpl; [reflexivity|].
  destruct (trim_right s) as [|d t] eqn:E.
  - destruct (is_space c) eqn:Ec; simpl; [reflexivity|now rewrite Ec].
  - simpl in *. rewrite IH. reflexivity.
Qed.

(** [trim] changes nothing the second time. *)
Lemma trim_idem (s : string) : trim (trim s) = trim s.
Proof.
  unfold trim. rewrite (trim_left_id (trim_right (trim_left s))).
  - apply trim_right_idem.
  - apply trim_right_clean, trim_left_clean.
Qed.

Lemma trim_left_chars (c : ascii) (s : string) :
  has_char c s = false -> has_char c (trim_left s) = false.
Proof.
  induction s as [|d s IH]; simpl; [auto|]. intros H.
  apply orb_false_elim in H. destruct H as [Hd H].
  destruct (is_space d); [auto|]. simpl. now rewrite Hd, H.
Qed.

Lemma trim_right_chars (c : ascii) (s : string) :
  has_char c s = false -> has_char c (trim_right s) = false.
Proof.
  induction s as [|d s IH]; simpl; [auto|]. intros H.
  apply orb_false_elim in H. destruct H as [Hd H]. specialize (IH H).
  destruct (trim_right s) as [|e t].
  - destruct (is_space d); simpl; [reflexivity|now rewrite Hd].
  - simpl in *. now rewrite Hd, IH.
Qed.

Lemma trim_chars (c : ascii) (s : string) :
  has_char c s = false -> has_char c (trim s) = false.
Proof. intros H. unfold trim. now apply trim_right_chars, trim_left_chars. Qed.

(** ** utils/ignore.js: saving and editing the rules *)

Lemma filter_loaded (rules : list string) :
  forallb storable rules = true ->
  List.filter (fun line => negb (String.eqb line "")
                           && negb (startsWith "#" line)
                           && negb (startsWith "//" line))
    (List.map trim rules)
  = List.filter (fun r => negb (is_comment r)) rules.
Proof.
  induction rules as [|r rules IH]; [reflexivity|]. simpl. intros H.
  apply andb_true_iff in H. destruct H as [Hr H]. rewrite (IH H).
  unfold storable in Hr. apply andb_true_iff in Hr. destruct Hr as [Hr _].
  apply andb_true_iff in Hr. destruct Hr as [Hne Ht].
  apply String.eqb_eq in Ht. rewrite Ht, Hne. unfold is_comment.
  rewrite negb_orb. reflexivity.
Qed.

Lemma read_exists (p : path) (d : node) (content : string) :
  readFileSync p d = Some content -> existsSync p d = true.
Proof.
  unfold readFileSync, existsSync. destruct (lookup_node p d); [reflexivity|discriminate].
Qed.

(** What [loadIgnoreRules] returns from a file of given content. *)
Lemma load_from_content (d : node) (text : string) :
  readFileSync ignoreFilePath d = Some text ->
  loadIgnoreRules d
  = Some (List.filter (fun line => negb (String.eqb line "")
                                   && negb (startsWith "#" line)
                                   && negb (startsWith "//" line))
            (List.map trim (split_lines text))).
Proof.
  intros H. unfold loadIgnoreRules. now rewrite (read_exists _ _ _ H), H.
Qed.

Lemma loaded_clean (d : node) (rules : list string) :
  loadIgnoreRules d = Some rules ->
  (existsSync ignoreFilePath d = false -> rules = [])
  /\ forall r, In r rules -> storable r = true /\ is_comment r = false.
Proof.
  unfold loadIgnoreRules. destruct (existsSync ignoreFilePath d).
  2:{ intros H. inversion H. split; [reflexivity|intros r []]. }
  destruct (readFileSync ignoreFilePath d) as [text|]; [|discriminate].
  intros H. inversion H; subst rules. clear H. split; [discriminate|].
  intros r Hr. apply filter_In in Hr. destruct Hr as [Hin Hkeep].
  apply andb_true_iff in Hkeep. destruct Hkeep as [Hkeep H2].
  apply andb_true_iff in Hkeep. destruct Hkeep as [Hne H1].
  apply in_map_iff in Hin. destruct Hin as (line & <- & Hline).
  split.
  - unfold storable. rewrite Hne, trim_idem, String.eqb_refl. simpl.
    apply negb_true_iff. apply trim_chars. apply (split_on_pieces _ _ _ Hline).
  - unfold is_comment. apply negb_true_iff in H1, H2. now rewrite H1, H2.
Qed.

Lemma saved_reloads (rules : list string) (d d' : node) :
  forallb storable rules = true ->
  Ignore.saveIgnoreRules rules d = (d', Ignore.RulesSaved) ->
  loadIgnoreRules d' = Some (List.filter (fun r => negb (is_comment r)) rules).
Proof.
  intros Hst Hsave. unfold Ignore.saveIgnoreRules in Hsave.
  destruct (writeFileSync ignoreFilePath (String.concat LF rules ++ LF) d)
    as [written|] eqn:Hw; [|discriminate].
  inversion Hsave; subst d'. clear Hsave.
  rewrite (load_from_content _ _ (write_reads_self _ _ _ _ Hw)). f_equal.
  assert (Hlines : forallb (fun r => negb (has_char "010" r)) rules = true).
  { apply forallb_forall. intros r Hr. rewrite forallb_forall in Hst.
    specialize (Hst r Hr). unfold storable in Hst.
    apply andb_true_iff in Hst. tauto. }
  pose proof (split_concat rules Hlines) as Hs.
  unfold split_lines, LF in Hs |- *. rewrite split_on_sep, Hs.
  rewrite map_app, List.filter_app. simpl. rewrite app_nil_r.
  destruct rules as [|r rules]; [reflexivity|]. now apply filter_loaded.
Qed.

(** X1.  [loadIgnoreRules] gives no rule when [.svcignore] is missing; every
    rule it gives is storable (not empty, trimmed, on one line) and is not a
    comment. *)
Theorem loaded_rules_clean (d : node) (rules : list string) :
  loadIgnoreRules d = Some rules ->
  (existsSync ignoreFilePath d = false -> rules = [])
  /\ forall r, In r rules -> storable r = true /\ is_comment r = false.
Proof. apply loaded_clean. Qed.

(** X2.  Storable rules that [saveIgnoreRules] has saved are the rules
    [loadIgnoreRules] gives back, in their order, except those that start
    with "#" or "//": these are read as comments. *)
Theorem save_then_load (rules : list string) (d d' : node) :
  forallb storable rules = true ->
  Ignore.saveIgnoreRules rules d = (d', Ignore.RulesSaved) ->
  loadIgnoreRules d' = Some (List.filter (fun r => negb (is_comment r)) rules).
Proof. apply saved_reloads. Qed.

Section Editor.

Variable hasMagic : string -> bool.
Variable RegExp_valid : string -> bool.

Local Abbreviation edit_loop := (Ignore.edit_loop hasMagic RegExp_valid).

Lemma splice1_In (i : nat) (rules : list string) (r : string) :
  In r (Ignore.splice1 i rules) -> In r rules.
Proof.
  unfold Ignore.splice1. intros H. apply in_app_or in H. destruct H as [H|H].
  - rewrite <- (firstn_skipn i rules). apply in_or_app. now left.
  - rewrite <- (firstn_skipn (S i) rules). apply in_or_app. now right.
Qed.

Lemma trimmed_storable (newRule : string) :
  String.eqb (trim newRule) "" = false -> has_char "010" newRule = false ->
  storable (trim newRule) = true.
Proof.
  intros Hne Hline. unfold storable.
  rewrite Hne, trim_idem, String.eqb_refl, (trim_chars _ _ Hline). reflexivity.
Qed.

(** The rules in the editor stay storable. *)
Lemma edit_loop_storable (actions : list Ignore.action) :
  forall rules d log d' rules' log',
    edit_loop actions rules d log = (d', rules', log') ->
    prompt_inputs actions = true ->
    forallb storable rules = true -> forallb storable rules' = true.
Proof.
  induction actions as [|a rest IH]; intros rules d log d' rules' log' H Hin Hst.
  - inversion H; subst; exact Hst.
  - destruct a as [newRule|answer| | |]; simpl in H, Hin.
    + apply andb_true_iff in Hin. destruct Hin as [Hline Hin].
      apply andb_true_iff in Hline. destruct Hline as [Hne Hline].
      apply negb_true_iff in Hline. apply negb_true_iff in Hne.
      destruct (Ignore.validatePattern hasMagic RegExp_valid newRule);
        [|eapply IH; eauto].
      eapply IH; [exact H|exact Hin|].
      rewrite forallb_app, Hst. simpl. now rewrite trimmed_storable.
    + destruct rules as [|r others]; [eapply IH; eauto|].
      eapply IH; [exact H|exact Hin|].
      apply forallb_forall. intros x Hx. rewrite forallb_forall in Hst.
      apply Hst. eapply splice1_In; exact Hx.
    + eapply IH; eauto.
    + inversion H; subst; exact Hst.
    + destruct (Ignore.saveIgnoreRules rules d). inversion H; subst; exact Hst.
Qed.

(** The editor touches the disk in [saveIgnoreRules] only, with the rules
    it ends with. *)
Lemma edit_loop_disk (actions : list Ignore.action) :
  forall rules d log d' rules' log',
    edit_loop actions rules d log = (d', rules', log') ->
    exists msgs, log' = log ++ msgs
      /\ (~ In Ignore.RulesSaved msgs -> d' = d)
      /\ (In Ignore.RulesSaved msgs ->
          Ignore.saveIgnoreRules rules' d = (d', Ignore.RulesSaved)).
Proof.
  induction actions as [|a rest IH]; intros rules d log d' rules' log' H.
  - inversion H; subst. exists []. rewrite app_nil_r.
    split; [reflexivity|]. split; [reflexivity|intros []].
  - assert (Hstep : forall m rules1,
               edit_loop rest rules1 d (log ++ [m]) = (d', rules', log') ->
               m <> Ignore.RulesSaved ->
               exists msgs, log' = log ++ msgs
                 /\ (~ In Ignore.RulesSaved msgs -> d' = d)
                 /\ (In Ignore.RulesSaved msgs ->
                     Ignore.saveIgnoreRules rules' d = (d', Ignore.RulesSaved))).
    { intros m rules1 H1 Hm. destruct (IH _ _ _ _ _ _ H1) as (msgs & -> & Hno & Hyes).
      exists (m :: msgs). rewrite <- app_assoc. split; [reflexivity|]. split.
      - intros Hn. apply Hno. intros Hi. apply Hn. now right.
      - intros [Hi|Hi]; [contradiction|now apply Hyes]. }
    destruct a as [newRule|answer| | |]; simpl in H.
    + destruct (Ignore.validatePattern hasMagic RegExp_valid newRule);
        (eapply Hstep; [exact H|discriminate]).
    + destruct rules as [|r others]; (eapply Hstep; [exact H|discriminate]).
    + eapply Hstep; [exact H|discriminate].
    + inversion H; subst. exists [Ignore.ReturningToMenu].
      split; [reflexivity|]. split; [reflexivity|].
      intros [Hi|[]]; discriminate.
    + destruct (Ignore.saveIgnoreRules rules d) as [d1 m] eqn:Hs.
      inversion H; subst. exists [m]. split; [reflexivity|]. split.
      * intros Hn. unfold Ignore.saveIgnoreRules in Hs.
        destruct (writeFileSync ignoreFilePath (String.concat LF rules' ++ LF) d);
          inversion Hs; subst; [exfalso; apply Hn; now left|reflexivity].
      * intros [Hi|[]]. now subst m.
Qed.

(** X3.  [editIgnoreRules] changes nothing on the disk unless it reports
    that the changes were saved: rules added or removed in a session left by
    'Back', or whose save failed, are lost. *)
Theorem edit_without_save (actions : list Ignore.action) (d d' : node)
    (rules' : list string) (log : list Ignore.message) :
  Ignore.editIgnoreRules hasMagic RegExp_valid actions d = Some (d', rules', log) ->
  ~ In Ignore.RulesSaved log -> d' = d.
Proof.
  unfold Ignore.editIgnoreRules. destruct (loadIgnoreRules d) as [rules|]; [|discriminate].
  intros H Hn. inversion H as [H1]. destruct (edit_loop_disk _ _ _ _ _ _ _ H1) as (msgs & Hlog & Hno & _).
  simpl in Hlog. subst msgs. now apply Hno.
Qed.

(** X4.  When [editIgnoreRules] reports the changes saved (the inputs of
    'add' being what the prompt returns: one line, not blank),
    [loadIgnoreRules] then gives the rules the editor ended with, except
    those that start with "#" or "//"; no file other than [.svcignore] has
    changed. *)
Theorem edit_save_reloads (actions : list Ignore.action) (d d' : node)
    (rules' : list string) (log : list Ignore.message) :
  prompt_inputs actions = true ->
  Ignore.editIgnoreRules hasMagic RegExp_valid actions d = Some (d', rules', log) ->
  In Ignore.RulesSaved log ->
  loadIgnoreRules d' = Some (List.filter (fun r => negb (is_comment r)) rules')
  /\ forall q, q <> ignoreFilePath -> readFileSync q d' = readFileSync q d.
Proof.
  unfold Ignore.editIgnoreRules. intros Hin.
  destruct (loadIgnoreRules d) as [rules|] eqn:Hload; [|discriminate].
  intros H Hsaved. inversion H as [H1].
  destruct (edit_loop_disk _ _ _ _ _ _ _ H1) as (msgs & Hlog & _ & Hyes).
  simpl in Hlog. subst msgs. specialize (Hyes Hsaved).
  assert (Hst : forallb storable rules' = true).
  { eapply edit_loop_storable; [exact H1|exact Hin|].
    apply forallb_forall. intros r Hr.
    now apply (proj2 (loaded_clean d rules Hload) r). }
  split; [now apply (saved_reloads rules' d d')|].
  intros q Hq. unfold Ignore.saveIgnoreRules in Hyes.
  destruct (writeFileSync ignoreFilePath (String.concat LF rules' ++ LF) d) eqn:Hw;
    inversion Hyes; subst.
  eapply write_reads_other; eauto.
Qed.

End Editor.

(** ** utils/monitor.js *)

Lemma includes_In (x : string) (l : list string) :
  Monitor.includes x l = true <-> In x l.
Proof.
  unfold Monitor.includes. rewrite existsb_exists. split.
  - intros (y & Hy & He). apply String.eqb_eq in He. now subst.
  - intros H. exists x. split; [exact H|apply String.eqb_refl].
Qed.

Lemma push_new_In (x f : string) (l : list string) :
  In f (Monitor.push_new x l) <-> In f l \/ f = x.
Proof.
  unfold Monitor.push_new. destruct (Monitor.includes x l) eqn:E.
  - apply includes_In in E. split; [tauto|]. intros [H| ->]; assumption.
  - rewrite in_app_iff. simpl. split.
    + intros [H|[H|[]]]; auto.
    + intros [H|H]; auto.
Qed.

Lemma push_new_NoDup (x : string) (l : list string) :
  List.NoDup l -> List.NoDup (Monitor.push_new x l).
Proof.
  intros H. unfold Monitor.push_new. destruct (Monitor.includes x l) eqn:E; [exact H|].
  assert (Hx : ~ In x l).
  { intros Hin. apply includes_In in Hin. congruence. }
  clear E. induction l as [|y l IH]; simpl.
  - constructor; [intros []|constructor].
  - inversion H; subst. constructor.
    + rewrite in_app_iff. simpl. intros [Hy|[Hy|[]]]; [contradiction|].
      apply Hx. now left.
    + apply IH; [assumption|]. intros Hin. apply Hx. now right.
Qed.

Lemma process_all_spec (evs : list (Monitor.eventType * string)) :
  forall m,
    List.NoDup (Monitor.added m) -> List.NoDup (Monitor.modified m) ->
    List.NoDup (Monitor.deleted m) ->
    let m' := Monitor.process_all evs m in
    List.NoDup (Monitor.added m') /\ List.NoDup (Monitor.modified m')
    /\ List.NoDup (Monitor.deleted m')
    /\ forall f,
        (In f (Monitor.added m') <-> In f (Monitor.added m) \/ In (Monitor.add, f) evs)
        /\ (In f (Monitor.modified m')
            <-> In f (Monitor.modified m) \/ In (Monitor.change, f) evs)
        /\ (In f (Monitor.deleted m')
            <-> In f (Monitor.deleted m) \/ In (Monitor.unlink, f) evs).
Proof.
  induction evs as [|[type p] evs IH]; intros m Ha Hm Hd; cbn zeta.
  - simpl. repeat (split; [assumption|]). intros f. tauto.
  - unfold Monitor.process_all. cbn [fold_left fst snd].
    fold (Monitor.process_all evs (Monitor.processFileChange type p m)).
    assert (Hnd : List.NoDup (Monitor.added (Monitor.processFileChange type p m))
                  /\ List.NoDup (Monitor.modified (Monitor.processFileChange type p m))
                  /\ List.NoDup (Monitor.deleted (Monitor.processFileChange type p m))).
    { destruct type; simpl; repeat split; try assumption; now apply push_new_NoDup. }
    destruct Hnd as (Ha' & Hm' & Hd').
    destruct (IH _ Ha' Hm' Hd') as (H1 & H2 & H3 & H4).
    repeat (split; [assumption|]). intros f. destruct (H4 f) as (Fa & Fm & Fd).
    rewrite Fa, Fm, Fd. clear. simpl.
    destruct type; simpl; rewrite ?push_new_In;
      (split; [|split]); split; intros H;
      repeat match goal with
             | H : _ \/ _ |- _ => destruct H
             | H : (_, _) = (_, _) |- _ => inversion H; clear H; subst
             end; subst; auto; try discriminate.
Qed.

(** X5.  After any sequence of watcher events from the empty lists, each of
    the three lists of [monitoredChanges] holds, once each, exactly the
    paths reported with its event type. *)
Theorem monitor_lists (evs : list (Monitor.eventType * string)) :
  let m := Monitor.process_all evs Monitor.no_changes in
  List.NoDup (Monitor.added m) /\ List.NoDup (Monitor.modified m)
  /\ List.NoDup (Monitor.deleted m)
  /\ forall f,
      (In f (Monitor.added m) <-> In (Monitor.add, f) evs)
      /\ (In f (Monitor.modified m) <-> In (Monitor.change, f) evs)
      /\ (In f (Monitor.deleted m) <-> In (Monitor.unlink, f) evs).
Proof.
  cbn zeta.
  pose proof (process_all_spec evs Monitor.no_changes
                (List.NoDup_nil _) (List.NoDup_nil _) (List.NoDup_nil _)) as H.
  cbn zeta in H. destruct H as (H1 & H2 & H3 & H4).
  repeat (split; [assumption|]). intros f. destruct (H4 f) as (Fa & Fm & Fd).
  simpl in Fa, Fm, Fd. tauto.
Qed.

Lemma append_reads (p : path) (data : string) (d d' : node) :
  appendFileSync p data d = Some d' ->
  readFileSync p d' = Some (or_empty (readFileSync p d) ++ data)%string
  /\ forall q, q <> p -> readFileSync q d' = readFileSync q d.
Proof.
  unfold appendFileSync. intros H.
  destruct (existsSync p d) eqn:He.
  - destruct (readFileSync p d) as [bytes|]; [|discriminate]. simpl. split.
    + eapply write_reads_self; eauto.
    + intros q Hq. eapply write_reads_other; eauto.
  - assert (Hr : readFileSync p d = None).
    { unfold readFileSync, existsSync in *. destruct (lookup_node p d); [discriminate|reflexivity]. }
    rewrite Hr. simpl. split.
    + eapply write_reads_self; eauto.
    + intros q Hq. eapply write_reads_other; eauto.
Qed.

Lemma string_app_assoc' (a b c : string) : ((a ++ b) ++ c = a ++ (b ++ c))%string.
Proof.
  induction a as [|x a IH]; [reflexivity|]. rewrite !append_cons. now rewrite IH.
Qed.

Lemma ignore_lines_cons (file : string) (files : list string) :
  ignore_lines (file :: files) = (file ++ LF ++ ignore_lines files)%string.
Proof.
  unfold ignore_lines. cbn [List.map String.concat].
  destruct files as [|g files].
  - cbn [List.map String.concat]. now rewrite append_nil_r.
  - cbn [List.map].
    change ("" ++ String.concat "" ((g ++ LF) :: List.map (fun file => file ++ LF) files))%string
      with (String.concat "" ((g ++ LF)%string :: List.map (fun file => (file ++ LF)%string) files)).
    apply string_app_assoc'.
Qed.

Lemma prompt_each_app (answers : nat -> nat) (a b : list string) :
  forall k d log,
    Monitor.prompt_each answers k (a ++ b) d log
    = match Monitor.prompt_each answers k a d log with
      | Some (d1, log1) => Monitor.prompt_each answers (k + List.length a) b d1 log1
      | None => None
      end.
Proof.
  induction a as [|f a IH]; intros k d log; simpl.
  - now rewrite Nat.add_0_r.
  - replace (k + S (List.length a))%nat with (S k + List.length a)%nat by lia.
    destruct (Monitor.prompt_action (answers k)); try apply IH.
    destruct (appendFileSync ignoreFilePath (f ++ LF) d); [apply IH|reflexivity].
Qed.

Lemma handle_one_pass (answers : nat -> nat) (m : Monitor.Changes) (d : node) :
  Monitor.handleInteractivePrompts answers m d
  = match Monitor.prompt_each answers 0 (prompted m) d [] with
    | Some (d', log) => Some (d', Monitor.no_changes, log)
    | None => None
    end.
Proof.
  unfold Monitor.handleInteractivePrompts, prompted. rewrite prompt_each_app.
  destruct (Monitor.prompt_each answers 0 (Monitor.added m) d []) as [[d1 log1]|];
    [|reflexivity].
  rewrite prompt_each_app. simpl.
  destruct (Monitor.prompt_each answers _ (Monitor.modified m) d1 log1)
    as [[d2 log2]|]; reflexivity.
Qed.

Lemma prompt_each_spec (answers : nat -> nat) (files : list string) :
  forall k d log d' log',
    Monitor.prompt_each answers k files d log = Some (d', log') ->
    (forall q, q <> ignoreFilePath -> readFileSync q d' = readFileSync q d)
    /\ (ignored_from answers k files = [] -> d' = d)
    /\ (ignored_from answers k files <> [] ->
        readFileSync ignoreFilePath d'
        = Some (or_empty (readFileSync ignoreFilePath d)
                ++ ignore_lines (ignored_from answers k files))%string).
Proof.
  induction files as [|f files IH]; intros k d log d' log' H; simpl in H.
  - inversion H; subst. simpl. repeat split; congruence.
  - simpl. destruct (Monitor.prompt_action (answers k)); try (eapply IH; exact H).
    destruct (appendFileSync ignoreFilePath (f ++ LF) d) as [d1|] eqn:Ha; [|discriminate].
    destruct (append_reads _ _ _ _ Ha) as [Hself Hother].
    destruct (IH _ _ _ _ _ H) as (I1 & I2 & I3).
    split; [|split].
    + intros q Hq. rewrite (I1 q Hq). now apply Hother.
    + discriminate.
    + intros _. rewrite ignore_lines_cons.
      destruct (ignored_from answers (S k) files) as [|g rest] eqn:Hig.
      * rewrite (I2 eq_refl), Hself. unfold ignore_lines. simpl.
        now rewrite append_nil_r.
      * rewrite I3 by discriminate. rewrite Hself. simpl.
        now rewrite string_app_assoc', string_app_assoc'.
Qed.

(** X6.  [handleInteractivePrompts] empties the three lists; it changes no
    file but [.svcignore], changes nothing at all when no file is answered
    'ignore', and otherwise appends one line for each file answered
    'ignore', in the order added, modified, deleted. *)
Theorem prompts_append_ignored (answers : nat -> nat) (m m' : Monitor.Changes)
    (d d' : node) (log : list Monitor.message) :
  Monitor.handleInteractivePrompts answers m d = Some (d', m', log) ->
  m' = Monitor.no_changes
  /\ (forall q, q <> ignoreFilePath -> readFileSync q d' = readFileSync q d)
  /\ (ignored_from answers 0 (prompted m) = [] -> d' = d)
  /\ (ignored_from answers 0 (prompted m) <> [] ->
      readFileSync ignoreFilePath d'
      = Some (or_empty (readFileSync ignoreFilePath d)
              ++ ignore_lines (ignored_from answers 0 (prompted m)))%string).
Proof.
  rewrite handle_one_pass.
  destruct (Monitor.prompt_each answers 0 (prompted m) d []) as [[d1 log1]|] eqn:E;
    [|discriminate].
  intros H. inversion H; subst. split; [reflexivity|].
  exact (prompt_each_spec _ _ _ _ _ _ _ E).
Qed.

(** *** The rules after a session of the monitor *)

Lemma load_rules_of (d : node) (rules : list string) :
  loadIgnoreRules d = Some rules ->
  rules = rules_of (or_empty (readFileSync ignoreFilePath d)).
Proof.
  unfold loadIgnoreRules. destruct (existsSync ignoreFilePath d) eqn:He.
  - destruct (readFileSync ignoreFilePath d); [|discriminate].
    intros H. inversion H. reflexivity.
  - intros H. inversion H.
    assert (Hr : readFileSync ignoreFilePath d = None).
    { unfold readFileSync, existsSync in *.
      destruct (lookup_node ignoreFilePath d); [discriminate|reflexivity]. }
    rewrite Hr. reflexivity.
Qed.

Lemma load_read (d : node) (text : string) :
  readFileSync ignoreFilePath d = Some text -> loadIgnoreRules d = Some (rules_of text).
Proof. apply load_from_content. Qed.

Lemma rules_of_sep (a b : string) :
  rules_of (a ++ LF ++ b) = rules_of a ++ rules_of b.
Proof.
  unfold rules_of, split_lines, LF.
  change (String "010" "" ++ b)%string with (String "010" b).
  now rewrite split_on_sep, map_app, List.filter_app.
Qed.

Lemma ends_line_inv (text : string) :
  ends_line text = true -> text = "" \/ exists t, text = (t ++ LF)%string.
Proof.
  induction text as [|c text IH]; [now left|]. intros H. right.
  destruct text as [|c' text].
  - simpl in H. apply Ascii.eqb_eq in H. subst c. now exists "".
  - change (ends_line (String c' text) = true) in H.
    destruct (IH H) as [Hn|[t Ht]]; [discriminate|]. rewrite Ht.
    now exists (String c t).
Qed.

Lemma rules_of_line (text more : string) :
  ends_line text = true -> rules_of (text ++ more) = rules_of text ++ rules_of more.
Proof.
  intros H. destruct (ends_line_inv _ H) as [->|[t ->]]; [reflexivity|].
  rewrite string_app_assoc', rules_of_sep.
  change (rules_of (t ++ LF)) with (rules_of (t ++ LF ++ "")).
  rewrite rules_of_sep. change (rules_of "") with (@nil string).
  now rewrite app_nil_r.
Qed.

Lemma storable_one_line (r : string) : storable r = true -> has_char "010" r = false.
Proof.
  unfold storable. intros H. apply andb_true_iff in H. destruct H as [_ H].
  now apply negb_true_iff.
Qed.

Lemma storable_trimmed (r : string) : storable r = true -> trim r = r.
Proof.
  unfold storable. intros H. apply andb_true_iff in H. destruct H as [H _].
  apply andb_true_iff in H. destruct H as [_ H]. now apply String.eqb_eq.
Qed.

Lemma storable_not_empty (r : string) : storable r = true -> r <> "".
Proof.
  unfold storable. intros H ->. discriminate.
Qed.

Lemma rules_of_ignore_lines (files : list string) :
  forallb storable files = true ->
  rules_of (ignore_lines files) = List.filter (fun r => negb (is_comment r)) files.
Proof.
  induction files as [|f files IH]; [reflexivity|]. simpl. intros H.
  apply andb_true_iff in H. destruct H as [Hf H].
  rewrite ignore_lines_cons, rules_of_sep, (IH H).
  unfold rules_of, split_lines.
  rewrite (split_on_plain _ _ (storable_one_line _ Hf)).
  change (List.filter ?k (List.map trim [f]) ++ ?l)
    with (List.filter k (List.map trim [f]) ++ l).
  pose proof (filter_loaded [f]) as Hone. simpl in Hone. simpl.
  rewrite Hf in Hone. specialize (Hone eq_refl).
  destruct (negb (String.eqb (trim f) "") && negb (startsWith "#" (trim f))
            && negb (startsWith "//" (trim f)));
    destruct (negb (is_comment f)); simpl; congruence.
Qed.

(** X7.  When [.svcignore] is missing, empty or ends with a line feed, the
    files answered 'ignore' in [handleInteractivePrompts] (storable paths)
    are afterwards rules of [loadIgnoreRules], after the rules there were,
    except those that start with "#" or "//". *)
Theorem ignored_files_become_rules (answers : nat -> nat) (m m' : Monitor.Changes)
    (d d' : node) (log : list Monitor.message) (rules : list string) :
  loadIgnoreRules d = Some rules ->
  ends_line (or_empty (readFileSync ignoreFilePath d)) = true ->
  forallb storable (ignored_from answers 0 (prompted m)) = true ->
  Monitor.handleInteractivePrompts answers m d = Some (d', m', log) ->
  loadIgnoreRules d'
  = Some (rules ++ List.filter (fun r => negb (is_comment r))
                     (ignored_from answers 0 (prompted m))).
Proof.
  intros Hload Hend Hst Hrun. rewrite handle_one_pass in Hrun.
  destruct (Monitor.prompt_each answers 0 (prompted m) d []) as [[d1 log1]|] eqn:E;
    [|discriminate].
  inversion Hrun; subst. clear Hrun.
  destruct (prompt_each_spec _ _ _ _ _ _ _ E) as (_ & Hnone & Hsome).
  destruct (ignored_from answers 0 (prompted m)) as [|f rest] eqn:Hig.
  - rewrite (Hnone eq_refl). simpl. now rewrite app_nil_r.
  - rewrite (load_read _ _ (Hsome ltac:(discriminate))).
    rewrite (rules_of_line _ _ Hend), (rules_of_ignore_lines _ Hst).
    now rewrite <- (load_rules_of _ _ Hload).
Qed.

(** *** initProject *)

Lemma init_fresh_disk (e : bool) (pr pr' : Project) (log : list Init.message) :
  store pr = None -> Init.initProject e pr = Some (pr', log) ->
  name pr' = name pr
  /\ store pr' = Some (if e then Init.initDatabase
                       else Init.insert_project (name pr) Init.initDatabase)
  /\ (forall q, q <> ignoreFilePath ->
                readFileSync q (disk pr') = readFileSync q (disk pr))
  /\ (existsSync ignoreFilePath (disk pr) = true -> disk pr' = disk pr)
  /\ (existsSync ignoreFilePath (disk pr) = false ->
      readFileSync ignoreFilePath (disk pr')
      = Some (String.concat LF Init.defaultRules)).
Proof.
  intros Hs H. unfold Init.initProject in H. rewrite Hs in H.
  destruct (existsSync ignoreFilePath (disk pr)) eqn:He.
  - destruct e; inversion H; subst; simpl; repeat split; auto; discriminate.
  - destruct (writeFileSync ignoreFilePath (String.concat LF Init.defaultRules) (disk pr))
      as [d|] eqn:Hw; [|discriminate].
    destruct e; inversion H; subst; simpl;
      (split; [reflexivity|]); (split; [reflexivity|]);
      (split; [intros q Hq; eapply write_reads_other; eauto|]);
      (split; [discriminate|]); intros _; eapply write_reads_self; eauto.
Qed.

Lemma trim_right_app (a f : string) :
  f <> "" -> trim_right f = f -> trim_right (a ++ f) = (a ++ f)%string.
Proof.
  intros Hne Hf. induction a as [|c a IH]; [exact Hf|].
  rewrite append_cons. cbn [trim_right]. rewrite IH.
  destruct (a ++ f)%string as [|x y] eqn:E; [|reflexivity].
  destruct a; [simpl in E; contradiction|discriminate].
Qed.

Lemma storable_trim_right (f : string) : storable f = true -> trim_right f = f.
Proof.
  intros H. pose proof (storable_trimmed _ H) as Ht. unfold trim in Ht.
  assert (Hc : starts_clean f = true).
  { rewrite <- Ht. apply trim_right_clean, trim_left_clean. }
  now rewrite (trim_left_id _ Hc) in Ht.
Qed.

Lemma default_lines :
  split_on "010" (String.concat LF Init.defaultRules) = Init.defaultRules.
Proof. reflexivity. Qed.

(** X8.  The [.svcignore] that [initProject] writes does not end with a line
    feed: the first file answered 'ignore' in [handleInteractivePrompts]
    afterwards is not read as a rule of its own, it is glued to the last
    default rule "*.db". *)
Theorem ignored_after_init_glued (e : bool) (pr pr' : Project)
    (ilog : list Init.message) (answers : nat -> nat) (m m' : Monitor.Changes)
    (d' : node) (log : list Monitor.message) (f : string) (rest : list string) :
  store pr = None ->
  existsSync ignoreFilePath (disk pr) = false ->
  Init.initProject e pr = Some (pr', ilog) ->
  Monitor.handleInteractivePrompts answers m (disk pr') = Some (d', m', log) ->
  ignored_from answers 0 (prompted m) = f :: rest ->
  forallb storable (f :: rest) = true ->
  loadIgnoreRules d'
  = Some (["node_modules/"; ".git/"; "*.log"; "*.tmp"; ("*.db" ++ f)%string]
          ++ List.filter (fun r => negb (is_comment r)) rest).
Proof.
  intros Hs He Hinit Hrun Hig Hst.
  destruct (init_fresh_disk _ _ _ _ Hs Hinit) as (_ & _ & _ & _ & Hread).
  specialize (Hread He). rewrite handle_one_pass in Hrun.
  destruct (Monitor.prompt_each answers 0 (prompted m) (disk pr') []) as [[d1 log1]|] eqn:E;
    [|discriminate].
  inversion Hrun; subst. clear Hrun.
  destruct (prompt_each_spec _ _ _ _ _ _ _ E) as (_ & _ & Hsome).
  rewrite Hig in Hsome. specialize (Hsome ltac:(discriminate)).
  rewrite Hread in Hsome. unfold or_empty in Hsome.
  rewrite (load_read _ _ Hsome). f_equal.
  simpl in Hst. apply andb_true_iff in Hst. destruct Hst as [Hf Hrest].
  rewrite ignore_lines_cons, <- string_app_assoc', rules_of_sep.
  rewrite (rules_of_ignore_lines _ Hrest). f_equal.
  unfold rules_of, split_lines.
  rewrite (split_on_glue _ _ _ (storable_one_line _ Hf)).
  rewrite default_lines. unfold Init.defaultRules.
  cbn [removelast List.last List.app List.map].
  assert (Ht : trim ("*.db" ++ f) = ("*.db" ++ f)%string).
  { unfold trim. change (trim_left ("*.db" ++ f)) with ("*.db" ++ f)%string.
    apply trim_right_app; [now apply storable_not_empty|now apply storable_trim_right]. }
  rewrite Ht. reflexivity.
Qed.

(** X9.  [initProject] in a directory that has no database: the project is
    then found with id 1 and a second [initProject] does nothing; a
    [.svcignore] that was there is kept as it is, a missing one is written
    and loads as the five default rules; no other file changes. *)
Theorem init_fresh_project (pr pr' : Project) (log : list Init.message) :
  store pr = None ->
  Init.initProject false pr = Some (pr', log) ->
  Init.getProjectId false pr' = Init.Resolved (Some 1)
  /\ (forall e, Init.initProject e pr' = Some (pr', [Init.AlreadyInitialized]))
  /\ (existsSync ignoreFilePath (disk pr) = true -> disk pr' = disk pr)
  /\ (existsSync ignoreFilePath (disk pr) = false ->
      loadIgnoreRules (disk pr') = Some Init.defaultRules)
  /\ (forall q, q <> ignoreFilePath ->
                readFileSync q (disk pr') = readFileSync q (disk pr)).
Proof.
  intros Hs Hinit.
  destruct (init_fresh_disk _ _ _ _ Hs Hinit) as (Hn & Hst & Hother & Hkept & Hread).
  split; [|split; [|split; [|split]]].
  - unfold Init.getProjectId. rewrite Hst, Hn. unfold select_project. simpl.
    now rewrite String.eqb_refl.
  - intros e. unfold Init.initProject. now rewrite Hst.
  - exact Hkept.
  - intros He. now rewrite (load_read _ _ (Hread He)).
  - exact Hother.
Qed.

(** ** The store under the commands *)

Lemma update_file_keys (hash p : string) (now : Z) (db : Db) :
  List.map file_key (files (update_file hash p now db)) = List.map file_key (files db).
Proof.
  unfold update_file. simpl. rewrite List.map_map. apply List.map_ext.
  intros r. destruct (String.eqb (f_path r) p); reflexivity.
Qed.

Lemma keys_paths (l1 l2 : list FileRow) :
  List.map file_key l1 = List.map file_key l2 ->
  List.map f_path l1 = List.map f_path l2 /\ List.map f_id l1 = List.map f_id l2.
Proof.
  intros H. split.
  - apply (f_equal (List.map (fun k : Z * Z * string => snd k))) in H.
    now rewrite !List.map_map in H.
  - apply (f_equal (List.map (fun k : Z * Z * string => fst (fst k)))) in H.
    now rewrite !List.map_map in H.
Qed.

Lemma select_file_None (p : string) (db : Db) :
  select_file p db = None -> ~ In p (List.map f_path (files db)).
Proof.
  unfold select_file. intros H Hin. apply in_map_iff in Hin.
  destruct Hin as (r & Hr & Hin).
  apply (List.find_none _ _ H) in Hin. rewrite Hr, String.eqb_refl in Hin. discriminate.
Qed.

Lemma NoDup_snoc {A : Type} (l : list A) (x : A) :
  List.NoDup l -> ~ In x l -> List.NoDup (l ++ [x]).
Proof.
  intros Hl Hx. induction l as [|y l IH]; simpl.
  - constructor; [intros []|constructor].
  - inversion Hl; subst. constructor.
    + rewrite in_app_iff. simpl. intros [Hy|[Hy|[]]]; [contradiction|].
      apply Hx. now left.
    + apply IH; [assumption|]. intros Hin. apply Hx. now right.
Qed.

Lemma In_map_keys (l1 l2 : list FileRow) (f : FileRow) :
  List.map file_key l1 = List.map file_key l2 -> In f l1 ->
  exists g, In g l2 /\ file_key g = file_key f.
Proof.
  intros H Hin. apply (in_map file_key) in Hin. rewrite H in Hin.
  apply in_map_iff in Hin. destruct Hin as (g & Hg & Hin). eauto.
Qed.

(** One statement of the tracker: the rows there keep their keys, at most
    one row is added, and the store stays intact. *)
Lemma upsert_spec (p hash : string) (pid now : Z) (db : Db) :
  let db' := Snapshot.upsert_file p hash pid now db in
  (exists added, List.map file_key (files db')
                 = List.map file_key (files db) ++ added
                 /\ (In p (List.map f_path (files db)) -> added = []))
  /\ In p (List.map f_path (files db'))
  /\ snapshots db' = snapshots db /\ snapshot_files db' = snapshot_files db
  /\ seq_snapshots db' = seq_snapshots db
  /\ seq_files db <= seq_files db'
  /\ (In p (List.map f_path (files db)) -> seq_files db' = seq_files db)
  /\ (intact db -> intact db').
Proof.
  cbn zeta. unfold Snapshot.upsert_file. destruct (select_file p db) as [row|] eqn:Hsel.
  - pose proof (update_file_keys hash p now db) as Hk.
    destruct (keys_paths _ _ Hk) as [Hp Hi].
    assert (Hin : In p (List.map f_path (files db))).
    { unfold select_file in Hsel. apply List.find_some in Hsel.
      destruct Hsel as [Hr He]. apply String.eqb_eq in He. subst p.
      now apply in_map. }
    split; [exists []; rewrite app_nil_r; split; [exact Hk|reflexivity]|].
    split; [now rewrite Hp|].
    split; [reflexivity|]. split; [reflexivity|]. split; [reflexivity|].
    split; [simpl; lia|]. split; [reflexivity|].
    intros [H1 H2 H3 H4 H5 H6 H7]. constructor; try assumption.
    + now rewrite Hp.
    + now rewrite Hi.
    + intros f Hf. destruct (In_map_keys _ _ _ Hk Hf) as (g & Hg & Hgk).
      unfold file_key in Hgk. injection Hgk as Hid Hpid Hpath.
      specialize (H3 g Hg). simpl. lia.
    + intros sf Hsf. destruct (H7 sf Hsf) as (f & Hf & Hfid).
      symmetry in Hk. destruct (In_map_keys _ _ _ Hk Hf) as (g & Hg & Hgk).
      unfold file_key in Hgk. injection Hgk as Hid Hpid Hpath.
      exists g. split; [exact Hg|congruence].
  - pose proof (select_file_None _ _ Hsel) as Hnew.
    split; [eexists; split; [unfold insert_file; simpl; rewrite map_app; reflexivity|
                             intros Hin; contradiction]|].
    split; [unfold insert_file; simpl; rewrite map_app, in_app_iff; right; now left|].
    split; [reflexivity|]. split; [reflexivity|]. split; [reflexivity|].
    split; [simpl; lia|]. split; [contradiction|].
    intros [H1 H2 H3 H4 H5 H6 H7]. constructor; simpl; try assumption.
    + rewrite map_app. now apply NoDup_snoc.
    + rewrite map_app. apply NoDup_snoc; [assumption|]. simpl.
      intros Hin. apply in_map_iff in Hin. destruct Hin as (r & Hr & Hin).
      specialize (H3 r Hin). lia.
    + intros f Hf. apply in_app_or in Hf. destruct Hf as [Hf|[<-|[]]].
      * specialize (H3 f Hf). lia.
      * simpl. lia.
    + intros sf Hsf. destruct (H7 sf Hsf) as (f & Hf & Hfid).
      exists f. split; [apply in_or_app; now left|exact Hfid].
Qed.

Section Store.

Variable sha256_hex : string -> string.

Lemma track_all_spec (pid now : Z) (fs : list (path * string)) :
  forall db,
    let db' := track_all sha256_hex pid now fs db in
    (exists added, List.map file_key (files db')
                   = List.map file_key (files db) ++ added
                   /\ ((forall f, In f fs ->
                                  In (path_text (fst f)) (List.map f_path (files db))) ->
                       added = []))
    /\ (forall f, In f fs -> In (path_text (fst f)) (List.map f_path (files db')))
    /\ seq_files db <= seq_files db'
    /\ ((forall f, In f fs -> In (path_text (fst f)) (List.map f_path (files db))) ->
        seq_files db' = seq_files db)
    /\ (intact db -> intact db').
Proof.
  induction fs as [|f fs IH]; intros db; cbn zeta.
  - simpl. split; [exists []; now rewrite app_nil_r|].
    split; [intros f []|]. split; [lia|]. split; auto.
  - unfold track_all. cbn [fold_left].
    fold (track_all sha256_hex pid now fs (track_step sha256_hex pid now db f)).
    pose proof (upsert_spec (path_text (fst f)) (sha256_hex (snd f)) pid now db) as Hstep.
    cbn zeta in Hstep. fold (track_step sha256_hex pid now db f) in Hstep.
    destruct Hstep as ((a1 & Hk1 & Hn1) & Hin1 & _ & _ & _ & Hle1 & Hseq1 & Hint1).
    specialize (IH (track_step sha256_hex pid now db f)). cbn zeta in IH.
    destruct IH as ((a2 & Hk2 & Hn2) & Hin2 & Hle2 & Hseq2 & Hint2).
    assert (Hgrow : forall t, In t (List.map f_path (files db)) ->
                              In t (List.map f_path (files (track_step sha256_hex pid now db f)))).
    { intros t Ht. apply in_map_iff in Ht. destruct Ht as (r & <- & Hr).
      apply (in_map file_key) in Hr.
      assert (Hr' : In (file_key r) (List.map file_key
                                       (files (track_step sha256_hex pid now db f)))).
      { rewrite Hk1. apply in_or_app. now left. }
      apply in_map_iff in Hr'. destruct Hr' as (g & Hg & Hgin).
      unfold file_key in Hg. injection Hg as Hid Hpid Hpath.
      rewrite <- Hpath. now apply in_map. }
    split; [|split; [|split; [|split]]].
    + exists (a1 ++ a2). split; [now rewrite Hk2, Hk1, app_assoc|].
      intros Hall. rewrite Hn1 by (apply Hall; now left).
      rewrite Hn2; [reflexivity|]. intros g Hg. apply Hgrow, Hall. now right.
    + intros g [<-|Hg]; [|now apply Hin2].
      apply in_map_iff in Hin1. destruct Hin1 as (r & Hr & Hrin).
      apply (in_map file_key) in Hrin.
      assert (Hr' : In (file_key r)
                      (List.map file_key
                         (files (track_all sha256_hex pid now fs
                                   (track_step sha256_hex pid now db f))))).
      { rewrite Hk2. apply in_or_app. now left. }
      apply in_map_iff in Hr'. destruct Hr' as (g & Hg & Hgin).
      unfold file_key in Hg. injection Hg as Hid Hpid Hpath.
      rewrite <- Hr, <- Hpath. now apply in_map.
    + lia.
    + intros Hall. rewrite Hseq2; [apply Hseq1, Hall; now left|].
      intros g Hg. apply Hgrow, Hall. now right.
    + auto.
Qed.

End Store.

Section Integrity.

Variable sha256_hex : string -> string.
Variable RegExp_test : string -> string -> option bool.

Local Abbreviation trackFiles := (Snapshot.trackFiles sha256_hex RegExp_test).
Local Abbreviation createSnapshot := (Snapshot.createSnapshot sha256_hex RegExp_test).

(** The store after a run of [trackFiles]. *)
Lemma track_runs (project_err : bool) (now : Z) (pr : Project)
    (d' : node) (db db' : Db) (log : list event) :
  trackFiles project_err now pr = Done d' (Some db') log ->
  store pr = Some db ->
  d' = disk pr
  /\ ((db' = db /\ ~ In TrackingCompleted log)
      \/ exists project es rules,
           select_project (name pr) db = Some project
           /\ disk pr = Dir es
           /\ loadIgnoreRules (disk pr) = Some rules
           /\ In TrackingCompleted log
           /\ db' = track_all sha256_hex (p_id project) now
                      (entries_tracked (Snapshot.some_ignores RegExp_test rules) [] es) db).
Proof.
  intros Hrun Hs.
  destruct (trackFiles_Done _ _ _ _ _ _ _ _ Hrun) as (db0 & rules & Hs0 & Hr & Hd & Hcases).
  rewrite Hs in Hs0. inversion Hs0; subst db0. split; [exact Hd|].
  destruct Hcases as [(Hdb & Hno & _)|(project & es & evs & Hp & Hes & Hdb & Hlog & _)].
  - left. now split.
  - right. exists project, es, rules. repeat (split; [assumption|]).
    split; [|exact Hdb]. rewrite Hlog. right. apply in_or_app. right. now left.
Qed.

Lemma insert_snapshot_intact (pid : Z) (description : string) (now : Z) (db : Db) :
  intact db -> intact (insert_snapshot pid description now db).
Proof.
  intros [H1 H2 H3 H4 H5 H6 H7]. constructor; simpl; try assumption.
  - rewrite map_app. apply NoDup_snoc; [assumption|]. simpl.
    intros Hin. apply in_map_iff in Hin. destruct Hin as (s & Hs & Hin).
    specialize (H5 s Hin). lia.
  - intros s Hs. apply in_app_or in Hs. destruct Hs as [Hs|[<-|[]]].
    + specialize (H5 s Hs). lia.
    + simpl. lia.
  - intros sf Hsf. destruct (H6 sf Hsf) as (s & Hs & Hid).
    exists s. split; [apply in_or_app; now left|exact Hid].
Qed.

Lemma insert_snapshot_file_intact (sid fid : Z) (content : string) (db : Db) :
  intact db ->
  (exists s, In s (snapshots db) /\ s_id s = sid) ->
  (exists f, In f (files db) /\ f_id f = fid) ->
  intact (insert_snapshot_file sid fid content db).
Proof.
  intros [H1 H2 H3 H4 H5 H6 H7] Hs Hf. constructor; simpl; try assumption.
  - intros sf Hsf. apply in_app_or in Hsf. destruct Hsf as [Hsf|[<-|[]]]; auto.
  - intros sf Hsf. apply in_app_or in Hsf. destruct Hsf as [Hsf|[<-|[]]]; auto.
Qed.

Lemma capture_files_intact (sid : Z) (rows : list FileRow) :
  forall w w',
    Snapshot.capture_files sid rows w = Some w' ->
    intact (w_db w) ->
    (exists s, In s (snapshots (w_db w)) /\ s_id s = sid) ->
    (forall r, In r rows -> exists f, In f (files (w_db w)) /\ f_id f = f_id r) ->
    intact (w_db w').
Proof.
  induction rows as [|r rows IH]; intros w w' H Hint Hs Hrows; simpl in H.
  - inversion H; subst; exact Hint.
  - destruct (existsSync (join_cwd (f_path r)) (w_disk w)).
    + destruct (readFileSync (join_cwd (f_path r)) (w_disk w)) as [content|];
        [|discriminate].
      apply (IH _ _ H); simpl.
      * apply insert_snapshot_file_intact; auto. apply Hrows. now left.
      * exact Hs.
      * intros x Hx. apply Hrows. now right.
    + apply (IH _ _ H); simpl.
      * apply insert_snapshot_file_intact; auto. apply Hrows. now left.
      * exact Hs.
      * intros x Hx. apply Hrows. now right.
Qed.

(** The store after a run of [createSnapshot]. *)
Lemma create_runs (errs : Snapshot.create_errors) (description : string) (now : Z)
    (pr : Project) (d' : node) (db db' : Db) (log : list event) :
  createSnapshot errs description now pr = Done d' (Some db') log ->
  store pr = Some db ->
  exists d1 db1 log1,
    trackFiles (Snapshot.track_project_err errs) now pr = Done d1 (Some db1) log1
    /\ d' = d1
    /\ ((db' = db1 /\ forall sid, ~ In (SnapshotCreated sid) log)
        \/ exists project,
             select_project (name pr) db1 = Some project
             /\ In (SnapshotCreated (seq_snapshots db1 + 1)) log
             /\ ((db' = insert_snapshot (p_id project) description now db1
                  /\ In FilesError log)
                 \/ exists w',
                      Snapshot.capture_files (seq_snapshots db1 + 1)
                        (Snapshot.project_files (p_id project)
                           (insert_snapshot (p_id project) description now db1))
                        {| w_disk := d1;
                           w_db := insert_snapshot (p_id project) description now db1;
                           w_log := log1 ++ [SnapshotCreated (seq_snapshots db1 + 1)] |}
                      = Some w'
                      /\ db' = w_db w')).
Proof.
  unfold Snapshot.createSnapshot, not_initialized, finish. intros Hrun Hs.
  rewrite Hs in Hrun.
  destruct (Snapshot.trackFiles sha256_hex RegExp_test
              (Snapshot.track_project_err errs) now pr)
    as [d1 [db1|] log1|] eqn:Ht; try discriminate.
  destruct (trackFiles_frame _ _ _ _ _ _ _ _ _ Ht Hs)
    as (Hd1 & Hpr & Hsn & Hsf & Hseq & Hlog1).
  exists d1, db1, log1. split; [reflexivity|].
  assert (Hearly : forall e, (forall sid, e <> SnapshotCreated sid) ->
            Done d1 (Some db1) (log1 ++ [e]) = Done d' (Some db') log ->
            d' = d1 /\ ((db' = db1 /\ forall sid, ~ In (SnapshotCreated sid) log))).
  { intros e He Heq. inversion Heq; subst d' db' log. split; [reflexivity|].
    split; [reflexivity|]. intros sid Hin. apply in_app_or in Hin.
    destruct Hin as [Hin|[Hin|[]]].
    - apply (tracker_event_In _ _ Hlog1) in Hin. discriminate.
    - now apply (He sid). }
  simpl in Hrun.
  destruct (Snapshot.create_project_err errs).
  { destruct (Hearly ProjectError ltac:(discriminate) Hrun) as [? ?]. split; auto. }
  destruct (select_project (name pr) db1) as [project|] eqn:Hp.
  2:{ destruct (Hearly NoProject ltac:(discriminate) Hrun) as [? ?]. split; auto. }
  destruct (Snapshot.insert_snapshot_err errs).
  { destruct (Hearly SnapshotError ltac:(discriminate) Hrun) as [? ?]. split; auto. }
  clear Hearly.
  destruct (Snapshot.select_files_err errs).
  - inversion Hrun; subst d' db' log. clear Hrun. simpl. split; [reflexivity|].
    right. exists project. split; [reflexivity|]. split.
    + apply in_or_app. left. apply in_or_app. right. now left.
    + left. split; [reflexivity|]. apply in_or_app. right. now left.
  - match type of Hrun with
    | match Snapshot.capture_files ?sid ?rows ?w with _ => _ end = _ =>
        destruct (Snapshot.capture_files sid rows w) as [w'|] eqn:Hcap; [|discriminate];
        destruct (capture_files_spec _ _ _ _ Hcap)
          as (Hd & _ & _ & _ & (evs & Hlog & _) & _)
    end.
    inversion Hrun; subst d' db' log. clear Hrun. simpl in *. split; [exact Hd|].
    right. exists project. split; [reflexivity|]. split.
    + rewrite Hlog. apply in_or_app. left. apply in_or_app. right. now left.
    + right. exists w'. split; [exact Hcap|reflexivity].
Qed.

Lemma track_intact (project_err : bool) (now : Z) (pr : Project)
    (d' : node) (db db' : Db) (log : list event) :
  trackFiles project_err now pr = Done d' (Some db') log ->
  store pr = Some db -> intact db -> intact db'.
Proof.
  intros Hrun Hs Hint. destruct (track_runs _ _ _ _ _ _ _ Hrun Hs) as (_ & [(-> & _)|H]);
    [exact Hint|].
  destruct H as (project & es & rules & _ & _ & _ & _ & ->).
  now apply track_all_spec.
Qed.

Lemma create_intact (errs : Snapshot.create_errors) (description : string) (now : Z)
    (pr : Project) (d' : node) (db db' : Db) (log : list event) :
  createSnapshot errs description now pr = Done d' (Some db') log ->
  store pr = Some db -> intact db -> intact db'.
Proof.
  intros Hrun Hs Hint.
  destruct (create_runs _ _ _ _ _ _ _ _ Hrun Hs) as (d1 & db1 & log1 & Ht & _ & Hcases).
  pose proof (track_intact _ _ _ _ _ _ _ Ht Hs Hint) as Hint1.
  destruct Hcases as [(-> & _)|(project & _ & _ & [(-> & _)|(w' & Hcap & ->)])].
  - exact Hint1.
  - now apply insert_snapshot_intact.
  - apply (capture_files_intact _ _ _ _ Hcap); simpl.
    + now apply insert_snapshot_intact.
    + eexists. split; [apply in_or_app; right; left; reflexivity|reflexivity].
    + intros r Hr. unfold Snapshot.project_files in Hr. apply filter_In in Hr.
      exists r. split; [apply Hr|reflexivity].
Qed.

Lemma delete_rows_intact (sid : Z) (db : Db) :
  intact db ->
  intact (delete_snapshot_files sid db)
  /\ intact (delete_snapshot_row sid (delete_snapshot_files sid db)).
Proof.
  intros [H1 H2 H3 H4 H5 H6 H7].
  assert (Hfirst : intact (delete_snapshot_files sid db)).
  { constructor; simpl; try assumption.
    - intros sf Hsf. apply filter_In in Hsf. apply H6, Hsf.
    - intros sf Hsf. apply filter_In in Hsf. apply H7, Hsf. }
  split; [exact Hfirst|]. constructor; simpl; try assumption.
  - apply NoDup_map_filter. exact H4.
  - intros s Hs. apply filter_In in Hs. apply H5, Hs.
  - intros sf Hsf. apply filter_In in Hsf. destruct Hsf as [Hsf Hne].
    destruct (H6 sf Hsf) as (s & Hs & Hid). exists s. split; [|exact Hid].
    apply filter_In. split; [exact Hs|]. now rewrite Hid.
  - intros sf Hsf. apply filter_In in Hsf. apply H7, Hsf.
Qed.

(** X10.  Whatever statement fails, a command that ends leaves the store
    intact: [trackFiles], [createSnapshot] and the two [deleteSnapshot]
    keep the paths of the File rows distinct, the ids distinct and below
    their counters, and never leave a SnapshotFile row without its Snapshot
    row or its File row, although no transaction and no enforced foreign
    key protects them. *)
Theorem commands_keep_store_intact (track_err : bool) (cerrs : Snapshot.create_errors)
    (derrs : Snapshot.delete_errors) (description : string) (now : Z)
    (answer : nat) (confirm : bool) (pr : Project) (d' : node) (db db' : Db)
    (log : list event) :
  trackFiles track_err now pr = Done d' (Some db') log
  \/ createSnapshot cerrs description now pr = Done d' (Some db') log
  \/ Snapshot.deleteSnapshot derrs answer pr = Done d' (Some db') log
  \/ Delete.deleteSnapshot derrs answer confirm pr = Done d' (Some db') log ->
  store pr = Some db ->
  intact db -> intact db'.
Proof.
  intros [Hrun|[Hrun|[Hrun|Hrun]]] Hs Hint.
  - eapply track_intact; eauto.
  - eapply create_intact; eauto.
  - destruct (snapshot_delete_runs _ _ _ _ _ _ _ Hrun Hs)
      as [(-> & _)|(sid & [(_ & ->)|(_ & ->)])];
      [exact Hint|apply delete_rows_intact, Hint|apply delete_rows_intact, Hint].
  - destruct (delete_delete_runs _ _ _ _ _ _ _ _ Hrun Hs)
      as [(-> & _)|(sid & [(_ & ->)|(_ & ->)])];
      [exact Hint|apply delete_rows_intact, Hint|apply delete_rows_intact, Hint].
Qed.

Lemma track_keys (project_err : bool) (now : Z) (pr : Project)
    (d' : node) (db db' : Db) (log : list event) :
  trackFiles project_err now pr = Done d' (Some db') log ->
  store pr = Some db ->
  exists added,
    List.map file_key (files db') = List.map file_key (files db) ++ added.
Proof.
  intros Hrun Hs. destruct (track_runs _ _ _ _ _ _ _ Hrun Hs) as (_ & [(-> & _)|H]).
  - exists []. now rewrite app_nil_r.
  - destruct H as (project & es & rules & _ & _ & _ & _ & ->).
    destruct (track_all_spec sha256_hex (p_id project) now
                (entries_tracked (Snapshot.some_ignores RegExp_test rules) [] es) db)
      as ((added & Hk & _) & _).
    now exists added.
Qed.

(** X11.  [trackFiles] never removes or renumbers a File row: the rows
    there keep their id, project and path, in their order, also when the
    file is gone from the disk or is now ignored; rows are only added after
    them. *)
Theorem track_keeps_rows (project_err : bool) (now : Z) (pr : Project)
    (d' : node) (db db' : Db) (log : list event) :
  trackFiles project_err now pr = Done d' (Some db') log ->
  store pr = Some db ->
  exists added,
    List.map file_key (files db') = List.map file_key (files db) ++ added.
Proof. apply track_keys. Qed.

(** X12.  A second [trackFiles] over the same disk inserts nothing: after a
    run that completed, another run leaves the ids, projects and paths of
    the File rows and the counter of the table as they are. *)
Theorem track_again_adds_nothing (e1 e2 : bool) (now1 now2 : Z) (pr : Project)
    (d1 d2 : node) (db1 db2 : Db) (log1 log2 : list event) :
  trackFiles e1 now1 pr = Done d1 (Some db1) log1 ->
  In TrackingCompleted log1 ->
  trackFiles e2 now2 {| name := name pr; disk := d1; store := Some db1 |}
  = Done d2 (Some db2) log2 ->
  List.map file_key (files db2) = List.map file_key (files db1)
  /\ seq_files db2 = seq_files db1.
Proof.
  intros Hrun1 Hdone Hrun2.
  destruct (trackFiles_Done _ _ _ _ _ _ _ _ Hrun1) as (db & rules0 & Hs & _).
  destruct (track_runs _ _ _ _ _ _ _ Hrun1 Hs) as (Hd1 & [(_ & Hno)|H1]);
    [contradiction|].
  destruct H1 as (project & es & rules & Hp & Hes & Hr & _ & Hdb1).
  destruct (track_runs _ _ _ _ _ _ _ Hrun2 eq_refl) as (_ & [(-> & _)|H2]);
    [split; reflexivity|].
  destruct H2 as (project2 & es2 & rules2 & Hp2 & Hes2 & Hr2 & _ & Hdb2).
  simpl in Hp2, Hes2, Hr2. rewrite Hd1 in Hes2, Hr2.
  rewrite Hes in Hes2. inversion Hes2; subst es2.
  rewrite Hr in Hr2. inversion Hr2; subst rules2.
  set (fs := entries_tracked (Snapshot.some_ignores RegExp_test rules) [] es) in *.
  destruct (track_all_spec sha256_hex (p_id project) now1 fs db)
    as (_ & Hall & _).
  cbn zeta in Hall. rewrite <- Hdb1 in Hall.
  destruct (track_all_spec sha256_hex (p_id project2) now2 fs db1)
    as ((added & Hk & Hnone) & _ & _ & Hseq & _).
  cbn zeta in Hk, Hnone, Hseq. rewrite <- Hdb2 in Hk, Hseq.
  rewrite (Hnone Hall), app_nil_r in Hk. split; [exact Hk|exact (Hseq Hall)].
Qed.

End Integrity.

(** *** What a snapshot holds does not change *)

Lemma pick_keys (fileId : Z) (content : option string) (rows : list FileRow) :
  List.map (fun f => (f_path f, content))
    (List.filter (fun f => Z.eqb (f_id f) fileId) rows)
  = pick fileId content (List.map file_key rows).
Proof.
  unfold pick. induction rows as [|r rows IH]; [reflexivity|]. simpl.
  destruct (Z.eqb (f_id r) fileId); simpl; now rewrite IH.
Qed.

Lemma pick_none (fileId : Z) (content : option string) (keys : list (Z * Z * string)) :
  ~ In fileId (List.map (fun k => fst (fst k)) keys) -> pick fileId content keys = [].
Proof.
  unfold pick. induction keys as [|k keys IH]; [reflexivity|]. simpl. intros H.
  destruct (Z.eqb (fst (fst k)) fileId) eqn:E.
  - apply Z.eqb_eq in E. exfalso. apply H. now left.
  - apply IH. intros Hin. apply H. now right.
Qed.

Lemma flat_map_ext_in {A B : Type} (f g : A -> list B) (l : list A) :
  (forall x, In x l -> f x = g x) -> flat_map f l = flat_map g l.
Proof.
  induction l as [|x l IH]; [reflexivity|]. intros H. simpl.
  rewrite (H x) by now left. rewrite IH; [reflexivity|].
  intros y Hy. apply H. now right.
Qed.

Lemma NoDup_app_disjoint {A : Type} (l1 l2 : list A) (x : A) :
  List.NoDup (l1 ++ l2) -> In x l1 -> ~ In x l2.
Proof.
  induction l1 as [|y l1 IH]; simpl; intros Hnd Hin; [contradiction|].
  inversion Hnd as [|? ? Hy Hrest]; subst. destruct Hin as [->|Hin].
  - intros H2. apply Hy. apply in_or_app. now right.
  - now apply IH.
Qed.

(** The rows of a snapshot join the same File rows after rows were added
    to the table. *)
Lemma contents_kept (sid : Z) (db db' : Db) (added : list (Z * Z * string)) :
  List.NoDup (List.map f_id (files db')) ->
  List.map file_key (files db') = List.map file_key (files db) ++ added ->
  files_of_snapshot sid db' = files_of_snapshot sid db ->
  (forall sf, In sf (snapshot_files db) ->
              exists f, In f (files db) /\ f_id f = sf_file_id sf) ->
  snapshot_contents sid db' = snapshot_contents sid db.
Proof.
  intros Hnd Hk Hsf Hfk. unfold snapshot_contents.
  unfold files_of_snapshot in Hsf. rewrite Hsf.
  apply flat_map_ext_in. intros sf Hin. apply filter_In in Hin.
  destruct Hin as [Hin _]. rewrite !pick_keys, Hk.
  unfold pick at 1. rewrite List.filter_app, map_app.
  fold (pick (sf_file_id sf) (sf_content sf) (List.map file_key (files db))).
  fold (pick (sf_file_id sf) (sf_content sf) added).
  rewrite (pick_none _ _ added); [now rewrite app_nil_r|].
  destruct (Hfk sf Hin) as (f & Hf & Hid).
  assert (Hids : List.map f_id (files db')
                 = List.map f_id (files db) ++ List.map (fun k => fst (fst k)) added).
  { apply (f_equal (List.map (fun k : Z * Z * string => fst (fst k)))) in Hk.
    rewrite map_app, !List.map_map in Hk. exact Hk. }
  rewrite Hids in Hnd. apply (NoDup_app_disjoint _ _ _ Hnd).
  rewrite <- Hid. now apply in_map.
Qed.

Section Immutable.

Variable sha256_hex : string -> string.
Variable RegExp_test : string -> string -> option bool.

Lemma track_contents (project_err : bool) (now : Z) (pr : Project)
    (d' : node) (db db' : Db) (log : list event) (sid : Z) :
  Snapshot.trackFiles sha256_hex RegExp_test project_err now pr = Done d' (Some db') log ->
  store pr = Some db -> intact db ->
  snapshot_contents sid db' = snapshot_contents sid db.
Proof.
  intros Hrun Hs Hint.
  destruct (track_keys _ _ _ _ _ _ _ _ _ Hrun Hs) as (added & Hk).
  destruct (trackFiles_frame _ _ _ _ _ _ _ _ _ Hrun Hs) as (_ & _ & _ & Hsf & _).
  apply (contents_kept sid db db' added).
  - apply (track_intact _ _ _ _ _ _ _ _ _ Hrun Hs Hint).
  - exact Hk.
  - unfold files_of_snapshot. now rewrite Hsf.
  - apply Hint.
Qed.

(** X13.  What an existing snapshot holds does not change: after
    [trackFiles], and after [createSnapshot] for every snapshot but the new
    one, [snapshot_contents], which the revert and diff commands read, is
    the same list of paths and contents, whatever happened to the files. *)
Theorem old_snapshots_unchanged (track_err : bool) (errs : Snapshot.create_errors)
    (description : string) (now : Z) (pr : Project) (d' : node) (db db' : Db)
    (log : list event) (sid : Z) :
  Snapshot.trackFiles sha256_hex RegExp_test track_err now pr = Done d' (Some db') log
  \/ (Snapshot.createSnapshot sha256_hex RegExp_test errs description now pr
      = Done d' (Some db') log
      /\ sid <> seq_snapshots db + 1) ->
  store pr = Some db ->
  intact db ->
  snapshot_contents sid db' = snapshot_contents sid db.
Proof.
  intros [Hrun|[Hrun Hsid]] Hs Hint; [eapply track_contents; eauto|].
  destruct (create_runs _ _ _ _ _ _ _ _ _ _ Hrun Hs) as (d1 & db1 & log1 & Ht & _ & Hcases).
  rewrite <- (track_contents _ _ _ _ _ _ _ sid Ht Hs Hint).
  destruct (trackFiles_frame _ _ _ _ _ _ _ _ _ Ht Hs) as (_ & _ & _ & _ & Hseq & _).
  destruct Hcases as [(-> & _)|(project & _ & _ & [(-> & _)|(w' & Hcap & ->)])];
    try reflexivity.
  destruct (capture_files_spec _ _ _ _ Hcap)
    as (_ & _ & Hf & _ & _ & added & Hadd & _ & _ & Hnew).
  simpl in Hf, Hadd. unfold snapshot_contents. rewrite Hf, Hadd, List.filter_app.
  replace (List.filter (fun sf => Z.eqb (sf_snapshot_id sf) sid) added) with (@nil SnapshotFileRow);
    [now rewrite app_nil_r|].
  symmetry. clear Hadd. induction added as [|sf added IH]; [reflexivity|]. simpl.
  rewrite (Hnew sf) by now left. rewrite Hseq.
  destruct (Z.eqb (seq_snapshots db + 1) sid) eqn:E;
    [apply Z.eqb_eq in E; congruence|].
  apply IH. intros x Hx. apply Hnew. now right.
Qed.

End Immutable.

(** *** deleteSnapshot *)

Lemma prompt_list_In {A : Type} (answer : nat) (first : A) (others : list A) :
  In (prompt_list answer first others) (first :: others).
Proof.
  unfold prompt_list. destruct (Nat.lt_ge_cases answer (List.length (first :: others))).
  - now apply nth_In.
  - rewrite nth_overflow by assumption. now left.
Qed.

Lemma ordered_In (s : SnapshotRow) (pid : Z) (db : Db) :
  In s (order_by_created_at (project_snapshots pid db)) ->
  In s (snapshots db) /\ s_project_id s = pid.
Proof.
  intros Hin. apply (Permutation_in _ (order_by_created_at_perm _)) in Hin.
  unfold project_snapshots in Hin. apply filter_In in Hin. destruct Hin as [Hin Hp].
  apply Z.eqb_eq in Hp. now split.
Qed.

(** X14.  The snapshot that commands/delete.js deletes is one of the current
    project, and the one the prompt offered; without the confirmation
    nothing is deleted. *)
Theorem delete_own_snapshot (errs : Snapshot.delete_errors) (answer : nat)
    (confirm : bool) (pr : Project) (d' : node) (db db' : Db) (log : list event) :
  Delete.deleteSnapshot errs answer confirm pr = Done d' (Some db') log ->
  store pr = Some db ->
  (confirm = false -> db' = db)
  /\ forall sid, In (SnapshotDeleted sid) log ->
       confirm = true
       /\ chosen_snapshot answer pr db = Some sid
       /\ exists project s,
            select_project (name pr) db = Some project
            /\ In s (snapshots db) /\ s_id s = sid
            /\ s_project_id s = p_id project.
Proof.
  unfold Delete.deleteSnapshot, chosen_snapshot, not_initialized, finish.
  intros Hrun Hs. rewrite Hs in Hrun.
  assert (Hstop : forall e, (forall sid, e <> SnapshotDeleted sid) ->
            Done (w_disk (emit e (start pr db))) (Some (w_db (emit e (start pr db))))
              (w_log (emit e (start pr db))) = Done d' (Some db') log ->
            (confirm = false -> db' = db)
            /\ forall sid, In (SnapshotDeleted sid) log ->
                 confirm = true
                 /\ match select_project (name pr) db with
                    | Some project =>
                        match order_by_created_at (project_snapshots (p_id project) db) with
                        | first :: others => Some (s_id (prompt_list answer first others))
                        | [] => None
                        end
                    | None => None
                    end = Some sid
                 /\ exists project s,
                      select_project (name pr) db = Some project
                      /\ In s (snapshots db) /\ s_id s = sid
                      /\ s_project_id s = p_id project).
  { intros e He Heq. simpl in Heq. inversion Heq; subst. split; [reflexivity|].
    intros sid [Hin|[]]. now destruct (He sid). }
  destruct (Snapshot.project_err errs); [apply (Hstop ProjectError); [discriminate|exact Hrun]|].
  destruct (select_project (name pr) db) as [project|] eqn:Hp;
    [|apply (Hstop ProjectError); [discriminate|exact Hrun]].
  destruct (Snapshot.snapshots_err errs);
    [apply (Hstop NoSnapshots); [discriminate|exact Hrun]|].
  destruct (order_by_created_at (project_snapshots (p_id project) db))
    as [|first others] eqn:Ho;
    [apply (Hstop NoSnapshots); [discriminate|exact Hrun]|].
  destruct confirm.
  2:{ apply (Hstop DeletionCanceled); [discriminate|exact Hrun]. }
  clear Hstop. split; [discriminate|]. intros sid Hin.
  pose proof (delete_cascade_spec errs (s_id (prompt_list answer first others)) pr db)
    as Hc. cbn zeta in Hc. destruct Hc as (_ & Hc).
  inversion Hrun; subst. clear Hrun.
  assert (Hsid : sid = s_id (prompt_list answer first others)).
  { destruct Hc as [(Hl & _)|[(Hl & _)|(Hl & _)]]; rewrite Hl in Hin;
      destruct Hin as [Hin|[]]; now inversion Hin. }
  subst sid. split; [reflexivity|]. split; [reflexivity|].
  exists project, (prompt_list answer first others).
  split; [reflexivity|].
  pose proof (prompt_list_In answer first others) as Hpl. rewrite <- Ho in Hpl.
  destruct (ordered_In _ _ _ Hpl) as [H1 H2]. auto.
Qed.

(** ** commands/history.js *)

Lemma insert_by_time_In (s t : SnapshotRow) (l : list SnapshotRow) :
  In t (insert_by_time s l) <-> t = s \/ In t l.
Proof.
  induction l as [|x l IH]; simpl.
  - split; [intros [H|[]]; auto|intros [H|[]]; auto].
  - destruct (Z.leb (s_created_at s) (s_created_at x)); simpl.
    + split; intros [H|H]; auto.
    + rewrite IH. split.
      * intros [H|[H|H]]; auto.
      * intros [H|[H|H]]; auto.
Qed.

Lemma insert_by_time_sorted (s : SnapshotRow) (l : list SnapshotRow) :
  by_time l -> by_time (insert_by_time s l).
Proof.
  induction l as [|x l IH]; simpl; [intros _; split; [intros t []|exact I]|].
  intros [Hx Hl]. destruct (Z.leb (s_created_at s) (s_created_at x)) eqn:E; simpl.
  - apply Z.leb_le in E. split; [|split; assumption].
    intros t [<-|Ht]; [exact E|]. specialize (Hx t Ht). lia.
  - apply Z.leb_gt in E. split; [|now apply IH].
    intros t Ht. apply insert_by_time_In in Ht. destruct Ht as [->|Ht]; [lia|].
    now apply Hx.
Qed.

Lemma order_sorted (l : list SnapshotRow) : by_time (order_by_created_at l).
Proof.
  induction l as [|s l IH]; simpl; [exact I|]. now apply insert_by_time_sorted.
Qed.

(** X15.  [showHistory] and [listSnapshots] show the same rows: all the
    snapshots of the current project and no other, each once, those created
    earlier first; with no snapshot they print 'No snapshots found.' *)
Theorem history_lists_snapshots (pr : Project) (db : Db) (project : ProjectRow) :
  store pr = Some db ->
  select_project (name pr) db = Some project ->
  exists rows,
    Permutation rows (project_snapshots (p_id project) db)
    /\ by_time rows
    /\ History.showHistory no_history_error pr
       = match rows with
         | [] => [History.NoSnapshotsFound]
         | _ => History.HistoryHeader (name pr) :: List.map History.entry rows
         end
    /\ History.listSnapshots no_history_error pr
       = match rows with
         | [] => [History.NoSnapshotsFound]
         | _ => History.ListHeader :: List.map History.entry rows
         end.
Proof.
  intros Hs Hp. exists (order_by_created_at (project_snapshots (p_id project) db)).
  split; [apply order_by_created_at_perm|]. split; [apply order_sorted|].
  unfold History.showHistory, History.listSnapshots, History.show. rewrite Hs, Hp. simpl.
  destruct (order_by_created_at (project_snapshots (p_id project) db)); split; reflexivity.
Qed.

Lemma history_entries (pr : Project) (db : Db) (project : ProjectRow)
    (id : Z) (description : string) (created_at : Z) :
  store pr = Some db ->
  select_project (name pr) db = Some project ->
  (In (History.Entry id description created_at) (History.showHistory no_history_error pr)
   <-> In {| s_id := id; s_project_id := p_id project; s_description := description;
             s_created_at := created_at |} (snapshots db)).
Proof.
  intros Hs Hp. unfold History.showHistory, History.show. rewrite Hs, Hp. simpl.
  pose proof (order_by_created_at_perm (project_snapshots (p_id project) db)) as Hperm.
  assert (Hrows : In (History.Entry id description created_at)
                    (List.map History.entry
                       (order_by_created_at (project_snapshots (p_id project) db)))
                  <-> In {| s_id := id; s_project_id := p_id project;
                            s_description := description; s_created_at := created_at |}
                        (snapshots db)).
  { rewrite in_map_iff. split.
    - intros (s & He & Hin). apply (Permutation_in _ Hperm) in Hin.
      unfold project_snapshots in Hin. apply filter_In in Hin. destruct Hin as [Hin Hpid].
      apply Z.eqb_eq in Hpid. destruct s as [i p de t]. simpl in *.
      unfold History.entry in He. simpl in He. inversion He; subst. exact Hin.
    - intros Hin. eexists. split; [|apply (Permutation_in _ (Permutation_sym Hperm));
                                     unfold project_snapshots; apply filter_In;
                                     split; [exact Hin|simpl; apply Z.eqb_refl]].
      reflexivity. }
  destruct (order_by_created_at (project_snapshots (p_id project) db)) as [|s l] eqn:Ho.
  - rewrite <- Hrows. simpl. split; [intros [H|[]]; discriminate|intros []].
  - rewrite <- Hrows. split.
    + intros [H|H]; [discriminate|exact H].
    + intros H. now right.
Qed.

Section HistoryAfter.

Variable sha256_hex : string -> string.
Variable RegExp_test : string -> string -> option bool.

(** X16.  A snapshot that [createSnapshot] reports as created is in the
    history afterwards, with its id, the description given and the time of
    the run. *)
Theorem history_after_create (errs : Snapshot.create_errors) (description : string)
    (now : Z) (pr : Project) (d' : node) (db db' : Db) (log : list event) :
  Snapshot.createSnapshot sha256_hex RegExp_test errs description now pr
  = Done d' (Some db') log ->
  store pr = Some db ->
  In (SnapshotCreated (seq_snapshots db + 1)) log ->
  In (History.Entry (seq_snapshots db + 1) description now)
    (History.showHistory no_history_error (project_after pr d' db')).
Proof.
  intros Hrun Hs Hin.
  destruct (create_runs _ _ _ _ _ _ _ _ _ _ Hrun Hs) as (d1 & db1 & log1 & Ht & _ & Hcases).
  destruct (trackFiles_frame _ _ _ _ _ _ _ _ _ Ht Hs) as (_ & Hpr & _ & _ & Hseq & _).
  destruct Hcases as [(_ & Hno)|(project & Hp & _ & Hdb)]; [now destruct (Hno _ Hin)|].
  assert (Hrows : projects db' = projects db1
                  /\ snapshots db'
                     = snapshots db1 ++ [{| s_id := seq_snapshots db1 + 1;
                                            s_project_id := p_id project;
                                            s_description := description;
                                            s_created_at := now |}]).
  { destruct Hdb as [(-> & _)|(w' & Hcap & ->)]; [split; reflexivity|].
    destruct (capture_files_spec _ _ _ _ Hcap) as (_ & Hp' & _ & Hsn & _).
    split; assumption. }
  destruct Hrows as [Hpr' Hsn].
  apply (history_entries (project_after pr d' db') db' project); [reflexivity| |].
  - simpl. unfold select_project in *. now rewrite Hpr'.
  - rewrite Hsn, <- Hseq. apply in_or_app. right. now left.
Qed.

End HistoryAfter.

(** X17.  A snapshot that [deleteSnapshot] (of either file) reports as
    deleted is no longer in the history. *)
Theorem history_after_delete (errs : Snapshot.delete_errors) (answer : nat)
    (confirm : bool) (pr : Project) (d' : node) (db db' : Db) (log : list event)
    (sid : Z) (description : string) (created_at : Z) :
  Snapshot.deleteSnapshot errs answer pr = Done d' (Some db') log
  \/ Delete.deleteSnapshot errs answer confirm pr = Done d' (Some db') log ->
  store pr = Some db ->
  In (SnapshotDeleted sid) log ->
  ~ In (History.Entry sid description created_at)
      (History.showHistory no_history_error (project_after pr d' db')).
Proof.
  intros Hrun Hs Hin.
  assert (Hdb : exists x, db' = delete_snapshot_row x (delete_snapshot_files x db)
                          /\ x = sid).
  { assert (Hcases : (db' = db /\ forall e, In e log ->
                         e <> DeleteSnapshotError /\ forall sid, e <> SnapshotDeleted sid)
                     \/ exists sid,
                          (log = [DeleteSnapshotError] /\ db' = delete_snapshot_files sid db)
                          \/ (log = [SnapshotDeleted sid]
                              /\ db' = delete_snapshot_row sid (delete_snapshot_files sid db))).
    { destruct Hrun as [Hrun|Hrun];
        [eapply snapshot_delete_runs|eapply delete_delete_runs]; eauto. }
    destruct Hcases as [(_ & Hno)|(x & [(Hl & _)|(Hl & Hx)])].
    - destruct (Hno _ Hin) as [_ H]. now destruct (H sid).
    - rewrite Hl in Hin. destruct Hin as [H|[]]; discriminate.
    - rewrite Hl in Hin. destruct Hin as [H|[]]; inversion H; subst. eauto. }
  destruct Hdb as (x & -> & ->).
  unfold History.showHistory, History.show. simpl.
  destruct (select_project (name pr) _) as [project|]; [|intros [H|[]]; discriminate].
  set (rows := order_by_created_at _).
  assert (Hrows : ~ In (History.Entry sid description created_at)
                      (List.map History.entry rows)).
  { intros H. apply in_map_iff in H. destruct H as (s & He & Hs').
    apply ordered_In in Hs'. destruct Hs' as [Hs' _]. simpl in Hs'.
    apply filter_In in Hs'. destruct Hs' as [_ Hne].
    unfold History.entry in He. inversion He as [[Hid Hd Ht]].
    rewrite Hid, Z.eqb_refl in Hne. discriminate. }
  destruct rows; [intros [H|[]]; discriminate|].
  intros [H|H]; [discriminate|contradiction].
Qed.

(** ** commands/diff.js: the order of the two snapshots, and the filter *)

Lemma prompt_checkbox_map {A B : Type} (f : A -> B) (checked : list bool) :
  forall choices,
    prompt_checkbox checked (List.map f choices)
    = List.map f (prompt_checkbox checked choices).
Proof.
  induction checked as [|c checked IH]; intros [|x choices]; simpl;
    try reflexivity; destruct c; simpl; now rewrite ?IH.
Qed.

Lemma by_time_sublist (l1 l2 : list SnapshotRow) :
  sublist l1 l2 -> by_time l2 -> by_time l1.
Proof.
  induction 1 as [|x l1 l2 Hsub IH|x l1 l2 Hsub IH]; simpl; [auto| |].
  - intros [Hx Hl]. split; [|now apply IH].
    intros t Ht. apply Hx. apply list_elem_of_In. apply (sublist_subseteq _ _ Hsub).
    now apply list_elem_of_In.
  - intros [_ Hl]. now apply IH.
Qed.

(** What [diffSnapshots] prints: no table, or the tables of the two checked
    snapshots. *)
Lemma diff_log_shape (errs : Diff.diff_errors) (checked : list bool)
    (filter : Diff.filter_options) (pr : Project) (d' : node) (s' : option Db)
    (db : Db) (log : list event) :
  Diff.diffSnapshots errs checked filter pr = Done d' s' log ->
  store pr = Some db ->
  (forall e, In e log -> (forall a b, e <> DiffHeader a b)
                         /\ forall p c1 c2, e <> DiffTable p c1 c2)
  \/ exists a b,
       checked_ids checked pr db = [a; b]
       /\ log = DiffHeader a b :: List.map diff_table (diff_rows a b filter db).
Proof.
  intros Hrun Hs. rewrite (diff_runs _ _ _ _ _ Hs) in Hrun.
  injection Hrun as _ _ Hlog. subst log.
  assert (Hone : forall e, (forall a b, e <> DiffHeader a b) ->
                           (forall p c1 c2, e <> DiffTable p c1 c2) ->
                           forall x, In x [e] ->
                                     (forall a b, x <> DiffHeader a b)
                                     /\ forall p c1 c2, x <> DiffTable p c1 c2).
  { intros e H1 H2 x [<-|[]]. now split. }
  destruct (Diff.project_err errs); [left; apply Hone; discriminate|].
  destruct (select_project (name pr) db); [|left; apply Hone; discriminate].
  destruct (Diff.snapshots_err errs); [left; apply Hone; discriminate|].
  destruct (Nat.ltb _ 2); [left; apply Hone; discriminate|].
  destruct (checked_ids checked pr db) as [|a [|b [|c l]]];
    try (left; apply Hone; discriminate).
  destruct (Diff.files_err errs); [left; apply Hone; discriminate|].
  destruct (diff_rows a b filter db) as [|row rows] eqn:Hrows;
    [left; apply Hone; discriminate|].
  right. exists a, b. split; [reflexivity|]. now rewrite Hrows.
Qed.

(** X18.  [diffSnapshots] shows the older of the two checked snapshots on
    the left: the snapshot of the first id in the header was not created
    after that of the second. *)
Theorem diff_older_first (errs : Diff.diff_errors) (checked : list bool)
    (filter : Diff.filter_options) (pr : Project) (d' : node) (s' : option Db)
    (db : Db) (log : list event) (a b : Z) :
  Diff.diffSnapshots errs checked filter pr = Done d' s' log ->
  store pr = Some db ->
  In (DiffHeader a b) log ->
  exists sa sb,
    In sa (snapshots db) /\ s_id sa = a
    /\ In sb (snapshots db) /\ s_id sb = b
    /\ s_created_at sa <= s_created_at sb.
Proof.
  intros Hrun Hs Hin.
  destruct (diff_log_shape _ _ _ _ _ _ _ _ Hrun Hs) as [Hno|(a' & b' & Hc & Hlog)].
  - destruct (Hno _ Hin) as [H _]. now destruct (H a b).
  - rewrite Hlog in Hin. destruct Hin as [Heq|Hin].
    2:{ apply in_map_iff in Hin. destruct Hin as (x & Hx & _). discriminate. }
    inversion Heq; subst a' b'. clear Heq.
    unfold checked_ids in Hc. rewrite prompt_checkbox_map in Hc.
    pose proof (prompt_checkbox_sublist checked (offered_snapshots pr db)) as Hsub.
    destruct (prompt_checkbox checked (offered_snapshots pr db))
      as [|sa [|sb [|sc l]]] eqn:Hrows; try discriminate.
    inversion Hc as [[Ha Hb]]. exists sa, sb.
    assert (Hoff : forall s, In s [sa; sb] -> In s (snapshots db)).
    { intros s Hsin. apply list_elem_of_In in Hsin.
      apply (sublist_subseteq _ _ Hsub) in Hsin. apply list_elem_of_In in Hsin.
      unfold offered_snapshots in Hsin.
      destruct (select_project (name pr) db) as [project|]; [|destruct Hsin].
      now apply ordered_In in Hsin. }
    split; [apply Hoff; now left|]. split; [reflexivity|].
    split; [apply Hoff; right; now left|]. split; [reflexivity|].
    assert (Hsorted : by_time (offered_snapshots pr db)).
    { unfold offered_snapshots. destruct (select_project (name pr) db);
        [apply order_sorted|exact I]. }
    apply (by_time_sublist _ _ Hsub) in Hsorted. simpl in Hsorted.
    apply Hsorted. now left.
Qed.

(** X19.  Every table [diffSnapshots] shows is of a path that passes the
    filter: it ends with the file type when one is given and starts with
    the directory when one is given. *)
Theorem diff_respects_filter (errs : Diff.diff_errors) (checked : list bool)
    (filter : Diff.filter_options) (pr : Project) (d' : node) (s' : option Db)
    (db : Db) (log : list event) (p c1 c2 : string) :
  Diff.diffSnapshots errs checked filter pr = Done d' s' log ->
  store pr = Some db ->
  In (DiffTable p c1 c2) log ->
  (Diff.fileType filter <> "" -> Diff.endsWith (Diff.fileType filter) p = true)
  /\ (Diff.directory filter <> "" -> startsWith (Diff.directory filter) p = true).
Proof.
  intros Hrun Hs Hin.
  destruct (diff_log_shape _ _ _ _ _ _ _ _ Hrun Hs) as [Hno|(a & b & _ & Hlog)].
  - destruct (Hno _ Hin) as [_ H]. now destruct (H p c1 c2).
  - rewrite Hlog in Hin. destruct Hin as [Heq|Hin]; [discriminate|].
    apply in_map_iff in Hin. destruct Hin as (row & Hrow & Hin).
    unfold diff_table in Hrow. inversion Hrow; subst. clear Hrow.
    unfold diff_rows, Diff.filterFiles in Hin. apply filter_In in Hin.
    destruct Hin as [_ Hok]. cbn zeta in Hok. apply andb_true_iff in Hok.
    destruct Hok as [Ht Hd]. split.
    + intros Hne. apply String.eqb_neq in Hne. now rewrite Hne in Ht.
    + intros Hne. apply String.eqb_neq in Hne. now rewrite Hne in Hd.
Qed.

(** ** commands/revert.js: failed restores, and all the boxes checked *)

Lemma restoreFile_failed (p : path) (content : option string) (w w' : World) :
  Revert.restoreFile p content w = (w', false) ->
  forall q, readFileSync q (w_disk w') = readFileSync q (w_disk w).
Proof.
  unfold Revert.restoreFile. simpl.
  destruct (mkdirSync_recursive (dirname p) (w_disk w)) as [made|] eqn:Hm.
  - destruct (writeFileSync p (or_empty content) made); [discriminate|].
    intros H q. inversion H; subst. simpl. eapply mkdir_reads; eauto.
  - intros H q. inversion H; subst. reflexivity.
Qed.

Lemma restore_one_log (row : string * option string) (w : World) :
  exists evs, w_log (Revert.restore_one row w) = w_log w ++ evs
              /\ ((In (Restored (fst row)) evs)
                  \/ forall q, readFileSync q (w_disk (Revert.restore_one row w))
                               = readFileSync q (w_disk w)).
Proof.
  unfold Revert.restore_one.
  destruct (Revert.restoreFile (join_cwd (fst row)) (snd row) w) as [w' ok] eqn:Hr.
  pose proof Hr as Hlog. unfold Revert.restoreFile in Hlog. simpl in Hlog.
  destruct ok.
  - destruct (mkdirSync_recursive _ _); [|discriminate].
    destruct (writeFileSync _ _ _); [|discriminate].
    inversion Hlog; subst. simpl. eexists. rewrite <- !app_assoc. split; [reflexivity|].
    left. simpl. auto.
  - pose proof (restoreFile_failed _ _ _ _ Hr) as Hsame.
    destruct (mkdirSync_recursive _ _).
    + destruct (writeFileSync _ _ _); [discriminate|].
      inversion Hlog; subst. simpl. eexists. rewrite <- !app_assoc.
      split; [reflexivity|]. right. exact Hsame.
    + inversion Hlog; subst. simpl. eexists. rewrite <- !app_assoc.
      split; [reflexivity|]. right. exact Hsame.
Qed.

Lemma restore_each_log (rows : list (string * option string)) :
  forall w, exists evs, w_log (Revert.restore_each rows w) = w_log w ++ evs.
Proof.
  induction rows as [|row rows IH]; intros w.
  - exists []. now rewrite app_nil_r.
  - unfold Revert.restore_each. cbn [fold_left].
    fold (Revert.restore_each rows (Revert.restore_one row w)).
    destruct (IH (Revert.restore_one row w)) as (evs2 & H2).
    destruct (restore_one_log row w) as (evs1 & H1 & _).
    exists (evs1 ++ evs2). now rewrite H2, H1, app_assoc.
Qed.

Lemma restore_each_failed (rows : list (string * option string)) :
  forall w, exists evs,
    w_log (Revert.restore_each rows w) = w_log w ++ evs
    /\ ((forall t, ~ In (Restored t) evs) ->
        forall q, readFileSync q (w_disk (Revert.restore_each rows w))
                  = readFileSync q (w_disk w)).
Proof.
  induction rows as [|row rows IH]; intros w.
  - exists []. rewrite app_nil_r. split; reflexivity.
  - unfold Revert.restore_each. cbn [fold_left].
    fold (Revert.restore_each rows (Revert.restore_one row w)).
    destruct (IH (Revert.restore_one row w)) as (evs2 & H2 & Hsame2).
    destruct (restore_one_log row w) as (evs1 & H1 & Hcase).
    exists (evs1 ++ evs2). split; [now rewrite H2, H1, app_assoc|].
    intros Hno q. rewrite Hsame2.
    + destruct Hcase as [Hin|Hsame1]; [|apply Hsame1].
      exfalso. apply (Hno (fst row)). apply in_or_app. now left.
    + intros t Ht. apply (Hno t). apply in_or_app. now right.
Qed.

(** How the two commands of revert.js end: before any restore, or after
    the loop over some rows. *)
Lemma restore_commands_end (errs : Revert.revert_errors) (answer : nat)
    (checked : list bool) (pr : Project) (d' : node) (s' : option Db)
    (log : list event) :
  Revert.revertToSnapshot errs answer pr = Done d' s' log
  \/ Revert.selectiveRestore errs answer checked pr = Done d' s' log ->
  d' = disk pr
  \/ exists db rows e,
       Done d' s' log = finish (emit e (Revert.restore_each rows (start pr db)))
       /\ restore_event e = false.
Proof.
  unfold Revert.revertToSnapshot, Revert.selectiveRestore, not_initialized.
  destruct (store pr) as [db|];
    [|intros [H|H]; inversion H; now left].
  destruct (Revert.project_err errs); [intros [H|H]; inversion H; now left|].
  destruct (select_project (name pr) db) as [project|];
    [|intros [H|H]; inversion H; now left].
  destruct (Revert.snapshots_err errs); [intros [H|H]; inversion H; now left|].
  destruct (order_by_created_at (project_snapshots (p_id project) db)) as [|first others];
    [intros [H|H]; inversion H; now left|].
  cbn zeta.
  destruct (Revert.files_err errs); [intros [H|H]; inversion H; now left|].
  destruct (snapshot_contents (s_id (prompt_list answer first others)) db)
    as [|row rows]; [intros [H|H]; inversion H; now left|].
  intros [H|H].
  - right. exists db, (row :: rows), (Reverted (s_id (prompt_list answer first others))).
    split; [now symmetry|reflexivity].
  - destruct (negb (Nat.ltb 0 (List.length (prompt_checkbox checked (row :: rows)))));
      [inversion H; now left|].
    destruct (Nat.eqb (List.length (prompt_checkbox checked (row :: rows))) 0);
      [inversion H; now left|].
    right. exists db, (prompt_checkbox checked (row :: rows)), SelectiveCompleted.
    split; [now symmetry|reflexivity].
Qed.

(** X20.  A run of [revertToSnapshot] or [selectiveRestore] that reports no
    file as restored has changed the content of no file: a restore that
    fails writes nothing. *)
Theorem failed_restores_change_no_file (errs : Revert.revert_errors) (answer : nat)
    (checked : list bool) (pr : Project) (d' : node) (s' : option Db)
    (log : list event) :
  Revert.revertToSnapshot errs answer pr = Done d' s' log
  \/ Revert.selectiveRestore errs answer checked pr = Done d' s' log ->
  (forall t, ~ In (Restored t) log) ->
  forall q, readFileSync q d' = readFileSync q (disk pr).
Proof.
  intros Hrun Hno q.
  destruct (restore_commands_end _ _ _ _ _ _ _ Hrun) as [->|(db & rows & e & Heq & He)];
    [reflexivity|].
  unfold finish in Heq. injection Heq as Hd _ Hlog. simpl in Hd, Hlog.
  destruct (restore_each_failed rows (start pr db)) as (evs & Hevs & Hsame).
  rewrite Hd. rewrite Hsame; [reflexivity|].
  intros t Ht. apply (Hno t). rewrite Hlog, Hevs. simpl.
  apply in_or_app. now left.
Qed.

(** X21.  [selectiveRestore] with every file of the snapshot selected does
    what [revertToSnapshot] does: the two end with the same disk and the
    same store, and their logs differ in the last line only. *)
Theorem selective_all_is_revert (errs : Revert.revert_errors) (answer : nat)
    (checked : list bool) (pr : Project) (db : Db) (sid : Z) :
  store pr = Some db ->
  chosen_snapshot answer pr db = Some sid ->
  prompt_checkbox checked (snapshot_contents sid db) = snapshot_contents sid db ->
  exists d' s' log1 log2,
    Revert.revertToSnapshot errs answer pr = Done d' s' log1
    /\ Revert.selectiveRestore errs answer checked pr = Done d' s' log2
    /\ removelast log1 = removelast log2.
Proof.
  intros Hs Hc Hall.
  rewrite (revert_runs _ _ _ _ _ Hs Hc), (selective_runs _ _ _ _ _ _ Hs Hc).
  destruct (Revert.project_err errs); [repeat eexists|].
  destruct (Revert.snapshots_err errs); [repeat eexists|].
  destruct (Revert.files_err errs); [repeat eexists|].
  destruct (snapshot_contents sid db) as [|row rows]; [repeat eexists|].
  rewrite Hall. unfold finish. simpl w_log. do 4 eexists.
  split; [reflexivity|]. split; [reflexivity|].
  now rewrite !removelast_last.
Qed.

(** ** commands/collaboration.js *)

Lemma find_map_key (newKey : string) (pid other : Z) (rows : list ProjectRow) :
  List.find (fun p => Z.eqb (p_id p) other)
    (List.map (fun p => if Z.eqb (p_id p) pid
                        then {| p_id := p_id p; p_name := p_name p;
                                p_secret_key := Some newKey |}
                        else p) rows)
  = option_map (fun p => if Z.eqb (p_id p) pid
                         then {| p_id := p_id p; p_name := p_name p;
                                 p_secret_key := Some newKey |}
                         else p)
      (List.find (fun p => Z.eqb (p_id p) other) rows).
Proof.
  induction rows as [|r rows IH]; [reflexivity|]. simpl.
  destruct (Z.eqb (p_id r) pid) eqn:E; simpl;
    destruct (Z.eqb (p_id r) other); simpl; rewrite ?E; auto.
Qed.

Lemma select_after_update (newKey : string) (pid : Z) (db : Db) :
  newKey <> "" ->
  In pid (List.map p_id (projects db)) ->
  Collaboration.stored_key
    (Collaboration.select_key pid (Collaboration.update_key newKey pid db))
  = Some newKey.
Proof.
  intros Hne Hin. unfold Collaboration.select_key, Collaboration.update_key. simpl.
  rewrite find_map_key.
  destruct (List.find (fun p => Z.eqb (p_id p) pid) (projects db)) as [row|] eqn:Hf.
  - apply List.find_some in Hf. destruct Hf as [_ He]. simpl. rewrite He. simpl.
    apply String.eqb_neq in Hne. now rewrite Hne.
  - exfalso. apply in_map_iff in Hin. destruct Hin as (r & Hr & Hin).
    apply (List.find_none _ _ Hf) in Hin. rewrite Hr, Z.eqb_refl in Hin. discriminate.
Qed.

Lemma select_other_update (newKey : string) (pid other : Z) (db : Db) :
  other <> pid ->
  Collaboration.select_key other (Collaboration.update_key newKey pid db)
  = Collaboration.select_key other db.
Proof.
  intros Hne. unfold Collaboration.select_key, Collaboration.update_key. simpl.
  rewrite find_map_key.
  destruct (List.find (fun p => Z.eqb (p_id p) other) (projects db)) as [row|] eqn:Hf;
    [|reflexivity].
  apply List.find_some in Hf. destruct Hf as [_ He]. apply Z.eqb_eq in He. simpl.
  destruct (Z.eqb (p_id row) pid) eqn:E; [|reflexivity].
  apply Z.eqb_eq in E. congruence.
Qed.

(** X22.  The key [getSecretKey] resolves for a project of the table is
    stable: the next call resolves the same key and changes nothing,
    whatever [generateSecretKey] returns then; the rows of the other
    projects are as they were. *)
Theorem secret_key_stable (errs : Collaboration.errors) (newKey newKey2 key : string)
    (projectId : Z) (db db1 : Db) :
  Collaboration.getSecretKey errs newKey projectId db = (db1, Collaboration.Resolved key) ->
  newKey <> "" ->
  In projectId (List.map p_id (projects db)) ->
  Collaboration.getSecretKey errs newKey2 projectId db1
  = (db1, Collaboration.Resolved key)
  /\ forall other, other <> projectId ->
                   Collaboration.select_key other db1 = Collaboration.select_key other db.
Proof.
  unfold Collaboration.getSecretKey. intros H Hne Hin.
  destruct (Collaboration.column_err errs); [discriminate|].
  destruct (Collaboration.select_err errs); [discriminate|].
  destruct (Collaboration.stored_key (Collaboration.select_key projectId db))
    as [k|] eqn:Hk.
  - inversion H; subst. rewrite Hk. split; reflexivity.
  - destruct (Collaboration.update_err errs); [discriminate|].
    inversion H; subst. rewrite (select_after_update _ _ _ Hne Hin).
    split; [reflexivity|]. intros other Ho. now apply select_other_update.
Qed.

(** X23.  For an id that is not in the table, [getSecretKey] resolves the
    key just generated and stores it nowhere: the store is unchanged, and
    each call resolves what [generateSecretKey] returns then. *)
Theorem secret_key_unknown_project (errs : Collaboration.errors) (newKey : string)
    (projectId : Z) (db : Db) :
  ~ In projectId (List.map p_id (projects db)) ->
  Collaboration.getSecretKey errs newKey projectId db
  = (db, if Collaboration.column_err errs || Collaboration.select_err errs
            || Collaboration.update_err errs
         then Collaboration.Rejected else Collaboration.Resolved newKey).
Proof.
  intros Hnot. unfold Collaboration.getSecretKey.
  destruct (Collaboration.column_err errs); [reflexivity|].
  destruct (Collaboration.select_err errs); [reflexivity|]. simpl.
  assert (Hf : Collaboration.select_key projectId db = None).
  { unfold Collaboration.select_key.
    destruct (List.find (fun p => Z.eqb (p_id p) projectId) (projects db)) as [r|] eqn:Hf;
      [|reflexivity].
    apply List.find_some in Hf. destruct Hf as [Hin He]. apply Z.eqb_eq in He.
    exfalso. apply Hnot. rewrite <- He. now apply in_map. }
  rewrite Hf. simpl. destruct (Collaboration.update_err errs); [reflexivity|].
  f_equal. unfold Collaboration.update_key. destruct db as [ps fs ss sfs q1 q2 q3].
  simpl in *. f_equal. rewrite <- (List.map_id ps) at 2. apply List.map_ext_in.
  intros r Hr. destruct (Z.eqb (p_id r) projectId) eqn:E; [|reflexivity].
  apply Z.eqb_eq in E. exfalso. apply Hnot. rewrite <- E. now apply in_map.
Qed.

(** X24.  After [regenerateSecretKey] has resolved a key for a project of
    the table, [getSecretKey] resolves that key, not the one before. *)
Theorem regenerate_then_get (errs : Collaboration.errors) (newKey newKey2 key : string)
    (projectId : Z) (db db1 : Db) :
  Collaboration.regenerateSecretKey errs newKey projectId db
  = (db1, Collaboration.Resolved key) ->
  newKey <> "" ->
  Collaboration.select_err errs = false ->
  In projectId (List.map p_id (projects db)) ->
  key = newKey
  /\ Collaboration.getSecretKey errs newKey2 projectId db1
     = (db1, Collaboration.Resolved newKey).
Proof.
  unfold Collaboration.regenerateSecretKey, Collaboration.getSecretKey.
  intros H Hne Hsel Hin.
  destruct (Collaboration.column_err errs); [discriminate|].
  destruct (Collaboration.update_err errs); [discriminate|].
  inversion H; subst. rewrite Hsel, (select_after_update _ _ _ Hne Hin). now split.
Qed.

(** ** trackFiles: when it completes and when it throws *)

Section Robust.

Variable sha256_hex : string -> string.
Variable RegExp_test : string -> string -> option bool.

Local Abbreviation some_ignores := (Snapshot.some_ignores RegExp_test).
Local Abbreviation visit_entry := (Snapshot.visit_entry sha256_hex RegExp_test).
Local Abbreviation each_entry := (Snapshot.each_entry sha256_hex RegExp_test).




Variable hasMagic : string -> bool.
Variable RegExp_valid : string -> bool.



End Robust.

(** ** The scenarios of the rest of the code *)

Lemma distinctb_NoDup {A : Type} (eqb : A -> A -> bool) (l : list A) :
  (forall x y, eqb x y = true <-> x = y) ->
  distinctb eqb l = true -> List.NoDup l.
Proof.
  intros Heq. induction l as [|x l IH]; simpl; [constructor|]. intros H.
  apply andb_true_iff in H. destruct H as [Hx Hl]. constructor; [|now apply IH].
  intros Hin. apply negb_true_iff in Hx.
  assert (Hex : existsb (eqb x) l = true).
  { apply existsb_exists. exists x. split; [exact Hin|now apply Heq]. }
  congruence.
Qed.

Lemma intactb_intact (db : Db) : intactb db = true -> intact db.
Proof.
  unfold intactb. intros H.
  repeat match type of H with
         | _ && _ = true => apply andb_true_iff in H; destruct H as [H ?]
         end.
  constructor.
  - apply (distinctb_NoDup String.eqb); [apply String.eqb_eq|assumption].
  - apply (distinctb_NoDup Z.eqb); [apply Z.eqb_eq|assumption].
  - intros f Hf.
    match goal with
    | H : forallb (fun f => Z.leb (f_id f) _) _ = true |- _ =>
        rewrite forallb_forall in H; specialize (H f Hf); now apply Z.leb_le
    end.
  - apply (distinctb_NoDup Z.eqb); [apply Z.eqb_eq|assumption].
  - intros s Hs.
    match goal with
    | H : forallb (fun s => Z.leb (s_id s) _) _ = true |- _ =>
        rewrite forallb_forall in H; specialize (H s Hs); now apply Z.leb_le
    end.
  - intros sf Hsf.
    match goal with
    | H : forallb (fun sf => existsb _ _ && _) _ = true |- _ =>
        rewrite forallb_forall in H; specialize (H sf Hsf);
        apply andb_true_iff in H; destruct H as [H _];
        apply existsb_exists in H; destruct H as (s & Hs & He);
        apply Z.eqb_eq in He; eauto
    end.
  - intros sf Hsf.
    match goal with
    | H : forallb (fun sf => existsb _ _ && _) _ = true |- _ =>
        rewrite forallb_forall in H; specialize (H sf Hsf);
        apply andb_true_iff in H; destruct H as [_ H];
        apply existsb_exists in H; destruct H as (f & Hf & He);
        apply Z.eqb_eq in He; eauto
    end.
Qed.

Lemma loaded_rules_clean_witness :
  (existsSync ignoreFilePath Session.tree = false -> ["dist"; "*.log"] = [])
  /\ forall r, In r ["dist"; "*.log"] -> storable r = true /\ is_comment r = false.
Proof.
  apply (loaded_rules_clean Session.tree ["dist"; "*.log"]).
  vm_compute. reflexivity.
Defined.

Lemma save_then_load_witness :
  loadIgnoreRules Session.saved = Some ["dist"; "*.log"].
Proof.
  apply (save_then_load Session.three_rules (Dir ENil) Session.saved).
  - vm_compute. reflexivity.
  - vm_compute. reflexivity.
Defined.

Lemma edit_without_save_witness :
  Session.result_disk Session.edit_back = Session.tree.
Proof.
  apply (edit_without_save Session.hasMagic Session.RegExp_valid
           [Ignore.Add " out "; Ignore.Remove 0; Ignore.Back] Session.tree
           (Session.result_disk Session.edit_back)
           (Session.result_rules Session.edit_back)
           (Session.result_log Session.edit_back)).
  - vm_compute. reflexivity.
  - vm_compute. intuition discriminate.
Defined.

Lemma edit_save_reloads_witness :
  loadIgnoreRules (Session.result_disk Session.edit_save) = Some ["*.log"; "out"]
  /\ forall q, q <> ignoreFilePath ->
               readFileSync q (Session.result_disk Session.edit_save)
               = readFileSync q Session.tree.
Proof.
  apply (edit_save_reloads Session.hasMagic Session.RegExp_valid
           [Ignore.Add " out "; Ignore.Remove 0; Ignore.Save] Session.tree
           (Session.result_disk Session.edit_save)
           (Session.result_rules Session.edit_save)
           (Session.result_log Session.edit_save)).
  - vm_compute. reflexivity.
  - vm_compute. reflexivity.
  - vm_compute. repeat (first [left; reflexivity | right]).
Defined.

Lemma prompts_append_ignored_witness :
  readFileSync ignoreFilePath (Session.handled_disk Session.handled)
  = Some (Session.text ++ "new.txt" ++ LF ++ "old.txt" ++ LF)%string.
Proof.
  destruct (prompts_append_ignored Session.answers Session.changes Monitor.no_changes
              Session.tree (Session.handled_disk Session.handled)
              (Session.handled_log Session.handled))
    as (_ & _ & _ & Happ).
  - vm_compute. reflexivity.
  - rewrite Happ; [vm_compute; reflexivity|]. vm_compute. discriminate.
Defined.

Lemma ignored_files_become_rules_witness :
  loadIgnoreRules (Session.handled_disk Session.handled)
  = Some ["dist"; "*.log"; "new.txt"; "old.txt"].
Proof.
  apply (ignored_files_become_rules Session.answers Session.changes Monitor.no_changes
           Session.tree (Session.handled_disk Session.handled)
           (Session.handled_log Session.handled) ["dist"; "*.log"]).
  - vm_compute. reflexivity.
  - vm_compute. reflexivity.
  - vm_compute. reflexivity.
  - vm_compute. reflexivity.
Defined.

Lemma ignored_after_init_glued_witness :
  loadIgnoreRules (Session.handled_disk Session.handled_after_init)
  = Some ["node_modules/"; ".git/"; "*.log"; "*.tmp"; "*.dbnew.txt"; "old.txt"].
Proof.
  apply (ignored_after_init_glued false Session.fresh
           (Session.init_project Session.inited) (Session.init_log Session.inited)
           Session.answers Session.changes Monitor.no_changes
           (Session.handled_disk Session.handled_after_init)
           (Session.handled_log Session.handled_after_init) "new.txt" ["old.txt"]).
  - reflexivity.
  - vm_compute. reflexivity.
  - vm_compute. reflexivity.
  - vm_compute. reflexivity.
  - vm_compute. reflexivity.
  - vm_compute. reflexivity.
Defined.

Lemma init_fresh_project_witness :
  Init.getProjectId false (Session.init_project Session.inited) = Init.Resolved (Some 1)
  /\ loadIgnoreRules (disk (Session.init_project Session.inited))
     = Some Init.defaultRules.
Proof.
  destruct (init_fresh_project Session.fresh (Session.init_project Session.inited)
              (Session.init_log Session.inited))
    as (Hid & _ & _ & Hrules & _).
  - reflexivity.
  - vm_compute. reflexivity.
  - split; [exact Hid|]. apply Hrules. vm_compute. reflexivity.
Defined.

Lemma commands_keep_store_intact_witness :
  intact (Scenario.store_of Scenario.after_S2).
Proof.
  apply (commands_keep_store_intact Scenario.digest Scenario.RegExp_test false
           Scenario.no_create_error Scenario.no_delete_error "S2" 20 0 false
           (Scenario.edited (Scenario.store_of Scenario.after_S1))
           Scenario.tree_edited (Scenario.store_of Scenario.after_S1)
           (Scenario.store_of Scenario.after_S2) (Scenario.log_of Scenario.after_S2)).
  - right. left. vm_compute. reflexivity.
  - reflexivity.
  - apply intactb_intact. vm_compute. reflexivity.
Defined.

Lemma track_keeps_rows_witness :
  exists added,
    List.map file_key (files (Scenario.store_of Scenario.tracked))
    = List.map file_key (files Scenario.known_db) ++ added.
Proof.
  apply (track_keeps_rows Scenario.digest Scenario.RegExp_test false 10
           (Scenario.project Scenario.known_db) Scenario.tree Scenario.known_db
           (Scenario.store_of Scenario.tracked) (Scenario.log_of Scenario.tracked)).
  - vm_compute. reflexivity.
  - reflexivity.
Defined.

Lemma track_again_adds_nothing_witness :
  List.map file_key (files (Scenario.store_of Session.retracked))
  = List.map file_key (files (Scenario.store_of Scenario.tracked))
  /\ seq_files (Scenario.store_of Session.retracked)
     = seq_files (Scenario.store_of Scenario.tracked).
Proof.
  apply (track_again_adds_nothing Scenario.digest Scenario.RegExp_test false false 10 20
           (Scenario.project Scenario.known_db) Scenario.tree Scenario.tree
           (Scenario.store_of Scenario.tracked) (Scenario.store_of Session.retracked)
           (Scenario.log_of Scenario.tracked) (Scenario.log_of Session.retracked)).
  - vm_compute. reflexivity.
  - list_member.
  - vm_compute. reflexivity.
Defined.

Lemma old_snapshots_unchanged_witness :
  snapshot_contents 1 Scenario.two_snapshots
  = snapshot_contents 1 (Scenario.store_of Scenario.after_S1).
Proof.
  apply (old_snapshots_unchanged Scenario.digest Scenario.RegExp_test false
           Scenario.no_create_error "S2" 20
           (Scenario.edited (Scenario.store_of Scenario.after_S1))
           Scenario.tree_edited (Scenario.store_of Scenario.after_S1)
           Scenario.two_snapshots (Scenario.log_of Scenario.after_S2) 1).
  - right. split; [vm_compute; reflexivity|vm_compute; discriminate].
  - reflexivity.
  - apply intactb_intact. vm_compute. reflexivity.
Defined.

Lemma delete_own_snapshot_witness :
  chosen_snapshot 0 (Scenario.edited Scenario.two_snapshots) Scenario.two_snapshots
  = Some 1
  /\ exists project s,
       select_project "demo" Scenario.two_snapshots = Some project
       /\ In s (snapshots Scenario.two_snapshots) /\ s_id s = 1
       /\ s_project_id s = p_id project.
Proof.
  apply (proj2 (delete_own_snapshot Scenario.no_delete_error 0 true
                  (Scenario.edited Scenario.two_snapshots) Scenario.tree_edited
                  Scenario.two_snapshots (Scenario.store_of Session.deleted)
                  (Scenario.log_of Session.deleted)
                  ltac:(vm_compute; reflexivity) eq_refl) 1).
  list_member.
Defined.

Lemma history_lists_snapshots_witness :
  exists rows,
    Permutation rows (project_snapshots 1 Scenario.three_snapshots)
    /\ by_time rows
    /\ History.showHistory no_history_error (Scenario.added Scenario.three_snapshots)
       = match rows with
         | [] => [History.NoSnapshotsFound]
         | _ => History.HistoryHeader "demo" :: List.map History.entry rows
         end
    /\ History.listSnapshots no_history_error (Scenario.added Scenario.three_snapshots)
       = match rows with
         | [] => [History.NoSnapshotsFound]
         | _ => History.ListHeader :: List.map History.entry rows
         end.
Proof.
  apply (history_lists_snapshots (Scenario.added Scenario.three_snapshots)
           Scenario.three_snapshots
           {| p_id := 1; p_name := "demo"; p_secret_key := None |}).
  - reflexivity.
  - vm_compute. reflexivity.
Defined.

Lemma history_after_create_witness :
  In (History.Entry 1 "S1" 10)
    (History.showHistory no_history_error
       (project_after (Scenario.project Scenario.known_db) Scenario.tree
          (Scenario.store_of Scenario.after_S1))).
Proof.
  apply (history_after_create Scenario.digest Scenario.RegExp_test
           Scenario.no_create_error "S1" 10 (Scenario.project Scenario.known_db)
           Scenario.tree Scenario.known_db (Scenario.store_of Scenario.after_S1)
           (Scenario.log_of Scenario.after_S1)).
  - vm_compute. reflexivity.
  - reflexivity.
  - list_member.
Defined.

Lemma history_after_delete_witness :
  ~ In (History.Entry 1 "S1" 10)
      (History.showHistory no_history_error
         (project_after (Scenario.edited Scenario.two_snapshots) Scenario.tree_edited
            (Scenario.store_of Session.deleted))).
Proof.
  apply (history_after_delete Scenario.no_delete_error 0 true
           (Scenario.edited Scenario.two_snapshots) Scenario.tree_edited
           Scenario.two_snapshots (Scenario.store_of Session.deleted)
           (Scenario.log_of Session.deleted) 1 "S1" 10).
  - right. vm_compute. reflexivity.
  - reflexivity.
  - list_member.
Defined.

Lemma diff_older_first_witness :
  exists sa sb,
    In sa (snapshots Scenario.three_snapshots) /\ s_id sa = 1
    /\ In sb (snapshots Scenario.three_snapshots) /\ s_id sb = 2
    /\ s_created_at sa <= s_created_at sb.
Proof.
  apply (diff_older_first Scenario.no_diff_error [true; true; false] Scenario.no_filter
           (Scenario.added Scenario.three_snapshots) Scenario.tree_added
           (Some Scenario.three_snapshots) Scenario.three_snapshots
           (Scenario.log_of Scenario.diff_S1_S2) 1 2).
  - vm_compute. reflexivity.
  - reflexivity.
  - list_member.
Defined.

Lemma diff_respects_filter_witness :
  (".txt" <> "" -> Diff.endsWith ".txt" "src/b.txt" = true)
  /\ ("src" <> "" -> startsWith "src" "src/b.txt" = true).
Proof.
  apply (diff_respects_filter Scenario.no_diff_error [true; true; false]
           Session.txt_below_src (Scenario.added Scenario.three_snapshots)
           Scenario.tree_added (Some Scenario.three_snapshots) Scenario.three_snapshots
           (Scenario.log_of Session.diff_filtered) "src/b.txt" "2" "2").
  - vm_compute. reflexivity.
  - reflexivity.
  - list_member.
Defined.

Lemma failed_restores_change_no_file_witness :
  readFileSync ["a.txt"] (Scenario.disk_of Session.reverted_one_blocked)
  = readFileSync ["a.txt"] (disk Session.one_blocked)
  /\ In (RestoreFailed "a.txt") (Scenario.log_of Session.reverted_one_blocked).
Proof.
  split; [|list_member].
  apply (failed_restores_change_no_file Scenario.no_revert_error 0 []
           Session.one_blocked (Scenario.disk_of Session.reverted_one_blocked)
           (Some (Scenario.store_of Session.one_snapshot))
           (Scenario.log_of Session.reverted_one_blocked)).
  - left. vm_compute. reflexivity.
  - intros t. vm_compute. intuition discriminate.
Defined.

Lemma selective_all_is_revert_witness :
  exists d' s' log1 log2,
    Revert.revertToSnapshot Scenario.no_revert_error 0
      (Scenario.edited Scenario.two_snapshots) = Done d' s' log1
    /\ Revert.selectiveRestore Scenario.no_revert_error 0 [true; true; true; true]
         (Scenario.edited Scenario.two_snapshots) = Done d' s' log2
    /\ removelast log1 = removelast log2.
Proof.
  apply (selective_all_is_revert Scenario.no_revert_error 0 [true; true; true; true]
           (Scenario.edited Scenario.two_snapshots) Scenario.two_snapshots 1).
  - reflexivity.
  - vm_compute. reflexivity.
  - vm_compute. reflexivity.
Defined.

Lemma secret_key_stable_witness :
  Collaboration.getSecretKey Session.no_key_error Session.key2 1 Session.with_key
  = (Session.with_key, Collaboration.Resolved Session.key1)
  /\ forall other, other <> 1 ->
                   Collaboration.select_key other Session.with_key
                   = Collaboration.select_key other Scenario.empty_db.
Proof.
  apply (secret_key_stable Session.no_key_error Session.key1 Session.key2 Session.key1
           1 Scenario.empty_db Session.with_key).
  - vm_compute. reflexivity.
  - vm_compute. discriminate.
  - list_member.
Defined.

Lemma secret_key_unknown_project_witness :
  Collaboration.getSecretKey Session.no_key_error Session.key1 7 Scenario.empty_db
  = (Scenario.empty_db, Collaboration.Resolved Session.key1).
Proof.
  apply (secret_key_unknown_project Session.no_key_error Session.key1 7 Scenario.empty_db).
  vm_compute. intuition discriminate.
Defined.

Lemma regenerate_then_get_witness :
  Session.key2 = Session.key2
  /\ Collaboration.getSecretKey Session.no_key_error Session.key1 1 Session.with_new_key
     = (Session.with_new_key, Collaboration.Resolved Session.key2).
Proof.
  apply (regenerate_then_get Session.no_key_error Session.key2 Session.key1 Session.key2
           1 Session.with_key Session.with_new_key).
  - vm_compute. reflexivity.
  - vm_compute. discriminate.
  - reflexivity.
  - list_member.
Defined.



(** ** From createSnapshot to revertToSnapshot *)


Section RoundTrip.

Variable sha256_hex : string -> string.
Variable RegExp_test : string -> string -> option bool.



End RoundTrip.

